(** * BufferHubQueueProducer: the producer side of a BufferHub backed queue

    A shallow embedding of
    [libs/vr/libbufferhubqueue/buffer_hub_queue_producer.cpp].

    Every operation of the producer runs under [core_->mutex_] for its whole
    body, so an operation is modelled as one atomic function on the producer
    state.  The BufferHub producer queue ([core_->producer_]) lives in another
    translation unit and partly in another process; it is an interface here
    (class [BufferHub]) and the general theorems hold for all of its
    implementations, or, where a property of the producer rests on what the
    broker does, for those that keep the contract [lawful].  A first-in
    first-out implementation ([Fifo]), which keeps that contract, is given
    at the end of the definitions to evaluate the operations on concrete
    states. *)

From stdpp Require Import base numbers option list.
From Stdlib Require Import ZArith Lia Bool.

Local Open Scope Z_scope.

(** ** Machine integers *)

(** [static_cast<int>(x)] and the implicit conversion to [int32_t]. *)
Definition to_int32 (z : Z) : Z := (z + 2 ^ 31) mod 2 ^ 32 - 2 ^ 31.

(** Implicit conversion to [uint32_t]. *)
Definition to_uint32 (z : Z) : Z := z mod 2 ^ 32.

Definition INT32_MAX : Z := 2 ^ 31 - 1.

(** ** Status codes and window constants (utils/Errors.h, system/window.h) *)

Definition NO_ERROR : Z := 0.
Definition NO_MEMORY : Z := -12.
Definition NO_INIT : Z := -19.
Definition BAD_VALUE : Z := -22.
Definition INVALID_OPERATION : Z := -38.

(** [IGraphicBufferProducer::BUFFER_NEEDS_REALLOCATION]. *)
Definition BUFFER_NEEDS_REALLOCATION : Z := 1.

Definition NATIVE_WINDOW_SCALING_MODE_FREEZE : Z := 0.
Definition NATIVE_WINDOW_SCALING_MODE_SCALE_TO_WINDOW : Z := 1.
Definition NATIVE_WINDOW_SCALING_MODE_SCALE_CROP : Z := 2.
Definition NATIVE_WINDOW_SCALING_MODE_NO_SCALE_CROP : Z := 3.

Definition NATIVE_WINDOW_API_EGL : Z := 1.
Definition NATIVE_WINDOW_API_CPU : Z := 2.
Definition NATIVE_WINDOW_API_MEDIA : Z := 3.
Definition NATIVE_WINDOW_API_CAMERA : Z := 4.

(** ** Data *)

(** Modelled from the spec: [Fence] (libui) is not among the sources.  A
    fence is "an opaque synchronization token passed through, not
    interpreted": here the descriptor it holds, -1 when it holds none.  A
    null [sp<Fence>] is [None]. *)
Module Fence.
Record t : Type := Build { fd : Z }.
Definition isValid (f : t) : bool := negb (fd f =? -1).
(** [Fence::NO_FENCE]: the fence that holds no descriptor. *)
Definition NO_FENCE : t := {| fd := -1 |}.
End Fence.

(** Modelled from the spec: [android::Rect] (libui) is not among the sources.
    The spec asks that "crop ∩ buffer_rect must equal crop exactly"; the
    intersection of two rectangles is the rectangle of the larger left/top
    and the smaller right/bottom edges, and two rectangles differ when one
    of their four edges differs. *)
Module Rect.
Record t : Type := Build { left : Z; top : Z; right : Z; bottom : Z }.
Definition EMPTY_RECT : t := Build 0 0 0 0.
(** [Rect(w, h)]. *)
Definition of_size (w h : Z) : t := Build 0 0 w h.
(** [this->intersect(with, &result)]: the rectangle stored in [result]. *)
Definition intersect (this with_ : t) : t :=
  Build (Z.max (left this) (left with_)) (Z.max (top this) (top with_))
        (Z.min (right this) (right with_)) (Z.min (bottom this) (bottom with_)).
(** [a != b]. *)
Definition neq (a b : t) : bool :=
  negb ((left a =? left b) && (top a =? top b) &&
        (right a =? right b) && (bottom a =? bottom b)).
End Rect.

(** A BufferHub buffer as the producer sees it: what [width()], [height()],
    [format()], [usage()], [stride()] and [buffer()->handle()] return. *)
Module BufferProducer.
Record t : Type := Build {
  handle : nat;
  width : Z;
  height : Z;
  format : Z;
  usage : Z;
  stride : Z
}.
End BufferProducer.

(** The arguments the source passes to the [GraphicBuffer] constructor. *)
Module GraphicBuffer.
Record t : Type := Build {
  width : Z;
  height : Z;
  format : Z;
  layerCount : Z;
  usage : Z;
  stride : Z;
  handle : nat;
  keepOwnership : bool
}.
End GraphicBuffer.

(** Modelled from the spec: [BufferState] (gui/BufferSlot.h) is not among the
    sources.  The spec gives a slot exactly one of the states Free, Dequeued
    and Queued and the transitions F or Q --dequeue--> D, D --queue--> Q and
    D --cancel--> F; a transition asked from a state outside its table row
    leaves the state as it is.  [freeQueued] followed by [dequeue] is how the
    source takes the first row. *)
Module BufferState.
Inductive t : Type := Free | Dequeued | Queued.
Definition isFree (s : t) : bool := match s with Free => true | _ => false end.
Definition isDequeued (s : t) : bool := match s with Dequeued => true | _ => false end.
Definition isQueued (s : t) : bool := match s with Queued => true | _ => false end.
Definition freeQueued (s : t) : t := match s with Queued => Free | _ => s end.
Definition dequeue (s : t) : t := match s with Free => Dequeued | _ => s end.
Definition queue (s : t) : t := match s with Dequeued => Queued | _ => s end.
Definition cancel (s : t) : t := match s with Dequeued => Free | _ => s end.
End BufferState.

(** [BufferHubQueueCore::BufferHubSlot]: a [BufferSlot] with the two fields
    the BufferHub backed queue adds. *)
Module BufferHubSlot.
Record t : Type := Build {
  mGraphicBuffer : option GraphicBuffer.t;
  mBufferState : BufferState.t;
  mRequestBufferCalled : bool;
  mFence : option Fence.t;
  mBufferProducer : option BufferProducer.t;
  mIsReallocating : bool
}.
Definition empty : t := Build None BufferState.Free false None None false.
Definition set_mGraphicBuffer (g : option GraphicBuffer.t) (s : t) : t :=
  Build g (mBufferState s) (mRequestBufferCalled s) (mFence s)
        (mBufferProducer s) (mIsReallocating s).
Definition set_mBufferState (b : BufferState.t) (s : t) : t :=
  Build (mGraphicBuffer s) b (mRequestBufferCalled s) (mFence s)
        (mBufferProducer s) (mIsReallocating s).
Definition set_mRequestBufferCalled (r : bool) (s : t) : t :=
  Build (mGraphicBuffer s) (mBufferState s) r (mFence s)
        (mBufferProducer s) (mIsReallocating s).
Definition set_mFence (f : option Fence.t) (s : t) : t :=
  Build (mGraphicBuffer s) (mBufferState s) (mRequestBufferCalled s) f
        (mBufferProducer s) (mIsReallocating s).
Definition set_mBufferProducer (p : option BufferProducer.t) (s : t) : t :=
  Build (mGraphicBuffer s) (mBufferState s) (mRequestBufferCalled s) (mFence s)
        p (mIsReallocating s).
Definition set_mIsReallocating (r : bool) (s : t) : t :=
  Build (mGraphicBuffer s) (mBufferState s) (mRequestBufferCalled s) (mFence s)
        (mBufferProducer s) r.
End BufferHubSlot.

(** [IGraphicBufferProducer::QueueBufferInput], as [deflate] reads it. *)
Module QueueBufferInput.
Record t : Type := Build {
  timestamp : Z;
  isAutoTimestamp : bool;
  dataSpace : Z;
  crop : Rect.t;
  scalingMode : Z;
  transform : Z;
  fence : option Fence.t
}.
End QueueBufferInput.

(** [IGraphicBufferProducer::QueueBufferOutput]; its fields are unsigned. *)
Module QueueBufferOutput.
Record t : Type := Build {
  width : Z;
  height : Z;
  transformHint : Z;
  numPendingBuffers : Z;
  nextFrameNumber : Z
}.
Definition zero : t := Build 0 0 0 0 0.
End QueueBufferOutput.

(** ** The BufferHub side *)

(** What the producer needs from [BufferHubQueue]/[ProducerQueue] (the
    broker) and from the platform.  [B] is the state of the broker.
    - [kMaxQueueCapacity] is [BufferHubQueue::kMaxQueueCapacity] and
      [kNoConnectedApi] is [BufferHubQueueCore::kNoConnectedApi], two
      constants whose declarations are not among the sources;
    - [Dequeue timeout b] is [producer_->Dequeue(timeout, &slot, &fence)]:
      the slot, the buffer and the fence descriptor, or nothing;
    - [Allocate w h f u n b] asks the broker for [n] new buffers and tells
      which slot the buffer went to, or fails;
    - [Detach slot b] releases the buffer of a slot;
    - [Enqueue buf slot b] returns a buffer to the free pool;
    - [Post buf fence_fd timestamp b] is [buffer_producer->Post];
    - [initCheck] is [GraphicBuffer::initCheck] and [dup] is [Fence::dup]. *)
Class BufferHub (B : Type) : Type := {
  kMaxQueueCapacity : nat;
  kNoConnectedApi : Z;
  capacity : B → nat;
  Dequeue : Z → B → B * option (nat * BufferProducer.t * Z);
  Allocate : Z → Z → Z → Z → Z → B → B * option (nat * BufferProducer.t);
  Detach : nat → B → B;
  Enqueue : option BufferProducer.t → nat → B → B;
  Post : BufferProducer.t → Z → Z → B → B;
  initCheck : GraphicBuffer.t → Z;
  dup : Fence.t → Z
}.

(** How a call ends: it returns [a] and leaves the state [s]; or
    [LOG_ALWAYS_FATAL] aborts the process; or the call reads outside
    [buffers_], through a null buffer or from an unset variable. *)
Inductive Outcome (A S : Type) : Type :=
| Done (a : A) (s : S)
| Fatal
| Undefined.
Arguments Done {A S} a s.
Arguments Fatal {A S}.
Arguments Undefined {A S}.

(** ** The queue core and the producer *)

Section Producer.
Context {B : Type} `{HB : BufferHub B}.

(** [BufferHubQueueCore]: the slot table [buffers_] and the queue-wide
    state, all protected by [mutex_]. *)
Record Core : Type := BuildCore {
  buffers_ : list BufferHubSlot.t;
  connected_api_ : Z;
  producer_ : B;
  dequeue_timeout_ms_ : Z;
  generation_number_ : Z;
  unique_id_ : Z
}.

Definition set_buffers_ (l : list BufferHubSlot.t) (c : Core) : Core :=
  BuildCore l (connected_api_ c) (producer_ c) (dequeue_timeout_ms_ c)
            (generation_number_ c) (unique_id_ c).
Definition set_connected_api_ (a : Z) (c : Core) : Core :=
  BuildCore (buffers_ c) a (producer_ c) (dequeue_timeout_ms_ c)
            (generation_number_ c) (unique_id_ c).
Definition set_producer_ (b : B) (c : Core) : Core :=
  BuildCore (buffers_ c) (connected_api_ c) b (dequeue_timeout_ms_ c)
            (generation_number_ c) (unique_id_ c).

(** [BufferHubQueueProducer]: the core and the two limits it keeps itself. *)
Record Producer : Type := BuildProducer {
  core_ : Core;
  max_buffer_count_ : Z;
  max_dequeued_buffer_count_ : Z
}.

Definition set_core_ (c : Core) (p : Producer) : Producer :=
  BuildProducer c (max_buffer_count_ p) (max_dequeued_buffer_count_ p).
Definition set_max_dequeued_buffer_count_ (n : Z) (p : Producer) : Producer :=
  BuildProducer (core_ p) (max_buffer_count_ p) n.

(** [core_->buffers_[slot] = f(core_->buffers_[slot])]. *)
Definition update_slot (slot : nat) (f : BufferHubSlot.t → BufferHubSlot.t)
    (c : Core) : option Core :=
  match buffers_ c !! slot with
  | Some s => Some (set_buffers_ (<[slot := f s]> (buffers_ c)) c)
  | None => None
  end.

(** Modelled from the spec: [BufferHubQueueCore::AllocateBuffer] is not among
    the sources.  Slots "are populated lazily by on-demand allocation through
    the broker", the handle of a slot is "present once allocation has
    occurred for this slot", and dequeue fails with OutOfMemory "if
    allocation itself fails". *)
Definition AllocateBuffer (width height format usage slice_count : Z)
    (c : Core) : Outcome Z Core :=
  match Allocate width height format usage slice_count (producer_ c) with
  | (b, None) => Done NO_MEMORY (set_producer_ b c)
  | (b, Some (slot, buf)) =>
      match update_slot slot (BufferHubSlot.set_mBufferProducer (Some buf))
                        (set_producer_ b c) with
      | Some c' => Done NO_ERROR c'
      | None => Undefined
      end
  end.

(** Modelled from the spec: [BufferHubQueueCore::DetachBuffer] is not among
    the sources.  Detaching a slot for reallocation releases its buffer
    through the broker and has the side effects "release buffer_handle, clear
    all derived fields", the derived fields being the presentation buffer and
    [request_called]; [needs_reallocation] stays, as it is "consumed
    (cleared) by the next successful dequeue result for that slot", and so
    does the state, which is not among the side effects. *)
Definition DetachBuffer (slot : nat) (c : Core) : option Core :=
  update_slot slot
    (λ s, BufferHubSlot.set_mRequestBufferCalled false
            (BufferHubSlot.set_mGraphicBuffer None
               (BufferHubSlot.set_mBufferProducer None s)))
    (set_producer_ (Detach slot (producer_ c)) c).

(** *** requestBuffer *)

(** [slot < 0 || slot >= max_buffer_count_]. *)
Definition slot_out_of_range (p : Producer) (slot : Z) : bool :=
  (slot <? 0) || (max_buffer_count_ p <=? slot).

Definition new_GraphicBuffer (buf : BufferProducer.t) : GraphicBuffer.t :=
  GraphicBuffer.Build (BufferProducer.width buf) (BufferProducer.height buf)
    (BufferProducer.format buf) 1 (BufferProducer.usage buf)
    (BufferProducer.stride buf) (BufferProducer.handle buf) false.

(** The status and what is stored in [*buf]. *)
Definition requestBuffer (p : Producer) (slot : Z)
    : Outcome (Z * option GraphicBuffer.t) Producer :=
  let c := core_ p in
  if connected_api_ c =? kNoConnectedApi then Done (NO_INIT, None) p
  else if slot_out_of_range p slot then Done (BAD_VALUE, None) p
  else
    match buffers_ c !! Z.to_nat slot with
    | None => Undefined
    | Some s =>
        if negb (BufferState.isDequeued (BufferHubSlot.mBufferState s))
        then Done (BAD_VALUE, None) p
        else
          match BufferHubSlot.mGraphicBuffer s, BufferHubSlot.mBufferProducer s with
          | Some _, _ => Done (BAD_VALUE, None) p
          | None, None => Done (BAD_VALUE, None) p
          | None, Some buffer_producer =>
              let graphic_buffer := new_GraphicBuffer buffer_producer in
              if negb (initCheck graphic_buffer =? NO_ERROR) then Fatal
              else
                let s' :=
                  BufferHubSlot.set_mRequestBufferCalled true
                    (BufferHubSlot.set_mGraphicBuffer (Some graphic_buffer) s) in
                Done (NO_ERROR, Some graphic_buffer)
                     (set_core_ (set_buffers_ (<[Z.to_nat slot := s']> (buffers_ c)) c) p)
          end
    end.

(** *** setMaxDequeuedBufferCount *)

(** The loop over [core_->buffers_] that counts the dequeued slots. *)
Fixpoint dequeued_count (l : list BufferHubSlot.t) : nat :=
  match l with
  | [] => 0%nat
  | buf :: l' =>
      if BufferState.isDequeued (BufferHubSlot.mBufferState buf)
      then S (dequeued_count l')
      else dequeued_count l'
  end.

Definition setMaxDequeuedBufferCount (p : Producer) (max_dequeued_buffers : Z)
    : Z * Producer :=
  if (max_dequeued_buffers <=? 0) ||
     (to_int32 (Z.of_nat kMaxQueueCapacity) <? max_dequeued_buffers)
  then (BAD_VALUE, p)
  else if max_dequeued_buffers <? Z.of_nat (dequeued_count (buffers_ (core_ p)))
  then (BAD_VALUE, p)
  else (NO_ERROR, set_max_dequeued_buffer_count_ max_dequeued_buffers p).

(** *** connect and disconnect *)

Definition recognized_api (api : Z) : bool :=
  (api =? NATIVE_WINDOW_API_EGL) || (api =? NATIVE_WINDOW_API_CPU) ||
  (api =? NATIVE_WINDOW_API_MEDIA) || (api =? NATIVE_WINDOW_API_CAMERA).

(** [output_given] tells whether [output] is a non-null pointer. *)
Definition connect (p : Producer) (api : Z) (output_given : bool) : Z * Producer :=
  if negb output_given then (BAD_VALUE, p)
  else if negb (connected_api_ (core_ p) =? kNoConnectedApi) then (BAD_VALUE, p)
  else if recognized_api api
  then (NO_ERROR, set_core_ (set_connected_api_ api (core_ p)) p)
  else (BAD_VALUE, p).

Definition disconnect (p : Producer) (api : Z) : Z * Producer :=
  if negb (api =? connected_api_ (core_ p)) then (BAD_VALUE, p)
  else (NO_ERROR, set_core_ (set_connected_api_ kNoConnectedApi (core_ p)) p).

(** *** dequeueBuffer *)

(** The test that ends the retry loop: the buffer the broker returned has
    the requested width, height and format. *)
Definition geometry_matches (width height format : Z) (buf : BufferProducer.t) : bool :=
  (to_int32 width =? BufferProducer.width buf) &&
  (to_int32 height =? BufferProducer.height buf) &&
  (to_int32 format =? BufferProducer.format buf).

(** How the retry loop is left.  [ExitBreak] is the [break] on a matching
    buffer; [ExitExhausted] is the loop condition [retry <
    kMaxQueueCapacity] turning false, with the values [slot] and
    [buffer_producer] hold at that moment, if any was assigned;
    [ExitNoMemory] and [ExitAllocFailed] are the two [return]s inside the
    loop. *)
Inductive LoopExit : Type :=
| ExitBreak (slot : nat) (buffer_producer : BufferProducer.t) (c : Core)
| ExitExhausted (last : option (nat * BufferProducer.t)) (c : Core)
| ExitNoMemory (c : Core)
| ExitAllocFailed (ret : Z) (c : Core)
| ExitUndefined.

(** The answers of the broker to the [Dequeue] calls of one loop, in the
    order of the calls. *)
Definition Fetches : Type := list (option (nat * BufferProducer.t)).

(** [n] is the number of iterations left, [last] the current values of
    [slot] and [buffer_producer]. *)
Fixpoint retry_loop (n : nat) (width height format usage : Z) (c : Core)
    (last : option (nat * BufferProducer.t)) : Fetches * LoopExit :=
  match n with
  | O => ([], ExitExhausted last c)
  | S n' =>
      let '(b, r) := Dequeue (dequeue_timeout_ms_ c) (producer_ c) in
      let c1 := set_producer_ b c in
      match r with
      | None => ([None], ExitNoMemory c1)
      | Some (slot, buffer_producer, _) =>
          let here := Some (slot, buffer_producer) in
          if geometry_matches width height format buffer_producer
          then ([here], ExitBreak slot buffer_producer c1)
          else
            match update_slot slot (BufferHubSlot.set_mIsReallocating true) c1 with
            | None => ([here], ExitUndefined)
            | Some c2 =>
                match DetachBuffer slot c2 with
                | None => ([here], ExitUndefined)
                | Some c3 =>
                    match AllocateBuffer width height format usage 1 c3 with
                    | Done ret c4 =>
                        if ret <? 0 then ([here], ExitAllocFailed ret c4)
                        else
                          let '(fs, e) :=
                            retry_loop n' width height format usage c4 here in
                          (here :: fs, e)
                    | _ => ([here], ExitUndefined)
                    end
                end
            end
      end
  end.

(** What [dequeueBuffer] hands back: the status, and [*out_slot] and
    [*out_fence] when they were written. *)
Record DequeueReply : Type := BuildReply {
  status : Z;
  out_slot : option Z;
  out_fence : option Fence.t
}.

Definition failed (ret : Z) : DequeueReply := BuildReply ret None None.

(** The part of [dequeueBuffer] after the loop. *)
Definition accept_slot (p : Producer) (c : Core) (slot : nat)
    : Outcome DequeueReply Producer :=
  match buffers_ c !! slot with
  | None => Undefined
  | Some s =>
      let st := BufferHubSlot.mBufferState s in
      if negb (BufferState.isFree st) && negb (BufferState.isQueued st) then Fatal
      else
        let s1 :=
          BufferHubSlot.set_mBufferState
            (BufferState.dequeue (BufferState.freeQueued st)) s in
        let ret := NO_ERROR in
        let '(ret, s2) :=
          if BufferHubSlot.mIsReallocating s1
          then (Z.lor ret BUFFER_NEEDS_REALLOCATION,
                BufferHubSlot.set_mIsReallocating false s1)
          else (ret, s1) in
        Done (BuildReply ret (Some (to_int32 (Z.of_nat slot))) (Some Fence.NO_FENCE))
             (set_core_ (set_buffers_ (<[slot := s2]> (buffers_ c)) c) p)
  end.

(** The lazy allocation at the start of [dequeueBuffer]: the value of [ret]
    that is tested next and the core.  Without an allocation nothing is
    tested, which is the same as testing NO_ERROR. *)
Definition lazy_allocation (p : Producer) (width height format usage : Z)
    : Outcome Z Core :=
  let c := core_ p in
  if to_int32 (Z.of_nat (capacity (producer_ c))) <? max_dequeued_buffer_count_ p
  then AllocateBuffer width height format usage 1 c
  else Done NO_ERROR c.

(** [dequeueBuffer] together with the answers of the broker to its
    [Dequeue] calls. *)
Definition dequeueBuffer_fetches (p : Producer) (width height format usage : Z)
    : Fetches * Outcome DequeueReply Producer :=
  let c := core_ p in
  if connected_api_ c =? kNoConnectedApi then ([], Done (failed NO_INIT) p)
  else
    match lazy_allocation p width height format usage with
    | Fatal => ([], Fatal)
    | Undefined => ([], Undefined)
    | Done ret c1 =>
        if ret <? 0 then ([], Done (failed ret) (set_core_ c1 p))
        else
          let '(fs, e) :=
            retry_loop kMaxQueueCapacity width height format usage c1 None in
          (fs,
           match e with
           | ExitNoMemory c2 => Done (failed NO_MEMORY) (set_core_ c2 p)
           | ExitAllocFailed ret' c2 => Done (failed ret') (set_core_ c2 p)
           | ExitUndefined => Undefined
           | ExitExhausted None _ => Undefined
           | ExitExhausted (Some (slot, _)) c2 => accept_slot p c2 slot
           | ExitBreak slot _ c2 => accept_slot p c2 slot
           end)
    end.

Definition dequeueBuffer (p : Producer) (width height format usage : Z)
    : Outcome DequeueReply Producer :=
  snd (dequeueBuffer_fetches p width height format usage).

(** *** queueBuffer *)

Definition valid_scaling_mode (m : Z) : bool :=
  (m =? NATIVE_WINDOW_SCALING_MODE_FREEZE) ||
  (m =? NATIVE_WINDOW_SCALING_MODE_SCALE_TO_WINDOW) ||
  (m =? NATIVE_WINDOW_SCALING_MODE_SCALE_CROP) ||
  (m =? NATIVE_WINDOW_SCALING_MODE_NO_SCALE_CROP).

(** [output] is what [*output] holds before the call, [None] for a null
    pointer; the result carries what it holds after the call. *)
Definition queueBuffer (p : Producer) (slot : Z) (input : QueueBufferInput.t)
    (output : option QueueBufferOutput.t)
    : Outcome (Z * option QueueBufferOutput.t) Producer :=
  match output with
  | None => Done (BAD_VALUE, output) p
  | Some _ =>
  let crop := QueueBufferInput.crop input in
  if negb (valid_scaling_mode (QueueBufferInput.scalingMode input))
  then Done (BAD_VALUE, output) p
  else
  match QueueBufferInput.fence input with
  | None => Done (BAD_VALUE, output) p
  | Some fence =>
  let c := core_ p in
  if connected_api_ c =? kNoConnectedApi then Done (NO_INIT, output) p
  else if slot_out_of_range p slot then Done (BAD_VALUE, output) p
  else
    match buffers_ c !! Z.to_nat slot with
    | None => Undefined
    | Some s =>
        if negb (BufferState.isDequeued (BufferHubSlot.mBufferState s))
        then Done (BAD_VALUE, output) p
        else if negb (BufferHubSlot.mRequestBufferCalled s) ||
                negb (bool_decide (is_Some (BufferHubSlot.mGraphicBuffer s)))
        then Done (BAD_VALUE, output) p
        else
          match BufferHubSlot.mBufferProducer s with
          | None => Undefined
          | Some buffer_producer =>
              let buffer_rect :=
                Rect.of_size (BufferProducer.width buffer_producer)
                             (BufferProducer.height buffer_producer) in
              let cropped_rect := Rect.intersect crop buffer_rect in
              if Rect.neq cropped_rect crop then Done (BAD_VALUE, output) p
              else
                let fence_fd := if Fence.isValid fence then dup fence else -1 in
                let b :=
                  Post buffer_producer fence_fd (QueueBufferInput.timestamp input)
                       (producer_ c) in
                let s' :=
                  BufferHubSlot.set_mBufferState
                    (BufferState.queue (BufferHubSlot.mBufferState s)) s in
                let out :=
                  QueueBufferOutput.Build
                    (to_uint32 (BufferProducer.width buffer_producer))
                    (to_uint32 (BufferProducer.height buffer_producer))
                    0 0 0 in
                Done (NO_ERROR, Some out)
                     (set_core_
                        (set_buffers_ (<[Z.to_nat slot := s']> (buffers_ c))
                                      (set_producer_ b c)) p)
          end
    end
  end
  end.

(** *** cancelBuffer *)

Definition cancelBuffer (p : Producer) (slot : Z) (fence : option Fence.t)
    : Outcome Z Producer :=
  let c := core_ p in
  if connected_api_ c =? kNoConnectedApi then Done NO_INIT p
  else if slot_out_of_range p slot then Done BAD_VALUE p
  else
    match buffers_ c !! Z.to_nat slot with
    | None => Undefined
    | Some s =>
        if negb (BufferState.isDequeued (BufferHubSlot.mBufferState s))
        then Done BAD_VALUE p
        else
          match fence with
          | None => Done BAD_VALUE p
          | Some _ =>
              let buffer_producer := BufferHubSlot.mBufferProducer s in
              let b := Enqueue buffer_producer (Z.to_nat slot) (producer_ c) in
              let s' :=
                BufferHubSlot.set_mFence fence
                  (BufferHubSlot.set_mBufferState
                     (BufferState.cancel (BufferHubSlot.mBufferState s)) s) in
              Done NO_ERROR
                   (set_core_
                      (set_buffers_ (<[Z.to_nat slot := s']> (buffers_ c))
                                    (set_producer_ b c)) p)
          end
    end.

End Producer.

Arguments Core : clear implicits.
Arguments LoopExit : clear implicits.
Arguments Producer : clear implicits.

(** ** Sequences of calls *)

Inductive Call : Type :=
| CallConnect (api : Z) (output_given : bool)
| CallDisconnect (api : Z)
| CallSetMaxDequeuedBufferCount (max_dequeued_buffers : Z)
| CallRequestBuffer (slot : Z)
| CallDequeueBuffer (width height format usage : Z)
| CallQueueBuffer (slot : Z) (input : QueueBufferInput.t)
                  (output : option QueueBufferOutput.t)
| CallCancelBuffer (slot : Z) (fence : option Fence.t).

Section Calls.
Context {B : Type} `{HB : BufferHub B}.

(** The status a call returns and the state it leaves. *)
Definition perform (p : Producer B) (call : Call) : Outcome Z (Producer B) :=
  match call with
  | CallConnect api o => let '(r, p') := connect p api o in Done r p'
  | CallDisconnect api => let '(r, p') := disconnect p api in Done r p'
  | CallSetMaxDequeuedBufferCount n =>
      let '(r, p') := setMaxDequeuedBufferCount p n in Done r p'
  | CallRequestBuffer slot =>
      match requestBuffer p slot with
      | Done (r, _) p' => Done r p'
      | Fatal => Fatal
      | Undefined => Undefined
      end
  | CallDequeueBuffer w h f u =>
      match dequeueBuffer p w h f u with
      | Done r p' => Done (status r) p'
      | Fatal => Fatal
      | Undefined => Undefined
      end
  | CallQueueBuffer slot input output =>
      match queueBuffer p slot input output with
      | Done (r, _) p' => Done r p'
      | Fatal => Fatal
      | Undefined => Undefined
      end
  | CallCancelBuffer slot fence => cancelBuffer p slot fence
  end.

(** The state after a sequence of calls, when none of them aborted. *)
Fixpoint run (p : Producer B) (calls : list Call) : option (Producer B) :=
  match calls with
  | [] => Some p
  | call :: rest =>
      match perform p call with
      | Done _ p' => run p' rest
      | _ => None
      end
  end.

(** The number of slots in the Dequeued state. *)
Definition dequeued_slots (p : Producer B) : Z :=
  Z.of_nat (dequeued_count (buffers_ (core_ p))).

(** The states a sequence of calls goes through: the state it starts in and
    the state after each call, up to a call that aborts. *)
Fixpoint trajectory (p : Producer B) (calls : list Call) : list (Producer B) :=
  p :: match calls with
       | [] => []
       | call :: rest =>
           match perform p call with
           | Done _ p' => trajectory p' rest
           | _ => []
           end
       end.

(** No more slots are dequeued than [max_dequeued_buffer_count_] allows. *)
Definition within_bound (p : Producer B) : Prop :=
  dequeued_slots p <= max_dequeued_buffer_count_ p.

(** The table has [kMaxQueueCapacity] slots, all of them addressable, and
    the constant fits an [int]: how the constructor leaves the producer. *)
Definition well_formed (p : Producer B) : Prop :=
  length (buffers_ (core_ p)) = kMaxQueueCapacity ∧
  max_buffer_count_ p = Z.of_nat kMaxQueueCapacity ∧
  Z.of_nat kMaxQueueCapacity <= INT32_MAX.

End Calls.

(** ** A first-in first-out broker *)

(** Modelled from the spec: the broker is not among the sources.  This one
    follows the collaborator contract of the spec: [allocate] puts a new
    buffer of the requested geometry into the first vacant slot and makes it
    available, and fails when no slot is vacant or the memory left does not
    hold the buffer; [dequeue] hands out the available buffers in the order
    they became available and yields nothing when there is none; [enqueue]
    "returns a buffer to the free pool, tagged with its last slot"; [detach]
    "releases a slot's buffer"; [capacity] counts the buffers.  Posting a
    buffer hands it to the consumers and changes nothing on this side. *)
Module Fifo.
Record t : Type := Build {
  slots : list (option BufferProducer.t);
  available : list nat;
  next_handle : nat;
  free_memory : Z
}.

Definition empty (cap : nat) (memory : Z) : t :=
  Build (replicate cap None) [] 0 memory.

Fixpoint first_vacant (l : list (option BufferProducer.t)) : option nat :=
  match l with
  | [] => None
  | None :: _ => Some 0%nat
  | Some _ :: l' => S <$> first_vacant l'
  end.

Fixpoint count_buffers (l : list (option BufferProducer.t)) : nat :=
  match l with
  | [] => 0%nat
  | None :: l' => count_buffers l'
  | Some _ :: l' => S (count_buffers l')
  end.

(** The memory a buffer takes, in pixels. *)
Definition footprint (buf : BufferProducer.t) : Z :=
  BufferProducer.width buf * BufferProducer.height buf.

Definition capacity (b : t) : nat := count_buffers (slots b).

Definition Dequeue (timeout : Z) (b : t) : t * option (nat * BufferProducer.t * Z) :=
  match available b with
  | [] => (b, None)
  | slot :: rest =>
      let b' := Build (slots b) rest (next_handle b) (free_memory b) in
      match slots b !! slot with
      | Some (Some buf) => (b', Some (slot, buf, -1))
      | _ => (b', None)
      end
  end.

Definition Allocate (width height format usage slice_count : Z) (b : t)
    : t * option (nat * BufferProducer.t) :=
  let buf :=
    BufferProducer.Build (next_handle b) (to_int32 width) (to_int32 height)
      (to_int32 format) usage (to_int32 width) in
  match first_vacant (slots b) with
  | None => (b, None)
  | Some slot =>
      if free_memory b <? footprint buf then (b, None)
      else
        (Build (<[slot := Some buf]> (slots b)) (available b ++ [slot])
               (S (next_handle b)) (free_memory b - footprint buf),
         Some (slot, buf))
  end.

Definition Detach (slot : nat) (b : t) : t :=
  Build (<[slot := None]> (slots b))
        (filter (λ s, s ≠ slot) (available b)) (next_handle b)
        (match slots b !! slot with
         | Some (Some buf) => free_memory b + footprint buf
         | _ => free_memory b
         end).

Definition Enqueue (buf : option BufferProducer.t) (slot : nat) (b : t) : t :=
  Build (slots b) (available b ++ [slot]) (next_handle b) (free_memory b).

Definition Post (buf : BufferProducer.t) (fence_fd timestamp : Z) (b : t) : t := b.

(** The broker with [cap] slots; no API is connected when [connected_api_]
    is -1, every wrapper passes [initCheck], and a duplicated fence has the
    descriptor of the original. *)
Definition hub (cap : nat) : BufferHub t :=
  Build_BufferHub t cap (-1) capacity Dequeue Allocate Detach Enqueue Post
    (λ _, NO_ERROR) Fence.fd.

(** The producer as its constructor leaves it: no slot populated, nobody
    connected, one buffer may be dequeued at a time. *)
Definition fresh (cap : nat) (memory : Z) : Producer t :=
  BuildProducer
    (BuildCore (replicate cap BufferHubSlot.empty) (-1) (empty cap memory) 0 0 0)
    (Z.of_nat cap) 1.
End Fifo.

(** The broker of 64 slots, the number of slots of a BufferQueue. *)
#[global] Instance hub64 : BufferHub Fifo.t := Fifo.hub 64.

(** ** Scenarios *)

Module Scenario.
Definition RGBA : Z := 1.
Definition fence : Fence.t := Fence.Build 7.

(** An input with the crop (0,0)-(w,h). *)
Definition input (w h : Z) : QueueBufferInput.t :=
  QueueBufferInput.Build 0 false 0 (Rect.Build 0 0 w h)
    NATIVE_WINDOW_SCALING_MODE_FREEZE 0 (Some fence).

Definition connect_cpu : Call := CallConnect NATIVE_WINDOW_API_CPU true.
Definition dequeue (w h : Z) : Call := CallDequeueBuffer w h RGBA 0.
Definition cancel (slot : nat) : Call := CallCancelBuffer (Z.of_nat slot) (Some fence).

(** A producer on a broker with plenty of memory, and one on a broker whose
    memory holds a buffer of 64 by 64 and not one of 128 by 128. *)
Definition start : Producer Fifo.t := Fifo.fresh 64 (2 ^ 30).
Definition tight : Producer Fifo.t := Fifo.fresh 64 (64 * 64 + 100).

(** Slot 0 is dequeued for the first time. *)
Definition first_dequeue : list Call := [connect_cpu; dequeue 64 64].

(** Slot 0 is dequeued and requested. *)
Definition first_request : list Call := first_dequeue ++ [CallRequestBuffer 0].

(** Slot 0 was dequeued, requested and cancelled. *)
Definition cancelled : list Call := first_request ++ [cancel 0].

(** Slot 0 was dequeued and cancelled, holding a buffer of 64 by 64. *)
Definition one_free_buffer : list Call := first_dequeue ++ [cancel 0].

(** The spec's scenario: dequeue, request, queue with the crop of the whole
    buffer, then cancel on a slot that was never dequeued. *)
Definition one_frame : list Call :=
  first_request ++
  [CallQueueBuffer 0 (input 64 64) (Some QueueBufferOutput.zero); cancel 1].

(** All 64 slots were dequeued with 64 by 64 and cancelled: the broker has 64
    free buffers of 64 by 64. *)
Definition all_slots_free : list Call :=
  [connect_cpu; CallSetMaxDequeuedBufferCount 64] ++
  replicate 64 (dequeue 64 64) ++ (cancel <$> seq 0 64).

(** Two buffers exist and are free when the bound is lowered to one; then
    both are dequeued. *)
Definition bound_lowered : list Call :=
  [connect_cpu; CallSetMaxDequeuedBufferCount 2; dequeue 64 64; dequeue 64 64;
   cancel 0; cancel 1; CallSetMaxDequeuedBufferCount 1;
   dequeue 64 64; dequeue 64 64].

(** The state a sequence of calls leaves. *)
Definition after (calls : list Call) (p : Producer Fifo.t) : Producer Fifo.t :=
  default p (run p calls).

(** The reply and the state of a call of [dequeueBuffer] that returned. *)
Definition reply_of (o : Outcome DequeueReply (Producer Fifo.t)) : DequeueReply :=
  match o with Done r _ => r | _ => failed NO_ERROR end.
Definition state_of (p : Producer Fifo.t)
    (o : Outcome DequeueReply (Producer Fifo.t)) : Producer Fifo.t :=
  match o with Done _ p' => p' | _ => p end.

(** The slot [slot] of the table. *)
Definition slot_of (p : Producer Fifo.t) (slot : nat) : BufferHubSlot.t :=
  default BufferHubSlot.empty (buffers_ (core_ p) !! slot).

(** The first buffer the broker allocates for 64 by 64, and the buffer of
    128 by 128 it allocates next. *)
Definition buffer0 : BufferProducer.t := BufferProducer.Build 0 64 64 RGBA 0 64.
Definition buffer1 : BufferProducer.t := BufferProducer.Build 1 128 128 RGBA 0 128.

(** The free buffer of 64 by 64 in slot 0 was replaced by one of 128 by 128
    in a call of [dequeueBuffer], which returned slot 0. *)
Definition reallocated_slot : list Call := one_free_buffer ++ [dequeue 128 128].

(** After that call, with slot 0 still dequeued: the bound is raised to two,
    a second buffer is dequeued, which is allocated into slot 1, and slot 0
    is cancelled. *)
Definition second_buffer : list Call :=
  [CallSetMaxDequeuedBufferCount 2; dequeue 128 128; cancel 0].

(** A producer on a broker whose memory holds two buffers of 64 by 64 and
    one of 128 by 128 at a time, and not two of 128 by 128 with one of 64 by
    64. *)
Definition narrow : Producer Fifo.t := Fifo.fresh 64 (6 * 64 * 64).

(** Slots 0 and 1 were dequeued and cancelled, each holding a buffer of 64 by
    64. *)
Definition two_free_buffers : list Call :=
  [connect_cpu; CallSetMaxDequeuedBufferCount 2; dequeue 64 64; dequeue 64 64;
   cancel 0; cancel 1].

(** A producer on a broker whose memory holds 64 buffers of 128 by 128 and,
    in place of 63 of them, buffers of 256 by 256, and not a 64th of
    these. *)
Definition roomy : Producer Fifo.t := Fifo.fresh 64 4145152.

(** All 64 slots are free with buffers of 64 by 64; one call for 128 by 128
    replaces them all and returns slot 63; the next call, for 256 by 256,
    replaces the buffers of slots 0 to 62 and fails to replace that of slot
    63, which the broker offers again; the bound is then set to 63, the
    number of buffers the broker has, and 63 buffers are dequeued. *)
Definition bound_at_capacity : list Call :=
  all_slots_free ++
  [dequeue 128 128; dequeue 256 256; CallSetMaxDequeuedBufferCount 63] ++
  replicate 63 (dequeue 256 256).
End Scenario.

(** ** States the operations are called in *)

Section States.
Context {B : Type} `{HB : BufferHub B}.

(** Somebody is connected and [slot] addresses the slot [s] of the table. *)
Definition addresses (p : Producer B) (slot : Z) (s : BufferHubSlot.t) : Prop :=
  connected_api_ (core_ p) ≠ kNoConnectedApi ∧
  0 <= slot < max_buffer_count_ p ∧
  buffers_ (core_ p) !! Z.to_nat slot = Some s.

(** [slot] is dequeued, [requestBuffer] was called for it, and it holds the
    wrapper and the buffer [buf]: what [queueBuffer] asks of a slot. *)
Definition requested (p : Producer B) (slot : Z) (s : BufferHubSlot.t)
    (buf : BufferProducer.t) : Prop :=
  addresses p slot s ∧
  BufferHubSlot.mBufferState s = BufferState.Dequeued ∧
  BufferHubSlot.mRequestBufferCalled s = true ∧
  is_Some (BufferHubSlot.mGraphicBuffer s) ∧
  BufferHubSlot.mBufferProducer s = Some buf.

(** The scaling mode is one of the four known ones and there is a fence. *)
Definition well_formed_input (input : QueueBufferInput.t) : Prop :=
  valid_scaling_mode (QueueBufferInput.scalingMode input) = true ∧
  is_Some (QueueBufferInput.fence input).

(** The rectangle lies within a buffer of [w] by [h]. *)
Definition within (crop : Rect.t) (w h : Z) : Prop :=
  0 <= Rect.left crop ∧ 0 <= Rect.top crop ∧
  Rect.right crop <= w ∧ Rect.bottom crop <= h.

End States.

(** ** What the answers of the broker tell about a call *)

(** The answer is a buffer that does not have the requested geometry: the
    loop goes on to reallocate. *)
Definition mismatched (width height format : Z)
    (x : option (nat * BufferProducer.t)) : bool :=
  match x with
  | Some (_, buf) => negb (geometry_matches width height format buf)
  | None => false
  end.

(** The answer made the loop reallocate the buffer of [slot]. *)
Definition reallocates (width height format : Z) (slot : nat)
    (x : option (nat * BufferProducer.t)) : bool :=
  match x with
  | Some (k, buf) =>
      bool_decide (k = slot) && negb (geometry_matches width height format buf)
  | None => false
  end.

(** One of the answers made the loop reallocate the buffer of [slot]. *)
Definition reallocated (width height format : Z) (slot : nat) (fs : Fetches) : bool :=
  existsb (reallocates width height format slot) fs.

(** The core a loop exit carries. *)
Definition exit_core {B : Type} (e : LoopExit B) : option (Core B) :=
  match e with
  | ExitBreak _ _ c | ExitExhausted _ c | ExitNoMemory c | ExitAllocFailed _ c => Some c
  | ExitUndefined => None
  end.

(** The table [l'] has the slots of [l] with their states and fences, and
    with the reallocation marker raised where [m] says so. *)
Definition carried (m : nat → bool) (l l' : list BufferHubSlot.t) : Prop :=
  length l' = length l ∧
  ∀ j s, l !! j = Some s →
    ∃ s', l' !! j = Some s' ∧
          BufferHubSlot.mBufferState s' = BufferHubSlot.mBufferState s ∧
          BufferHubSlot.mFence s' = BufferHubSlot.mFence s ∧
          BufferHubSlot.mIsReallocating s' = BufferHubSlot.mIsReallocating s || m j.

(** A call other than [dequeueBuffer]. *)
Definition not_dequeue (call : Call) : Prop :=
  match call with CallDequeueBuffer _ _ _ _ => False | _ => True end.

(** The reallocation markers of the table. *)
Definition markers {B : Type} (p : Producer B) : list bool :=
  BufferHubSlot.mIsReallocating <$> buffers_ (core_ p).

Section Iterations.
Context {B : Type} `{HB : BufferHub B}.

(** No call of [dequeueBuffer] in the sequence gets from the broker a
    buffer of [slot] that does not match, that is, none reallocates the
    buffer of [slot]. *)
Fixpoint leaves_buffer (slot : nat) (p : Producer B) (calls : list Call) : Prop :=
  match calls with
  | [] => True
  | call :: rest =>
      match call with
      | CallDequeueBuffer w h f u =>
          reallocated w h f slot (fst (dequeueBuffer_fetches p w h f u)) = false
      | _ => True
      end ∧
      match perform p call with
      | Done _ p' => leaves_buffer slot p' rest
      | _ => True
      end
  end.

(** The core with which the retry loop enters its iteration number [k]
    (counted from 0) when it is started with the core [c]: each of the [k]
    iterations before got a buffer that did not match and replaced it, the
    allocation having succeeded.  [None] when the loop is left earlier. *)
Fixpoint reallocations (k : nat) (width height format usage : Z) (c : Core B)
    : option (Core B) :=
  match k with
  | O => Some c
  | S k' =>
      let '(b, r) := Dequeue (dequeue_timeout_ms_ c) (producer_ c) in
      let c1 := set_producer_ b c in
      match r with
      | None => None
      | Some (slot, buffer_producer, _) =>
          if geometry_matches width height format buffer_producer then None
          else
            match update_slot slot (BufferHubSlot.set_mIsReallocating true) c1 with
            | None => None
            | Some c2 =>
                match DetachBuffer slot c2 with
                | None => None
                | Some c3 =>
                    match AllocateBuffer width height format usage 1 c3 with
                    | Done ret c4 =>
                        if ret <? 0 then None
                        else reallocations k' width height format usage c4
                    | _ => None
                    end
                end
            end
      end
  end.

(** The slot as the loop leaves it when the allocation of the replacement
    fails: marked, and without buffer and wrapper. *)
Definition abandoned (s : BufferHubSlot.t) : BufferHubSlot.t :=
  BufferHubSlot.set_mRequestBufferCalled false
    (BufferHubSlot.set_mGraphicBuffer None
       (BufferHubSlot.set_mBufferProducer None
          (BufferHubSlot.set_mIsReallocating true s))).

End Iterations.

(** ** The other entry points of the producer *)

(** The keys of [query] (system/window.h). *)
Definition NATIVE_WINDOW_WIDTH : Z := 0.
Definition NATIVE_WINDOW_HEIGHT : Z := 1.
Definition NATIVE_WINDOW_FORMAT : Z := 2.
Definition NATIVE_WINDOW_MIN_UNDEQUEUED_BUFFERS : Z := 3.
Definition NATIVE_WINDOW_CONSUMER_RUNNING_BEHIND : Z := 9.
Definition NATIVE_WINDOW_CONSUMER_USAGE_BITS : Z := 10.
Definition NATIVE_WINDOW_STICKY_TRANSFORM : Z := 11.
Definition NATIVE_WINDOW_DEFAULT_DATASPACE : Z := 12.
Definition NATIVE_WINDOW_BUFFER_AGE : Z := 13.

(** What [query] reads from the broker: [default_width()],
    [default_height()] and [default_format()], as the [int] that is stored
    in [value]. *)
Class BufferHubDefaults (B : Type) : Type := {
  default_width : B → Z;
  default_height : B → Z;
  default_format : B → Z
}.

Section Administration.
Context {B : Type} `{HB : BufferHub B} `{HD : BufferHubDefaults B}.

Definition set_dequeue_timeout_ms_ (t : Z) (c : Core B) : Core B :=
  BuildCore (buffers_ c) (connected_api_ c) (producer_ c) t
            (generation_number_ c) (unique_id_ c).
Definition set_generation_number_ (n : Z) (c : Core B) : Core B :=
  BuildCore (buffers_ c) (connected_api_ c) (producer_ c) (dequeue_timeout_ms_ c)
            n (unique_id_ c).

Definition setAsyncMode (p : Producer B) (async : bool) : Z * Producer B :=
  if async then (NO_ERROR, p) else (NO_ERROR, p).

Definition detachBuffer (p : Producer B) (slot : Z) : Z * Producer B :=
  (INVALID_OPERATION, p).

Definition detachNextBuffer (p : Producer B) : Z * Producer B :=
  (INVALID_OPERATION, p).

(** [LOG_ALWAYS_FATAL] comes before the [return]. *)
Definition attachBuffer (p : Producer B) (buffer : option GraphicBuffer.t)
    : Outcome Z (Producer B) :=
  Fatal.

(** The status and what is stored in [*out_value]; [out_given] tells
    whether [out_value] is a non-null pointer. *)
Definition query (p : Producer B) (what : Z) (out_given : bool)
    : Z * option Z * Producer B :=
  if negb out_given then (BAD_VALUE, None, p)
  else
    let b := producer_ (core_ p) in
    if what =? NATIVE_WINDOW_MIN_UNDEQUEUED_BUFFERS then (NO_ERROR, Some 0, p)
    else if what =? NATIVE_WINDOW_BUFFER_AGE then (NO_ERROR, Some 0, p)
    else if what =? NATIVE_WINDOW_WIDTH then (NO_ERROR, Some (default_width b), p)
    else if what =? NATIVE_WINDOW_HEIGHT then (NO_ERROR, Some (default_height b), p)
    else if what =? NATIVE_WINDOW_FORMAT then (NO_ERROR, Some (default_format b), p)
    else if what =? NATIVE_WINDOW_CONSUMER_RUNNING_BEHIND then (NO_ERROR, Some 0, p)
    else if what =? NATIVE_WINDOW_CONSUMER_USAGE_BITS then (NO_ERROR, Some 0, p)
    else if what =? NATIVE_WINDOW_STICKY_TRANSFORM then (BAD_VALUE, None, p)
    else if what =? NATIVE_WINDOW_DEFAULT_DATASPACE then (BAD_VALUE, None, p)
    else (BAD_VALUE, None, p).

(** [stream_given] tells whether [stream] is a non-null handle. *)
Definition setSidebandStream (p : Producer B) (stream_given : bool) : Z * Producer B :=
  if stream_given then (INVALID_OPERATION, p) else (NO_ERROR, p).

Definition allocateBuffers (p : Producer B) (width height format usage : Z)
    : Producer B := p.

Definition allowAllocation (p : Producer B) (allow : bool) : Z * Producer B :=
  (INVALID_OPERATION, p).

Definition setGenerationNumber (p : Producer B) (generation_number : Z)
    : Z * Producer B :=
  (NO_ERROR, set_core_ (set_generation_number_ generation_number (core_ p)) p).

Definition setSharedBufferMode (p : Producer B) (shared_buffer_mode : bool)
    : Z * Producer B :=
  (INVALID_OPERATION, p).

Definition setAutoRefresh (p : Producer B) (auto_refresh : bool) : Z * Producer B :=
  (INVALID_OPERATION, p).

(** [timeout] is an [nsecs_t], a signed 64 bit number of nanoseconds; the
    division of C++ truncates towards zero. *)
Definition setDequeueTimeout (p : Producer B) (timeout : Z) : Z * Producer B :=
  (NO_ERROR,
   set_core_
     (set_dequeue_timeout_ms_ (to_int32 (Z.quot timeout (1000 * 1000))) (core_ p)) p).

Definition getLastQueuedBuffer (p : Producer B) : Z * Producer B :=
  (INVALID_OPERATION, p).

Definition getFrameTimestamps (p : Producer B) : Producer B := p.

(** The status and what is stored in [*out_id]. *)
Definition getUniqueId (p : Producer B) : Z * Z := (NO_ERROR, unique_id_ (core_ p)).

(** The entry points besides those of [Call]. *)
Inductive Admin : Type :=
| AdminSetAsyncMode (async : bool)
| AdminDetachBuffer (slot : Z)
| AdminDetachNextBuffer
| AdminAttachBuffer (buffer : option GraphicBuffer.t)
| AdminQuery (what : Z) (out_given : bool)
| AdminSetSidebandStream (stream_given : bool)
| AdminAllocateBuffers (width height format usage : Z)
| AdminAllowAllocation (allow : bool)
| AdminSetGenerationNumber (generation_number : Z)
| AdminSetSharedBufferMode (shared_buffer_mode : bool)
| AdminSetAutoRefresh (auto_refresh : bool)
| AdminSetDequeueTimeout (timeout : Z)
| AdminGetLastQueuedBuffer
| AdminGetFrameTimestamps
| AdminGetUniqueId.

(** The status such a call returns ([NO_ERROR] stands for a [void] return)
    and the state it leaves. *)
Definition administer (p : Producer B) (a : Admin) : Outcome Z (Producer B) :=
  match a with
  | AdminSetAsyncMode async => let '(r, p') := setAsyncMode p async in Done r p'
  | AdminDetachBuffer slot => let '(r, p') := detachBuffer p slot in Done r p'
  | AdminDetachNextBuffer => let '(r, p') := detachNextBuffer p in Done r p'
  | AdminAttachBuffer buffer => attachBuffer p buffer
  | AdminQuery what o => let '(r, _, p') := query p what o in Done r p'
  | AdminSetSidebandStream g => let '(r, p') := setSidebandStream p g in Done r p'
  | AdminAllocateBuffers w h f u => Done NO_ERROR (allocateBuffers p w h f u)
  | AdminAllowAllocation allow => let '(r, p') := allowAllocation p allow in Done r p'
  | AdminSetGenerationNumber n => let '(r, p') := setGenerationNumber p n in Done r p'
  | AdminSetSharedBufferMode m => let '(r, p') := setSharedBufferMode p m in Done r p'
  | AdminSetAutoRefresh m => let '(r, p') := setAutoRefresh p m in Done r p'
  | AdminSetDequeueTimeout t => let '(r, p') := setDequeueTimeout p t in Done r p'
  | AdminGetLastQueuedBuffer => let '(r, p') := getLastQueuedBuffer p in Done r p'
  | AdminGetFrameTimestamps => Done NO_ERROR (getFrameTimestamps p)
  | AdminGetUniqueId => Done (fst (getUniqueId p)) p
  end.

(** Any entry point of the producer. *)
Inductive Entry : Type :=
| EntryCall (call : Call)
| EntryAdmin (a : Admin).

Definition enter (p : Producer B) (e : Entry) : Outcome Z (Producer B) :=
  match e with
  | EntryCall call => perform p call
  | EntryAdmin a => administer p a
  end.

(** The state after a sequence of entries, when none of them aborted. *)
Fixpoint run_entries (p : Producer B) (es : list Entry) : option (Producer B) :=
  match es with
  | [] => Some p
  | e :: rest =>
      match enter p e with
      | Done _ p' => run_entries p' rest
      | _ => None
      end
  end.

(** The states of the slots of the table. *)
Definition slot_states (p : Producer B) : list BufferState.t :=
  BufferHubSlot.mBufferState <$> buffers_ (core_ p).

End Administration.

(** A step of the state of one slot: none, or Free or Queued to Dequeued,
    or Dequeued to Queued or Free. *)
Definition legal_step (s s' : BufferState.t) : Prop :=
  s' = s ∨
  (s ≠ BufferState.Dequeued ∧ s' = BufferState.Dequeued) ∨
  (s = BufferState.Dequeued ∧ (s' = BufferState.Queued ∨ s' = BufferState.Free)).

(** The first-in first-out broker reports a default geometry of 64 by 64 in
    format 1. *)
#[global] Instance fifo_defaults : BufferHubDefaults Fifo.t :=
  Build_BufferHubDefaults Fifo.t (λ _, 64) (λ _, 64) (λ _, 1).

(** ** What the producer relies on in the broker *)

(** The number of slots that hold a buffer. *)
Fixpoint occupied (l : list (option BufferProducer.t)) : nat :=
  match l with
  | [] => 0%nat
  | None :: l' => occupied l'
  | Some _ :: l' => S (occupied l')
  end.

(** The number of slots that hold a buffer of another geometry than
    [width], [height] and [format]. *)
Fixpoint mismatching (width height format : Z) (l : list (option BufferProducer.t))
    : nat :=
  match l with
  | [] => 0%nat
  | None :: l' => mismatching width height format l'
  | Some buf :: l' =>
      if geometry_matches width height format buf
      then mismatching width height format l'
      else S (mismatching width height format l')
  end.

(** Modelled from the spec: the broker is not among the sources.  What can
    be told of a broker: [held] is the buffer of each slot ("the handle to
    the broker-managed buffer; present once allocation has occurred for this
    slot"), [available] tells the slots whose buffer is in "the free pool"
    and would be handed out by [Dequeue], and [sound] is what the broker
    keeps true of itself. *)
Class BufferHubView (B : Type) : Type := {
  held : B → list (option BufferProducer.t);
  available : B → nat → bool;
  sound : B → Prop
}.

Section Contract.
Context {B : Type} `{HB : BufferHub B} `{HV : BufferHubView B}.

(** Modelled from the spec: the collaborator contract of the broker.
    [capacity] counts the buffers.  [Dequeue] hands out a buffer that a
    slot holds and that is available, which it then no longer is, and
    changes no slot.  [Allocate] puts a buffer of the requested geometry
    into a vacant slot, or fails and changes no slot.  [Detach] "releases a
    slot's buffer".  [Enqueue] "returns a buffer to the free pool, tagged
    with its last slot".  [Post] hands the buffer to the consumers.  None of
    them makes the buffer of another slot available. *)
Record lawful : Prop := Lawful {
  law_capacity : ∀ b, capacity b = occupied (held b);
  law_Dequeue : ∀ t b b' r,
    sound b → Dequeue t b = (b', r) →
    sound b' ∧ held b' = held b ∧
    (∀ j, available b' j = true → available b j = true) ∧
    ∀ slot buf fd, r = Some (slot, buf, fd) →
      held b !! slot = Some (Some buf) ∧
      available b slot = true ∧ available b' slot = false;
  law_Allocate : ∀ w h f u n b b' r,
    sound b → Allocate w h f u n b = (b', r) →
    sound b' ∧
    match r with
    | None =>
        held b' = held b ∧ ∀ j, available b' j = true → available b j = true
    | Some (slot, buf) =>
        held b !! slot = Some None ∧
        held b' = <[slot := Some buf]> (held b) ∧
        geometry_matches w h f buf = true ∧
        ∀ j, j ≠ slot → available b' j = true → available b j = true
    end;
  law_Detach : ∀ slot b,
    sound b →
    sound (Detach slot b) ∧
    held (Detach slot b) = <[slot := None]> (held b) ∧
    ∀ j, available (Detach slot b) j = true → available b j = true;
  law_Enqueue : ∀ o slot b buf,
    sound b → held b !! slot = Some (Some buf) → available b slot = false →
    sound (Enqueue o slot b) ∧
    held (Enqueue o slot b) = held b ∧
    ∀ j, j ≠ slot → available (Enqueue o slot b) j = true → available b j = true;
  law_Post : ∀ buf fd ts b,
    sound b →
    sound (Post buf fd ts b) ∧
    held (Post buf fd ts b) = held b ∧
    ∀ j, available (Post buf fd ts b) j = true → available b j = true
}.

(** The table and the broker agree: the table has [kMaxQueueCapacity]
    slots and [mBufferProducer] of each slot is the buffer the broker holds
    for it. *)
Definition coherent (c : Core B) : Prop :=
  sound (producer_ c) ∧
  length (buffers_ c) = kMaxQueueCapacity ∧
  BufferHubSlot.mBufferProducer <$> buffers_ c = held (producer_ c).

(** A dequeued slot holds a buffer, and the broker does not offer it. *)
Definition owned (c : Core B) : Prop :=
  ∀ j s, buffers_ c !! j = Some s →
    BufferHubSlot.mBufferState s = BufferState.Dequeued →
    (∃ buf, held (producer_ c) !! j = Some (Some buf)) ∧
    available (producer_ c) j = false.

(** The table and the broker agree, the producer owns what it dequeued, the
    broker has no more buffers than [max_dequeued_buffer_count_], and this
    bound is below [kMaxQueueCapacity], which fits an [int]. *)
Definition settled (p : Producer B) : Prop :=
  coherent (core_ p) ∧ owned (core_ p) ∧
  Z.of_nat (capacity (producer_ (core_ p))) <= max_dequeued_buffer_count_ p ∧
  max_dequeued_buffer_count_ p < Z.of_nat kMaxQueueCapacity ∧
  Z.of_nat kMaxQueueCapacity <= INT32_MAX.

(** Every call of [setMaxDequeuedBufferCount] in the sequence that succeeds
    sets a bound that is not below the number of buffers the broker has at
    that moment, and is below [kMaxQueueCapacity]. *)
Fixpoint bound_covers_broker (p : Producer B) (calls : list Call) : Prop :=
  match calls with
  | [] => True
  | call :: rest =>
      match perform p call with
      | Done r p' =>
          match call with
          | CallSetMaxDequeuedBufferCount n =>
              r = NO_ERROR →
              Z.of_nat (capacity (producer_ (core_ p))) <= n < Z.of_nat kMaxQueueCapacity
          | _ => True
          end ∧ bound_covers_broker p' rest
      | _ => True
      end
  end.

End Contract.

(** Modelled from the spec: what can be told of the first-in first-out
    broker.  It is sound when no slot is twice among the available ones and
    each of them holds a buffer. *)
Fixpoint nodupb (l : list nat) : bool :=
  match l with
  | [] => true
  | x :: l' => negb (existsb (Nat.eqb x) l') && nodupb l'
  end.

Definition holds_buffer (b : Fifo.t) (slot : nat) : bool :=
  match Fifo.slots b !! slot with
  | Some (Some _) => true
  | _ => false
  end.

#[global] Instance fifo_view : BufferHubView Fifo.t := {|
  held := Fifo.slots;
  available := λ b slot, existsb (Nat.eqb slot) (Fifo.available b);
  sound := λ b,
    nodupb (Fifo.available b) && forallb (holds_buffer b) (Fifo.available b) = true
|}.

(** * Properties *)

(** ** Integers and the slot table *)

Lemma to_int32_small (z : Z) : - 2 ^ 31 <= z <= INT32_MAX → to_int32 z = z.
Proof.
  unfold to_int32, INT32_MAX. intros Hz.
  rewrite Z.mod_small by lia. lia.
Qed.

Lemma to_uint32_small (z : Z) : 0 <= z < 2 ^ 32 → to_uint32 z = z.
Proof. unfold to_uint32. intros Hz. by rewrite Z.mod_small. Qed.

Lemma dequeued_count_le_length (l : list BufferHubSlot.t) :
  (dequeued_count l ≤ length l)%nat.
Proof.
  induction l as [|s l IH]; simpl; [lia|].
  destruct (BufferState.isDequeued _); lia.
Qed.

(** Storing a slot of the same "dequeued" flag keeps the count. *)
Lemma dequeued_count_insert_same (l : list BufferHubSlot.t) i s s' :
  l !! i = Some s →
  BufferState.isDequeued (BufferHubSlot.mBufferState s') =
  BufferState.isDequeued (BufferHubSlot.mBufferState s) →
  dequeued_count (<[i := s']> l) = dequeued_count l.
Proof.
  revert i. induction l as [|a l IH]; intros [|i] Hl Hs; simplify_eq/=.
  - by rewrite Hs.
  - by rewrite (IH i Hl Hs).
Qed.

(** A slot that becomes dequeued adds one. *)
Lemma dequeued_count_insert_gain (l : list BufferHubSlot.t) i s s' :
  l !! i = Some s →
  BufferState.isDequeued (BufferHubSlot.mBufferState s) = false →
  BufferState.isDequeued (BufferHubSlot.mBufferState s') = true →
  dequeued_count (<[i := s']> l) = S (dequeued_count l).
Proof.
  revert i. induction l as [|a l IH]; intros [|i] Hl Hs Hs'; simplify_eq/=.
  - by rewrite Hs, Hs'.
  - rewrite (IH i Hl Hs Hs').
    by destruct (BufferState.isDequeued (BufferHubSlot.mBufferState a)).
Qed.

(** A slot that stops being dequeued takes one away. *)
Lemma dequeued_count_insert_loss (l : list BufferHubSlot.t) i s s' :
  l !! i = Some s →
  BufferState.isDequeued (BufferHubSlot.mBufferState s) = true →
  BufferState.isDequeued (BufferHubSlot.mBufferState s') = false →
  S (dequeued_count (<[i := s']> l)) = dequeued_count l.
Proof.
  revert i. induction l as [|a l IH]; intros [|i] Hl Hs Hs'; simplify_eq/=.
  - by rewrite Hs, Hs'.
  - rewrite <- (IH i Hl Hs Hs').
    by destruct (BufferState.isDequeued (BufferHubSlot.mBufferState a)).
Qed.

Section Properties.
Context {B : Type} `{HB : BufferHub B}.
Implicit Types (p : Producer B) (c : Core B).

(** ** setMaxDequeuedBufferCount *)

(** C8: when the capacity constant fits an [int],
    [setMaxDequeuedBufferCount n] returns BAD_VALUE exactly when [n <= 0],
    or [n] exceeds [kMaxQueueCapacity], or [n] is less than the number of
    dequeued slots; a failing call leaves the producer as it was, and every
    other call returns NO_ERROR and stores [n] as the new bound, changing
    nothing else. *)
Theorem setMaxDequeuedBufferCount_spec p (n : Z) :
  Z.of_nat kMaxQueueCapacity <= INT32_MAX →
  let rejected := n <= 0 ∨ Z.of_nat kMaxQueueCapacity < n ∨ n < dequeued_slots p in
  (fst (setMaxDequeuedBufferCount p n) = BAD_VALUE ↔ rejected) ∧
  (rejected → setMaxDequeuedBufferCount p n = (BAD_VALUE, p)) ∧
  (¬ rejected →
   setMaxDequeuedBufferCount p n = (NO_ERROR, set_max_dequeued_buffer_count_ n p) ∧
   max_dequeued_buffer_count_ (snd (setMaxDequeuedBufferCount p n)) = n).
Proof.
  intros Hk rejected. subst rejected.
  unfold setMaxDequeuedBufferCount, dequeued_slots.
  rewrite to_int32_small by (unfold INT32_MAX in *; lia).
  destruct (n <=? 0) eqn:E1; simpl.
  { apply Z.leb_le in E1. repeat split; auto; lia. }
  apply Z.leb_gt in E1.
  destruct (Z.of_nat kMaxQueueCapacity <? n) eqn:E2; simpl.
  { apply Z.ltb_lt in E2. repeat split; auto; lia. }
  apply Z.ltb_ge in E2.
  destruct (n <? Z.of_nat (dequeued_count (buffers_ (core_ p)))) eqn:E3; simpl.
  { apply Z.ltb_lt in E3. repeat split; auto; lia. }
  apply Z.ltb_ge in E3.
  repeat split; auto; try lia.
  unfold NO_ERROR, BAD_VALUE. lia.
Qed.

(** ** queueBuffer *)

(** C9: a call of [queueBuffer] with a null output record, an unknown
    scaling mode or a null fence returns BAD_VALUE and leaves the producer
    and the output untouched, whatever the connection state is; so it does
    on a queue nobody is connected to, where a well-formed call would have
    returned NO_INIT. *)
Theorem queueBuffer_validates_input_first p (slot : Z)
    (input : QueueBufferInput.t) (output : option QueueBufferOutput.t) :
  output = None ∨
  valid_scaling_mode (QueueBufferInput.scalingMode input) = false ∨
  QueueBufferInput.fence input = None →
  queueBuffer p slot input output = Done (BAD_VALUE, output) p ∧
  (connected_api_ (core_ p) = kNoConnectedApi →
   queueBuffer p slot input output ≠ Done (NO_INIT, output) p).
Proof.
  intros Hbad.
  assert (Hq : queueBuffer p slot input output = Done (BAD_VALUE, output) p).
  { unfold queueBuffer. destruct output as [o|]; [|done].
    destruct (valid_scaling_mode _) eqn:Hm; simpl; [|done].
    destruct (QueueBufferInput.fence input) eqn:Hf; [|done].
    destruct Hbad as [?|[?|?]]; congruence. }
  split; [done|]. intros _. rewrite Hq. unfold BAD_VALUE, NO_INIT. congruence.
Qed.

(** A call that passes the three checks on its input and finds nobody
    connected returns NO_INIT. *)
Lemma queueBuffer_not_connected p slot input o fence :
  valid_scaling_mode (QueueBufferInput.scalingMode input) = true →
  QueueBufferInput.fence input = Some fence →
  connected_api_ (core_ p) = kNoConnectedApi →
  queueBuffer p slot input (Some o) = Done (NO_INIT, Some o) p.
Proof.
  intros Hm Hf Hc. unfold queueBuffer. rewrite Hm, Hf, Hc. simpl.
  by rewrite Z.eqb_refl.
Qed.


Lemma slot_in_range p slot s :
  addresses p slot s → slot_out_of_range p slot = false.
Proof.
  intros (_ & Hr & _). unfold slot_out_of_range.
  apply orb_false_iff. split; [apply Z.ltb_ge|apply Z.leb_gt]; lia.
Qed.

Lemma connected_test p slot s :
  addresses p slot s → (connected_api_ (core_ p) =? kNoConnectedApi) = false.
Proof. intros (Hc & _). by apply Z.eqb_neq. Qed.

(** The crop passes the test of [queueBuffer] exactly when it lies within
    the buffer. *)
Lemma crop_test_within (crop : Rect.t) (w h : Z) :
  Rect.neq (Rect.intersect crop (Rect.of_size w h)) crop = false ↔ within crop w h.
Proof.
  unfold Rect.neq, Rect.intersect, Rect.of_size, within. simpl.
  rewrite negb_false_iff, !andb_true_iff, !Z.eqb_eq. lia.
Qed.

(** What [queueBuffer] does on a requested slot with a well-formed input. *)
Lemma queueBuffer_requested p slot s buf input o fence :
  requested p slot s buf →
  valid_scaling_mode (QueueBufferInput.scalingMode input) = true →
  QueueBufferInput.fence input = Some fence →
  queueBuffer p slot input (Some o) =
  if Rect.neq (Rect.intersect (QueueBufferInput.crop input)
                 (Rect.of_size (BufferProducer.width buf) (BufferProducer.height buf)))
              (QueueBufferInput.crop input)
  then Done (BAD_VALUE, Some o) p
  else
    Done (NO_ERROR,
          Some (QueueBufferOutput.Build (to_uint32 (BufferProducer.width buf))
                  (to_uint32 (BufferProducer.height buf)) 0 0 0))
         (set_core_
            (set_buffers_
               (<[Z.to_nat slot :=
                    BufferHubSlot.set_mBufferState BufferState.Queued s]>
                  (buffers_ (core_ p)))
               (set_producer_
                  (Post buf (if Fence.isValid fence then dup fence else -1)
                        (QueueBufferInput.timestamp input) (producer_ (core_ p)))
                  (core_ p))) p).
Proof.
  intros (Ha & Hst & Hreq & [g Hg] & Hbuf) Hm Hf.
  unfold queueBuffer. rewrite Hm, Hf. simpl.
  rewrite (connected_test _ _ _ Ha), (slot_in_range _ _ _ Ha).
  destruct Ha as (_ & _ & ->). rewrite Hst, Hreq, Hg, Hbuf. done.
Qed.

(** C5: on a dequeued and requested slot holding a buffer of [w] by [h], and
    with an input that is well formed otherwise, [queueBuffer] returns
    BAD_VALUE and changes nothing (the crop is rejected, not clamped) when
    the crop does not lie within the buffer, which is exactly when its
    intersection with the buffer rectangle differs from it; it returns
    NO_ERROR when the crop lies within.  The crop (0,0)-(w,h) lies within,
    the crop (0,0)-(w+1,h) does not. *)
Theorem queueBuffer_crop p slot s buf input o :
  requested p slot s buf →
  well_formed_input input →
  let w := BufferProducer.width buf in
  let h := BufferProducer.height buf in
  let crop := QueueBufferInput.crop input in
  (Rect.neq (Rect.intersect crop (Rect.of_size w h)) crop = true ↔ ¬ within crop w h) ∧
  (¬ within crop w h → queueBuffer p slot input (Some o) = Done (BAD_VALUE, Some o) p) ∧
  (within crop w h →
   ∃ out p', queueBuffer p slot input (Some o) = Done (NO_ERROR, Some out) p') ∧
  within (Rect.of_size w h) w h ∧
  ¬ within (Rect.Build 0 0 (w + 1) h) w h.
Proof.
  intros Hreq (Hm & [fence Hf]) w h crop.
  pose proof (crop_test_within crop w h) as Hiff.
  pose proof (queueBuffer_requested p slot s buf input o fence Hreq Hm Hf) as Hq.
  fold w h crop in Hq.
  assert (Hneq : Rect.neq (Rect.intersect crop (Rect.of_size w h)) crop = true
                 ↔ ¬ within crop w h).
  { rewrite <- Hiff. by destruct (Rect.neq _ _). }
  split; [exact Hneq|]. split; [|split; [|split]].
  - intros Hout. apply Hneq in Hout. by rewrite Hout in Hq.
  - intros Hin. apply Hiff in Hin. rewrite Hin in Hq. eauto.
  - unfold within. simpl. lia.
  - unfold within. simpl. lia.
Qed.

(** C6: a call of [queueBuffer] that returns NO_ERROR found the slot
    dequeued and holding a buffer, leaves it queued, and returns an output
    record whose [numPendingBuffers] and [nextFrameNumber] are 0 and whose
    width and height are those of the buffer, converted to [uint32_t]: the
    very numbers when they are not negative. *)
Theorem queueBuffer_output p slot input output r out p' :
  queueBuffer p slot input output = Done (r, out) p' →
  r = NO_ERROR →
  ∃ s buf o s',
    out = Some o ∧
    QueueBufferOutput.numPendingBuffers o = 0 ∧
    QueueBufferOutput.nextFrameNumber o = 0 ∧
    buffers_ (core_ p) !! Z.to_nat slot = Some s ∧
    BufferHubSlot.mBufferProducer s = Some buf ∧
    QueueBufferOutput.width o = to_uint32 (BufferProducer.width buf) ∧
    QueueBufferOutput.height o = to_uint32 (BufferProducer.height buf) ∧
    (0 <= BufferProducer.width buf < 2 ^ 32 →
     QueueBufferOutput.width o = BufferProducer.width buf) ∧
    (0 <= BufferProducer.height buf < 2 ^ 32 →
     QueueBufferOutput.height o = BufferProducer.height buf) ∧
    BufferHubSlot.mBufferState s = BufferState.Dequeued ∧
    buffers_ (core_ p') !! Z.to_nat slot = Some s' ∧
    BufferHubSlot.mBufferState s' = BufferState.Queued.
Proof.
  unfold queueBuffer. intros Hq ->.
  destruct output as [o0|]; [|by inversion Hq].
  destruct (valid_scaling_mode _); simpl in Hq; [|by inversion Hq].
  destruct (QueueBufferInput.fence input) as [fence|]; [|by inversion Hq].
  destruct (connected_api_ (core_ p) =? kNoConnectedApi); [by inversion Hq|].
  destruct (slot_out_of_range p slot); [by inversion Hq|].
  destruct (buffers_ (core_ p) !! Z.to_nat slot) as [s|] eqn:Hs; [|done].
  destruct (BufferHubSlot.mBufferState s) eqn:Hst; simpl in Hq;
    try by inversion Hq.
  destruct (negb (BufferHubSlot.mRequestBufferCalled s) || _); [by inversion Hq|].
  destruct (BufferHubSlot.mBufferProducer s) as [buf|] eqn:Hbuf; [|done].
  destruct (Rect.neq _ _); [by inversion Hq|].
  inversion Hq; subst; clear Hq. simpl.
  eexists s, buf, _, _. repeat split; try done.
  - intros ?. by apply to_uint32_small.
  - intros ?. by apply to_uint32_small.
  - apply list_lookup_insert_eq. by eapply lookup_lt_Some.
  - done.
Qed.


(** ** cancelBuffer and requestBuffer *)

(** C3, as the code has it: for a dequeued slot [s] of a connected queue,
    [cancelBuffer] with a fence returns NO_ERROR, returns the buffer of the
    slot to the broker, stores the fence, and leaves the slot Free with
    [mRequestBufferCalled], [mGraphicBuffer], [mBufferProducer] and
    [mIsReallocating] as they were: the wrapper stays cached.  The other
    slots are untouched and one slot fewer is dequeued. *)
Theorem cancelBuffer_frees_slot p slot s (fence : Fence.t) :
  addresses p slot s →
  BufferHubSlot.mBufferState s = BufferState.Dequeued →
  ∃ p' s',
    cancelBuffer p slot (Some fence) = Done NO_ERROR p' ∧
    buffers_ (core_ p') !! Z.to_nat slot = Some s' ∧
    BufferHubSlot.mBufferState s' = BufferState.Free ∧
    BufferHubSlot.mFence s' = Some fence ∧
    BufferHubSlot.mRequestBufferCalled s' = BufferHubSlot.mRequestBufferCalled s ∧
    BufferHubSlot.mGraphicBuffer s' = BufferHubSlot.mGraphicBuffer s ∧
    BufferHubSlot.mBufferProducer s' = BufferHubSlot.mBufferProducer s ∧
    BufferHubSlot.mIsReallocating s' = BufferHubSlot.mIsReallocating s ∧
    producer_ (core_ p') =
      Enqueue (BufferHubSlot.mBufferProducer s) (Z.to_nat slot) (producer_ (core_ p)) ∧
    (∀ i, i ≠ Z.to_nat slot →
          buffers_ (core_ p') !! i = buffers_ (core_ p) !! i) ∧
    dequeued_slots p' = dequeued_slots p - 1.
Proof.
  intros Ha Hst. unfold cancelBuffer.
  rewrite (connected_test _ _ _ Ha), (slot_in_range _ _ _ Ha).
  destruct Ha as (_ & _ & Hs). rewrite Hs, Hst. simpl.
  eexists _, _. split; [reflexivity|]. simpl.
  split; [apply list_lookup_insert_eq; by eapply lookup_lt_Some|].
  repeat (split; [done|]). split.
  - intros i Hi. by apply list_lookup_insert_ne.
  - unfold dequeued_slots. simpl.
    rewrite <- (dequeued_count_insert_loss (buffers_ (core_ p)) (Z.to_nat slot) s
                  (BufferHubSlot.set_mFence (Some fence)
                     (BufferHubSlot.set_mBufferState BufferState.Free s)));
      [lia|done|by rewrite Hst|done].
Qed.

(** [requestBuffer] refuses a slot that still holds a wrapper. *)
Lemma requestBuffer_cached p slot s g :
  addresses p slot s →
  BufferHubSlot.mGraphicBuffer s = Some g →
  requestBuffer p slot = Done (BAD_VALUE, None) p.
Proof.
  intros Ha Hg. unfold requestBuffer.
  rewrite (connected_test _ _ _ Ha), (slot_in_range _ _ _ Ha).
  destruct Ha as (_ & _ & ->). rewrite Hg.
  by destruct (negb _).
Qed.

(** [requestBuffer] on a dequeued slot that holds a buffer and no wrapper. *)
Lemma requestBuffer_fresh p slot s buf :
  addresses p slot s →
  BufferHubSlot.mBufferState s = BufferState.Dequeued →
  BufferHubSlot.mGraphicBuffer s = None →
  BufferHubSlot.mBufferProducer s = Some buf →
  initCheck (new_GraphicBuffer buf) = NO_ERROR →
  requestBuffer p slot =
  Done (NO_ERROR, Some (new_GraphicBuffer buf))
       (set_core_
          (set_buffers_
             (<[Z.to_nat slot :=
                  BufferHubSlot.set_mRequestBufferCalled true
                    (BufferHubSlot.set_mGraphicBuffer (Some (new_GraphicBuffer buf)) s)]>
                (buffers_ (core_ p)))
             (core_ p)) p).
Proof.
  intros Ha Hst Hg Hbuf Hinit. unfold requestBuffer.
  rewrite (connected_test _ _ _ Ha), (slot_in_range _ _ _ Ha).
  destruct Ha as (_ & _ & ->). rewrite Hst, Hg, Hbuf, Hinit. done.
Qed.


(** ** The slot table across the helpers of the core *)

Lemma carried_refl (l : list BufferHubSlot.t) : carried (λ _, false) l l.
Proof.
  split; [done|]. intros j s Hs. exists s. by rewrite orb_false_r.
Qed.

Lemma carried_ext (m m' : nat → bool) (l l' : list BufferHubSlot.t) :
  (∀ j, m j = m' j) → carried m l l' → carried m' l l'.
Proof.
  intros Hm [Hlen Hc]. split; [done|]. intros j s Hs.
  destruct (Hc j s Hs) as (s' & ? & ? & ? & ?). exists s'. by rewrite <- Hm.
Qed.

Lemma carried_trans (m1 m2 : nat → bool) (l1 l2 l3 : list BufferHubSlot.t) :
  carried m1 l1 l2 → carried m2 l2 l3 → carried (λ j, m1 j || m2 j) l1 l3.
Proof.
  intros [Hlen1 H1] [Hlen2 H2]. split; [congruence|]. intros j s Hs.
  destruct (H1 j s Hs) as (s2 & Hs2 & Hst2 & Hf2 & Hm2).
  destruct (H2 j s2 Hs2) as (s3 & Hs3 & Hst3 & Hf3 & Hm3).
  exists s3. repeat split; [done|congruence|congruence|].
  by rewrite Hm3, Hm2, orb_assoc.
Qed.

Lemma carried_length (m : nat → bool) (l l' : list BufferHubSlot.t) j s' :
  carried m l l' → l' !! j = Some s' → is_Some (l !! j).
Proof.
  intros [Hlen _] Hs'. apply lookup_lt_is_Some. rewrite <- Hlen.
  by eapply lookup_lt_Some.
Qed.

(** The dequeued slots are counted from the states alone. *)
Lemma carried_dequeued_count (m : nat → bool) (l l' : list BufferHubSlot.t) :
  carried m l l' → dequeued_count l' = dequeued_count l.
Proof.
  revert m l'. induction l as [|a l IH]; intros m [|a' l'] [Hlen Hc]; try done.
  simpl in *.
  destruct (Hc 0%nat a eq_refl) as (s' & Hs' & Hst & _). simplify_eq/=.
  rewrite Hst, (IH (λ j, m (S j)) l'); [done|].
  split; [lia|]. intros j s Hs. apply (Hc (S j) s Hs).
Qed.

Lemma update_slot_carried i (g : BufferHubSlot.t → BufferHubSlot.t) (mark : bool) c c' :
  (∀ s, BufferHubSlot.mBufferState (g s) = BufferHubSlot.mBufferState s ∧
        BufferHubSlot.mFence (g s) = BufferHubSlot.mFence s ∧
        BufferHubSlot.mIsReallocating (g s) = BufferHubSlot.mIsReallocating s || mark) →
  update_slot i g c = Some c' →
  carried (λ j, bool_decide (i = j) && mark) (buffers_ c) (buffers_ c') ∧
  (∃ s, buffers_ c !! i = Some s ∧ buffers_ c' !! i = Some (g s)) ∧
  producer_ c' = producer_ c ∧
  connected_api_ c' = connected_api_ c.
Proof.
  intros Hg. unfold update_slot.
  destruct (buffers_ c !! i) as [s|] eqn:Hs; [|done]. intros [= <-]. simpl.
  assert (Hi : (i < length (buffers_ c))%nat) by (by eapply lookup_lt_Some).
  split; [|split; [|done]].
  - split; [by rewrite length_insert|]. intros j t Ht.
    destruct (decide (i = j)) as [<-|Hne].
    + rewrite list_lookup_insert_eq by done.
      assert (t = s) as -> by congruence.
      exists (g s). rewrite bool_decide_true by done. simpl.
      destruct (Hg s) as (? & ? & ?). done.
    + rewrite list_lookup_insert_ne by done. exists t.
      rewrite bool_decide_false by done. simpl. by rewrite orb_false_r.
  - exists s. split; [done|]. by apply list_lookup_insert_eq.
Qed.

(** [AllocateBuffer] fails with NO_MEMORY, leaving the table as it is, or
    stores the new buffer in a slot. *)
Lemma AllocateBuffer_carried w h f u n c ret c' :
  AllocateBuffer w h f u n c = Done ret c' →
  carried (λ _, false) (buffers_ c) (buffers_ c') ∧
  connected_api_ c' = connected_api_ c ∧
  ((ret = NO_MEMORY ∧ buffers_ c' = buffers_ c) ∨ ret = NO_ERROR).
Proof.
  unfold AllocateBuffer.
  destruct (Allocate w h f u n (producer_ c)) as [b [[slot buf]|]].
  - destruct (update_slot _ _ _) as [c1|] eqn:Hu; [|done]. intros [= <- <-].
    eapply (update_slot_carried _ _ false) in Hu as (Hc & _ & _ & Ht).
    + split; [|by auto].
      eapply carried_ext; [|exact Hc]. intros j. simpl. by rewrite andb_false_r.
    + intros s. by rewrite orb_false_r.
  - intros [= <- <-]. simpl. split; [apply carried_refl|]. by auto.
Qed.

Lemma DetachBuffer_carried slot c c' :
  DetachBuffer slot c = Some c' →
  carried (λ _, false) (buffers_ c) (buffers_ c') ∧
  connected_api_ c' = connected_api_ c ∧
  ∃ s, buffers_ c !! slot = Some s ∧
       buffers_ c' !! slot =
         Some (BufferHubSlot.set_mRequestBufferCalled false
                 (BufferHubSlot.set_mGraphicBuffer None
                    (BufferHubSlot.set_mBufferProducer None s))).
Proof.
  unfold DetachBuffer. intros Hu.
  eapply (update_slot_carried _ _ false) in Hu as (Hc & Hs & _ & Ht).
  - split; [|split; [done|exact Hs]].
    eapply carried_ext; [|exact Hc]. intros j. simpl. by rewrite andb_false_r.
  - intros s. by rewrite orb_false_r.
Qed.


(** ** The retry loop *)

(** One iteration of the loop, case by case. *)
Ltac loop_step H :=
  simpl in H;
  destruct (Dequeue _ _) as [?b [[[?slot ?buf] ?fd]|]];
  [ destruct (geometry_matches _ _ _ _) eqn:?Hgeo;
    [ | destruct (update_slot _ _ _) as [?c2|] eqn:?Hmark;
        [ destruct (DetachBuffer _ _) as [?c3|] eqn:?Hdetach;
          [ destruct (AllocateBuffer _ _ _ _ _ _) as [?ret ?c4| |] eqn:?Halloc;
            [ destruct (_ <? 0) eqn:?Hneg;
              [ | destruct (retry_loop _ _ _ _ _ _ _) as [?fs ?e] eqn:?Hrec ]
            | | ]
          | ]
        | ] ]
  | ];
  injection H as <- <-.

(** The loop keeps the states and fences of all slots and raises the
    marker of the slots it reallocates. *)
Lemma retry_loop_carried n w h f u c cur fs e c' :
  retry_loop n w h f u c cur = (fs, e) →
  exit_core e = Some c' →
  carried (λ j, reallocated w h f j fs) (buffers_ c) (buffers_ c').
Proof.
  revert c cur fs e. induction n as [|n IH]; intros c cur fs e H He.
  { simpl in H. injection H as <- <-. simplify_eq/=. apply carried_refl. }
  assert (Hmarked : ∀ c1 c2 c3 slot buf,
    buffers_ c1 = buffers_ c →
    geometry_matches w h f buf = false →
    update_slot slot (BufferHubSlot.set_mIsReallocating true) c1 = Some c2 →
    DetachBuffer slot c2 = Some c3 →
    carried (λ j, reallocates w h f j (Some (slot, buf))) (buffers_ c) (buffers_ c3)).
  { intros c1 c2 c3 slot buf Hc1 Hgeo Hmark Hdetach. rewrite <- Hc1.
    eapply (update_slot_carried _ _ true) in Hmark as (Hm & _);
      [|intros s; by rewrite orb_true_r].
    apply DetachBuffer_carried in Hdetach as (Hd & _).
    eapply carried_ext; [|exact (carried_trans _ _ _ _ _ Hm Hd)].
    intros j. simpl. by rewrite Hgeo, orb_false_r. }
  loop_step H; simplify_eq/=.
  - eapply carried_ext; [|apply carried_refl]. intros j. simpl.
    by rewrite Hgeo, andb_false_r.
  - apply AllocateBuffer_carried in Halloc as (Ha & _).
    pose proof (Hmarked (set_producer_ b c) c2 c3 slot buf eq_refl Hgeo Hmark Hdetach) as Hm.
    eapply carried_ext; [|exact (carried_trans _ _ _ _ _ Hm Ha)].
    intros j. simpl. by rewrite !orb_false_r.
  - apply AllocateBuffer_carried in Halloc as (Ha & _).
    pose proof (Hmarked (set_producer_ b c) c2 c3 slot buf eq_refl Hgeo Hmark Hdetach) as Hm.
    pose proof (IH _ _ _ _ Hrec He) as Hr.
    eapply carried_ext;
      [|exact (carried_trans _ _ _ _ _ (carried_trans _ _ _ _ _ Hm Ha) Hr)].
    intros j. simpl. by rewrite orb_false_r.
  - apply carried_refl.
Qed.

(** The loop leaves the connection as it is. *)
Lemma retry_loop_connected n w h f u c cur fs e c' :
  retry_loop n w h f u c cur = (fs, e) →
  exit_core e = Some c' →
  connected_api_ c' = connected_api_ c.
Proof.
  revert c cur fs e. induction n as [|n IH]; intros c cur fs e H He.
  { simpl in H. injection H as <- <-. by simplify_eq/=. }
  assert (Hstep : ∀ c1 c2 c3 c4 slot ret,
    connected_api_ c1 = connected_api_ c →
    update_slot slot (BufferHubSlot.set_mIsReallocating true) c1 = Some c2 →
    DetachBuffer slot c2 = Some c3 →
    AllocateBuffer w h f u 1 c3 = Done ret c4 →
    connected_api_ c4 = connected_api_ c).
  { intros c1 c2 c3 c4 slot ret Hc1 Hmark Hdetach Halloc.
    eapply (update_slot_carried _ _ true) in Hmark as (_ & _ & _ & Hm);
      [|intros s; by rewrite orb_true_r].
    apply DetachBuffer_carried in Hdetach as (_ & Hd & _).
    apply AllocateBuffer_carried in Halloc as (_ & Ha & _).
    by rewrite Ha, Hd, Hm. }
  loop_step H; simplify_eq/=; try done.
  - by eapply (Hstep (set_producer_ b c)).
  - rewrite (IH _ _ _ _ Hrec He). by eapply (Hstep (set_producer_ b c)).
Qed.

(** How the loop was left tells what the broker answered: the loop asks the
    broker once per iteration; it breaks on a matching answer, is exhausted
    after [n] answers none of which matched, and returns from inside after an
    empty answer or after a failed allocation for a buffer that did not
    match, whose slot is then marked and has no buffer. *)
Lemma retry_loop_exit n w h f u c cur fs e :
  retry_loop n w h f u c cur = (fs, e) →
  (length fs ≤ n)%nat ∧
  match e with
  | ExitBreak slot buf _ =>
      last fs = Some (Some (slot, buf)) ∧ geometry_matches w h f buf = true
  | ExitExhausted l _ =>
      length fs = n ∧ forallb (mismatched w h f) fs = true ∧ l = default cur (last fs)
  | ExitNoMemory _ => last fs = Some None
  | ExitAllocFailed ret c' =>
      ret = NO_MEMORY ∧
      ∃ slot buf s',
        last fs = Some (Some (slot, buf)) ∧
        geometry_matches w h f buf = false ∧
        buffers_ c' !! slot = Some s' ∧
        BufferHubSlot.mIsReallocating s' = true ∧
        BufferHubSlot.mBufferProducer s' = None ∧
        BufferHubSlot.mGraphicBuffer s' = None
  | ExitUndefined => True
  end.
Proof.
  revert c cur fs e. induction n as [|n IH]; intros c cur fs e H.
  { simpl in H. injection H as <- <-. simpl. done. }
  loop_step H; simpl.
  - split; [lia|done].
  - split; [lia|].
    apply AllocateBuffer_carried in Halloc as (_ & _ & [[-> Heq] | ->]); [|done].
    split; [done|]. rewrite Heq.
    eapply (update_slot_carried _ _ true) in Hmark as (_ & (s & _ & Hs2) & _);
      [|intros t; by rewrite orb_true_r].
    apply DetachBuffer_carried in Hdetach as (_ & _ & (s2 & Hs2' & Hs3)).
    rewrite Hs2 in Hs2'. injection Hs2' as <-.
    eexists slot, buf, _. repeat split; [done|exact Hs3|done..].
  - apply IH in Hrec as [Hlen He]. split; [lia|].
    destruct e0 as [slot' buf' ce|l ce|ce|ret' ce|]; simpl.
    + destruct He as [Hl ?]. by rewrite last_cons, Hl.
    + destruct He as (<- & Hall & ->). rewrite Hgeo, Hall. repeat split.
      rewrite last_cons. by destruct (last _).
    + by rewrite last_cons, He.
    + destruct He as (-> & slot' & buf' & s' & Hl & ?). split; [done|].
      exists slot', buf', s'. by rewrite last_cons, Hl.
    + done.
  - split; [lia|done].
  - split; [lia|done].
  - split; [lia|done].
  - split; [lia|done].
  - split; [lia|done].
Qed.


(** ** dequeueBuffer *)

Lemma lazy_allocation_carried p w h f u ret c1 :
  lazy_allocation p w h f u = Done ret c1 →
  carried (λ _, false) (buffers_ (core_ p)) (buffers_ c1) ∧
  (ret = NO_MEMORY ∨ ret = NO_ERROR) ∧
  connected_api_ c1 = connected_api_ (core_ p).
Proof.
  unfold lazy_allocation. destruct (_ <? _).
  - intros Ha. apply AllocateBuffer_carried in Ha as (? & ? & [[? _]|?]); auto.
  - intros [= <- <-]. split; [apply carried_refl|by auto].
Qed.

(** What accepting a slot does: the slot was not dequeued, it is dequeued
    now and its marker is down, and the status tells whether it was up. *)
Lemma accept_slot_done p c slot r p' :
  accept_slot p c slot = Done r p' →
  ∃ s,
    buffers_ c !! slot = Some s ∧
    BufferHubSlot.mBufferState s ≠ BufferState.Dequeued ∧
    r = BuildReply
          (if BufferHubSlot.mIsReallocating s then BUFFER_NEEDS_REALLOCATION else NO_ERROR)
          (Some (to_int32 (Z.of_nat slot))) (Some Fence.NO_FENCE) ∧
    p' = set_core_
           (set_buffers_
              (<[slot := BufferHubSlot.set_mIsReallocating false
                           (BufferHubSlot.set_mBufferState BufferState.Dequeued s)]>
                 (buffers_ c)) c) p.
Proof.
  unfold accept_slot. destruct (buffers_ c !! slot) as [s|] eqn:Hs; [|done].
  destruct s as [g st rq fe bp m]. simpl.
  destruct st; simpl; try done; destruct m; simpl; intros [= <- <-];
    eexists; (split; [reflexivity|]); done.
Qed.

(** A call of [dequeueBuffer] that succeeds: the slot it returns is the one
    of the last answer of the broker, which either matched or was the last
    of [kMaxQueueCapacity] answers that did not; the slot was not dequeued
    and is now; its marker is down; the status tells whether the marker was
    up or was raised during the call. *)
Lemma dequeueBuffer_success p w h f u fs r p' :
  dequeueBuffer_fetches p w h f u = (fs, Done r p') →
  0 <= status r →
  ∃ slot buf s s',
    last fs = Some (Some (slot, buf)) ∧
    (length fs ≤ kMaxQueueCapacity)%nat ∧
    (geometry_matches w h f buf = true ∨
     (length fs = kMaxQueueCapacity ∧ forallb (mismatched w h f) fs = true)) ∧
    buffers_ (core_ p) !! slot = Some s ∧
    BufferHubSlot.mBufferState s ≠ BufferState.Dequeued ∧
    buffers_ (core_ p') !! slot = Some s' ∧
    BufferHubSlot.mBufferState s' = BufferState.Dequeued ∧
    BufferHubSlot.mIsReallocating s' = false ∧
    BufferHubSlot.mFence s' = BufferHubSlot.mFence s ∧
    r = BuildReply
          (if BufferHubSlot.mIsReallocating s || reallocated w h f slot fs
           then BUFFER_NEEDS_REALLOCATION else NO_ERROR)
          (Some (to_int32 (Z.of_nat slot))) (Some Fence.NO_FENCE) ∧
    dequeued_slots p' = dequeued_slots p + 1 ∧
    length (buffers_ (core_ p')) = length (buffers_ (core_ p)) ∧
    max_dequeued_buffer_count_ p' = max_dequeued_buffer_count_ p ∧
    max_buffer_count_ p' = max_buffer_count_ p ∧
    connected_api_ (core_ p) ≠ kNoConnectedApi ∧
    connected_api_ (core_ p') = connected_api_ (core_ p).
Proof.
  unfold dequeueBuffer_fetches. intros H Hok.
  destruct (connected_api_ (core_ p) =? kNoConnectedApi) eqn:Hconn.
  { injection H as <- <- <-. by simpl in Hok. }
  apply Z.eqb_neq in Hconn.
  destruct (lazy_allocation p w h f u) as [ret c1| |] eqn:Hlazy; [|done..].
  destruct (ret <? 0) eqn:Hret.
  { injection H as <- <- <-. simpl in Hok. apply Z.ltb_lt in Hret. lia. }
  destruct (retry_loop _ _ _ _ _ _ _) as [fs' e] eqn:Hloop.
  injection H as <- Hacc.
  apply lazy_allocation_carried in Hlazy as (Hc1 & _ & Hconn1).
  pose proof (retry_loop_exit _ _ _ _ _ _ _ _ _ Hloop) as [Hlen He].
  assert (Hfinish : ∃ slot buf c2,
    exit_core e = Some c2 ∧ accept_slot p c2 slot = Done r p' ∧
    last fs' = Some (Some (slot, buf)) ∧
    (geometry_matches w h f buf = true ∨
     (length fs' = kMaxQueueCapacity ∧ forallb (mismatched w h f) fs' = true))).
  { destruct e as [slot buf c2|[[slot buf]|] c2|c2|ret' c2|]; try done.
    - destruct He as [Hl Hg]. exists slot, buf, c2. by auto.
    - destruct He as (Hn & Hall & Hl). exists slot, buf, c2.
      repeat split; [done| |by auto].
      destruct (last fs') as [x|]; simpl in Hl; by subst.
    - injection Hacc as <- <-. by simpl in Hok.
    - destruct He as [-> _]. injection Hacc as <- <-. by simpl in Hok. }
  destruct Hfinish as (slot & buf & c2 & Hc2 & Hacc' & Hlast & Hgeo).
  pose proof (retry_loop_carried _ _ _ _ _ _ _ _ _ _ Hloop Hc2) as Hc12.
  pose proof (retry_loop_connected _ _ _ _ _ _ _ _ _ _ Hloop Hc2) as Hconn2.
  apply accept_slot_done in Hacc' as (s2 & Hs2 & Hst2 & -> & ->).
  destruct (carried_length _ _ _ _ _ Hc12 Hs2) as [s1 Hs1].
  destruct (carried_length _ _ _ _ _ Hc1 Hs1) as [s Hs].
  destruct (proj2 Hc1 _ _ Hs) as (s1' & Hs1' & Hst1 & Hf1 & Hm1).
  assert (s1' = s1) as -> by congruence.
  destruct (proj2 Hc12 _ _ Hs1) as (s2' & Hs2' & Hst12 & Hf12 & Hm12).
  assert (s2' = s2) as -> by congruence.
  rewrite orb_false_r in Hm1.
  assert (Hi : (slot < length (buffers_ c2))%nat) by (by eapply lookup_lt_Some).
  eexists slot, buf, s, _. simpl.
  split; [done|]. split; [done|]. split; [done|]. split; [done|].
  split; [congruence|].
  split; [by apply list_lookup_insert_eq|].
  split; [done|]. split; [done|]. split; [simpl; congruence|].
  split; [by rewrite Hm12, Hm1|].
  split; [|split; [|repeat (split; [done|]); simpl; congruence]].
  - unfold dequeued_slots. simpl.
    rewrite (dequeued_count_insert_gain _ _ s2); [|done| |done].
    + rewrite (carried_dequeued_count _ _ _ Hc12), (carried_dequeued_count _ _ _ Hc1). lia.
    + by destruct (BufferHubSlot.mBufferState s2).
  - rewrite length_insert, (proj1 Hc12), (proj1 Hc1). done.
Qed.


(** A call of [dequeueBuffer] that fails: nothing is written to the out
    parameters, the states of the slots are as before, and when the last
    answer of the broker was a buffer, the failure is that of the allocation
    which follows a mismatch. *)
Lemma dequeueBuffer_failure p w h f u fs r p' :
  dequeueBuffer_fetches p w h f u = (fs, Done r p') →
  status r < 0 →
  (r = failed NO_INIT ∨ r = failed NO_MEMORY) ∧
  (length fs ≤ kMaxQueueCapacity)%nat ∧
  carried (λ j, reallocated w h f j fs) (buffers_ (core_ p)) (buffers_ (core_ p')) ∧
  max_dequeued_buffer_count_ p' = max_dequeued_buffer_count_ p ∧
  max_buffer_count_ p' = max_buffer_count_ p ∧
  (∀ slot buf, last fs = Some (Some (slot, buf)) →
     geometry_matches w h f buf = false ∧
     r = failed NO_MEMORY ∧
     ∃ s', buffers_ (core_ p') !! slot = Some s' ∧
           BufferHubSlot.mIsReallocating s' = true ∧
           BufferHubSlot.mBufferProducer s' = None ∧
           BufferHubSlot.mGraphicBuffer s' = None).
Proof.
  unfold dequeueBuffer_fetches. intros H Hbad.
  destruct (connected_api_ (core_ p) =? kNoConnectedApi) eqn:Hconn.
  { injection H as <- <- <-.
    split; [by left|]. split; [simpl; lia|]. split; [apply carried_refl|]. done. }
  destruct (lazy_allocation p w h f u) as [ret c1| |] eqn:Hlazy; [|done..].
  apply lazy_allocation_carried in Hlazy as (Hc1 & Hret1 & _).
  destruct (ret <? 0) eqn:Hret.
  { injection H as <- <- <-. apply Z.ltb_lt in Hret.
    destruct Hret1 as [-> | ->]; [|done].
    split; [by right|]. split; [simpl; lia|]. split; [exact Hc1|]. done. }
  destruct (retry_loop _ _ _ _ _ _ _) as [fs' e] eqn:Hloop.
  injection H as <- Hacc.
  pose proof (retry_loop_exit _ _ _ _ _ _ _ _ _ Hloop) as [Hlen He].
  assert (Hexit : ∃ c2, exit_core e = Some c2 ∧ p' = set_core_ c2 p ∧
                        r = failed NO_MEMORY ∧
                        (e = ExitNoMemory c2 ∨ e = ExitAllocFailed NO_MEMORY c2)).
  { destruct e as [slot buf c2|[[slot buf]|] c2|c2|ret' c2|]; try done.
    - apply accept_slot_done in Hacc as (s2 & _ & _ & -> & _). simpl in Hbad.
      destruct (BufferHubSlot.mIsReallocating s2); done.
    - apply accept_slot_done in Hacc as (s2 & _ & _ & -> & _). simpl in Hbad.
      destruct (BufferHubSlot.mIsReallocating s2); done.
    - injection Hacc as <- <-. exists c2. by auto.
    - destruct He as [-> _]. injection Hacc as <- <-. exists c2. by auto. }
  destruct Hexit as (c2 & Hc2 & -> & -> & He').
  pose proof (retry_loop_carried _ _ _ _ _ _ _ _ _ _ Hloop Hc2) as Hc12.
  split; [by right|]. split; [done|]. split.
  { eapply carried_ext; [|exact (carried_trans _ _ _ _ _ Hc1 Hc12)]. done. }
  split; [done|]. split; [done|].
  intros slot buf Hlast. destruct He' as [-> | ->]; simpl in He.
  - congruence.
  - destruct He as (_ & slot' & buf' & s' & Hl & Hg & Hs' & Hm & Hb & Hgb).
    rewrite Hl in Hlast. injection Hlast as <- <-. by eauto 10.
Qed.

(** The broker is asked at most [kMaxQueueCapacity] times in one call. *)
Lemma dequeueBuffer_fetches_bound p w h f u :
  (length (fst (dequeueBuffer_fetches p w h f u)) ≤ kMaxQueueCapacity)%nat.
Proof.
  unfold dequeueBuffer_fetches.
  destruct (connected_api_ (core_ p) =? kNoConnectedApi); [simpl; lia|].
  destruct (lazy_allocation p w h f u) as [ret c1| |]; [|simpl; lia..].
  destruct (ret <? 0); [simpl; lia|].
  destruct (retry_loop _ _ _ _ _ _ _) as [fs e] eqn:Hloop. simpl.
  by apply retry_loop_exit in Hloop as [? _].
Qed.

(** ** The markers across the other calls *)

Lemma markers_insert (l : list BufferHubSlot.t) i s s' :
  l !! i = Some s →
  BufferHubSlot.mIsReallocating s' = BufferHubSlot.mIsReallocating s →
  BufferHubSlot.mIsReallocating <$> <[i := s']> l = BufferHubSlot.mIsReallocating <$> l.
Proof.
  intros Hs Hm. rewrite list_fmap_insert. apply list_insert_id.
  by rewrite list_lookup_fmap, Hs, Hm.
Qed.

Lemma perform_not_dequeue_markers p call r p' :
  not_dequeue call → perform p call = Done r p' → markers p' = markers p.
Proof.
  unfold markers.
  destruct call as [api o|api|n|slot|w h f u|slot input output|slot fence];
    simpl; intros Hnd H; [| | | | done | |].
  - unfold connect in H. repeat case_match; by simplify_eq/=.
  - unfold disconnect in H. repeat case_match; by simplify_eq/=.
  - unfold setMaxDequeuedBufferCount in H. repeat case_match; by simplify_eq/=.
  - unfold requestBuffer in H. repeat case_match; simplify_eq/=; try done.
    all: by eapply markers_insert.
  - unfold queueBuffer in H. repeat case_match; simplify_eq/=; try done.
    all: by eapply markers_insert.
  - unfold cancelBuffer in H. repeat case_match; simplify_eq/=; try done.
    all: by eapply markers_insert.
Qed.

Lemma run_not_dequeue_markers calls p p' :
  Forall not_dequeue calls → run p calls = Some p' → markers p' = markers p.
Proof.
  revert p. induction calls as [|call calls IH]; intros p Hnd H.
  { by simplify_eq/=. }
  apply Forall_cons in Hnd as [Hc Hcs]. simpl in H.
  destruct (perform p call) as [r p1| |] eqn:Hp; [|done..].
  rewrite (IH p1 Hcs H). by eapply perform_not_dequeue_markers.
Qed.


Lemma dequeueBuffer_with_fetches p w h f u r p' :
  dequeueBuffer p w h f u = Done r p' →
  ∃ fs, dequeueBuffer_fetches p w h f u = (fs, Done r p').
Proof.
  unfold dequeueBuffer. destruct (dequeueBuffer_fetches p w h f u) as [fs o].
  simpl. intros ->. by exists fs.
Qed.

(** ** The bound on the dequeued slots *)

(** The goal bounds the count of a table in which a dequeued slot was
    overwritten by one that is not dequeued. *)
Ltac slot_lost :=
  match goal with
  | Hs : buffers_ _ !! _ = Some ?t,
    Hd : negb (BufferState.isDequeued (BufferHubSlot.mBufferState ?t)) = false
    |- context [<[_ := ?t']> _] =>
      apply negb_false_iff in Hd;
      let Hl := fresh "Hl" in
      assert (Hl := dequeued_count_insert_loss _ _ t t' Hs Hd);
      destruct (BufferHubSlot.mBufferState t); try discriminate Hd;
      specialize (Hl eq_refl); lia
  end.

(** A call keeps the bound if, when it is a successful [dequeueBuffer], it
    was made below the bound. *)
Lemma perform_within_bound p call r p' :
  perform p call = Done r p' →
  within_bound p →
  match call with
  | CallDequeueBuffer _ _ _ _ =>
      0 <= r → dequeued_slots p < max_dequeued_buffer_count_ p
  | _ => True
  end →
  within_bound p'.
Proof.
  unfold within_bound, dequeued_slots.
  destruct call as [api o|api|n|slot|w h f u|slot input output|slot fence];
    simpl; intros H Hin Hdeq.
  - unfold connect in H. repeat case_match; by simplify_eq/=.
  - unfold disconnect in H. repeat case_match; by simplify_eq/=.
  - unfold setMaxDequeuedBufferCount in H. repeat case_match; simplify_eq/=; try done.
    lia.
  - unfold requestBuffer in H. repeat case_match; simplify_eq/=; try done.
    all: by erewrite dequeued_count_insert_same.
  - destruct (dequeueBuffer p w h f u) as [r0 p0| |] eqn:Hd; [|done..].
    injection H as <- <-.
    apply dequeueBuffer_with_fetches in Hd as [fs Hd].
    destruct (Z.le_gt_cases 0 (status r0)) as [Hok|Hbad].
    + destruct (dequeueBuffer_success _ _ _ _ _ _ _ _ Hd Hok)
        as (? & ? & ? & ? & _ & _ & _ & _ & _ & _ & _ & _ & _ & _ & Hcnt & _ & -> & _).
      unfold dequeued_slots in *. specialize (Hdeq Hok). lia.
    + destruct (dequeueBuffer_failure _ _ _ _ _ _ _ _ Hd Hbad)
        as (_ & _ & Hc & -> & _).
      by rewrite (carried_dequeued_count _ _ _ Hc).
  - unfold queueBuffer in H. repeat case_match; simplify_eq/=; try done.
    all: slot_lost.
  - unfold cancelBuffer in H. repeat case_match; simplify_eq/=; try done.
    all: slot_lost.
Qed.

(** ** requestBuffer and queueBuffer after dequeueBuffer *)

(** [queueBuffer] succeeds on a requested slot when the input is well
    formed and its crop lies within the buffer. *)
Lemma queueBuffer_succeeds p slot s buf input o :
  requested p slot s buf →
  well_formed_input input →
  within (QueueBufferInput.crop input) (BufferProducer.width buf)
         (BufferProducer.height buf) →
  ∃ out p', queueBuffer p slot input (Some o) = Done (NO_ERROR, Some out) p'.
Proof.
  intros Hreq (Hmode & [fence Hf]) Hin.
  rewrite (queueBuffer_requested p slot s buf input o fence Hreq Hmode Hf).
  apply crop_test_within in Hin. rewrite Hin. eauto.
Qed.

(** C4, as the code has it: let [dequeueBuffer] succeed on a well formed
    producer and return a slot that holds a buffer whose wrapper passes its
    check, and let the input be well formed with its crop within the buffer.
    When the slot holds no wrapper (it is dequeued for the first time, or
    its buffer was reallocated), [requestBuffer] and then [queueBuffer] both
    return NO_ERROR.  When the slot still holds the wrapper of an earlier
    occupancy, [requestBuffer] returns BAD_VALUE and changes nothing, and
    [queueBuffer] returns NO_ERROR all the same if [requestBuffer] had been
    called for that wrapper. *)
Theorem requestBuffer_then_queueBuffer p w h f u r p1 slot s buf input o :
  well_formed p →
  dequeueBuffer p w h f u = Done r p1 →
  0 <= status r →
  out_slot r = Some slot →
  buffers_ (core_ p1) !! Z.to_nat slot = Some s →
  BufferHubSlot.mBufferProducer s = Some buf →
  initCheck (new_GraphicBuffer buf) = NO_ERROR →
  well_formed_input input →
  within (QueueBufferInput.crop input) (BufferProducer.width buf)
         (BufferProducer.height buf) →
  (BufferHubSlot.mGraphicBuffer s = None →
   ∃ p2 out p3,
     requestBuffer p1 slot = Done (NO_ERROR, Some (new_GraphicBuffer buf)) p2 ∧
     queueBuffer p2 slot input (Some o) = Done (NO_ERROR, Some out) p3) ∧
  (is_Some (BufferHubSlot.mGraphicBuffer s) →
   requestBuffer p1 slot = Done (BAD_VALUE, None) p1 ∧
   (BufferHubSlot.mRequestBufferCalled s = true →
    ∃ out p3, queueBuffer p1 slot input (Some o) = Done (NO_ERROR, Some out) p3)).
Proof.
  intros (Hlen & Hmax & Hk) Hd Hok Hslot Hs Hbuf Hinit Hinput Hin.
  apply dequeueBuffer_with_fetches in Hd as [fs Hd].
  destruct (dequeueBuffer_success _ _ _ _ _ _ _ _ Hd Hok)
    as (k & _ & s0 & s' & _ & _ & _ & Hs0 & _ & Hs' & Hst & _ & _ & -> & _
        & _ & _ & Hmax' & Hconn & Hconn').
  simpl in Hslot. injection Hslot as <-.
  assert (Hk' : (k < kMaxQueueCapacity)%nat).
  { rewrite <- Hlen. by eapply lookup_lt_Some. }
  rewrite to_int32_small in * by (unfold INT32_MAX in *; lia).
  rewrite Nat2Z.id in Hs. assert (s' = s) as -> by congruence.
  assert (Ha : addresses p1 (Z.of_nat k) s).
  { split; [congruence|]. split; [lia|]. by rewrite Nat2Z.id. }
  split.
  - intros Hg.
    pose proof (requestBuffer_fresh p1 (Z.of_nat k) s buf Ha Hst Hg Hbuf Hinit) as Hr.
    match type of Hr with _ = Done _ ?q => set (p2 := q) in * end.
    assert (Hreq2 : requested p2 (Z.of_nat k)
              (BufferHubSlot.set_mRequestBufferCalled true
                 (BufferHubSlot.set_mGraphicBuffer (Some (new_GraphicBuffer buf)) s)) buf).
    { destruct Ha as (Hc & Hr' & Hl). subst p2.
      repeat split; simpl; try done; try lia.
      apply list_lookup_insert_eq. by eapply lookup_lt_Some. }
    destruct (queueBuffer_succeeds p2 _ _ buf input o Hreq2 Hinput Hin)
      as (out & p3 & Hq).
    by exists p2, out, p3.
  - intros [g Hg]. split; [by eapply requestBuffer_cached|].
    intros Hcalled. eapply queueBuffer_succeeds; [|done..].
    repeat split; try done; by apply Ha.
Qed.

End Properties.

(** * The operations on the first-in first-out broker *)

Section Evaluation.
Import Scenario.

(** Closes a goal about concrete states by evaluation. *)
Ltac evaluate := vm_compute; repeat split; try done; eauto.

(** The scenario of the spec: slot 0 is dequeued without reallocation,
    requested (the wrapper is 64 by 64) and queued with the crop of the whole
    buffer; cancelling slot 1, which was never dequeued, is refused. *)
Example one_frame_scenario :
  dequeueBuffer (after [connect_cpu] start) 64 64 RGBA 0
  = Done (BuildReply NO_ERROR (Some 0) (Some Fence.NO_FENCE)) (after first_dequeue start) ∧
  requestBuffer (after first_dequeue start) 0
  = Done (NO_ERROR, Some (GraphicBuffer.Build 64 64 RGBA 1 0 64 0 false))
         (after first_request start) ∧
  perform (after first_request start)
          (CallQueueBuffer 0 (input 64 64) (Some QueueBufferOutput.zero))
  = Done NO_ERROR
         (after (first_request ++
                 [CallQueueBuffer 0 (input 64 64) (Some QueueBufferOutput.zero)]) start) ∧
  cancelBuffer
    (after (first_request ++
            [CallQueueBuffer 0 (input 64 64) (Some QueueBufferOutput.zero)]) start)
    1 (Some fence)
  = Done BAD_VALUE
         (after (first_request ++
                 [CallQueueBuffer 0 (input 64 64) (Some QueueBufferOutput.zero)]) start).
Proof. evaluate. Qed.

(** A call that exhausts its retries: on a broker whose 64 slots all hold a
    free buffer of 64 by 64, [dequeueBuffer] for 128 by 128 asks the broker
    64 times, gets a buffer that does not match each time, leaves the loop by
    its condition and returns slot 63, the slot of the last answer, with
    status BUFFER_NEEDS_REALLOCATION.  The buffer it got for that slot was
    64 by 64 and has been detached; slot 63 holds its replacement of 128 by
    128, which the broker did not hand out: it is still among the available
    buffers. *)
Example dequeueBuffer_exhausts_retries :
  match run start all_slots_free with
  | Some p =>
      match dequeueBuffer_fetches p 128 128 RGBA 0 with
      | (fs, Done r p') =>
          length fs = kMaxQueueCapacity ∧
          forallb (mismatched 128 128 RGBA) fs = true ∧
          last fs = Some (Some (63%nat, BufferProducer.Build 63 64 64 RGBA 0 64)) ∧
          status r = BUFFER_NEEDS_REALLOCATION ∧
          out_slot r = Some 63 ∧
          BufferHubSlot.mBufferState (slot_of p' 63) = BufferState.Dequeued ∧
          BufferHubSlot.mBufferProducer (slot_of p' 63)
          = Some (BufferProducer.Build 127 128 128 RGBA 0 128) ∧
          existsb (Nat.eqb 63) (Fifo.available (producer_ (core_ p'))) = true
      | _ => False
      end
  | None => False
  end.
Proof. evaluate. Qed.


(** C3 fails: slot 0 is dequeued and requested; [cancelBuffer] returns
    NO_ERROR and frees it, and the slot still has [mRequestBufferCalled] set
    and still holds its wrapper.  When the slot is dequeued again,
    [requestBuffer] is refused with BAD_VALUE: it does not behave as on a
    fresh occupancy. *)
Lemma cancelBuffer_keeps_wrapper :
  match run start first_request with
  | Some p =>
      match cancelBuffer p 0 (Some fence) with
      | Done r p' =>
          r = NO_ERROR ∧
          BufferHubSlot.mBufferState (slot_of p' 0) = BufferState.Free ∧
          BufferHubSlot.mRequestBufferCalled (slot_of p' 0) = true ∧
          BufferHubSlot.mGraphicBuffer (slot_of p' 0) = Some (new_GraphicBuffer buffer0) ∧
          match dequeueBuffer p' 64 64 RGBA 0 with
          | Done r2 p2 =>
              status r2 = NO_ERROR ∧ out_slot r2 = Some 0 ∧
              requestBuffer p2 0 = Done (BAD_VALUE, None) p2
          | _ => False
          end
      | _ => False
      end
  | None => False
  end.
Proof. evaluate. Qed.

Lemma cancelBuffer_frees_slot_witness :
  addresses (after first_request start) 0 (slot_of (after first_request start) 0) ∧
  BufferHubSlot.mBufferState (slot_of (after first_request start) 0)
  = BufferState.Dequeued ∧
  ∃ p', cancelBuffer (after first_request start) 0 (Some fence) = Done NO_ERROR p' ∧
        dequeued_slots p' = 0.
Proof.
  assert (H1 : addresses (after first_request start) 0
                 (slot_of (after first_request start) 0)) by evaluate.
  assert (H2 : BufferHubSlot.mBufferState (slot_of (after first_request start) 0)
               = BufferState.Dequeued) by evaluate.
  split; [exact H1|]. split; [exact H2|].
  destruct (cancelBuffer_frees_slot _ _ _ fence H1 H2)
    as (p' & s' & Hc & _ & _ & _ & _ & _ & _ & _ & _ & _ & Hn).
  exists p'. split; [exact Hc|]. rewrite Hn. evaluate.
Defined.

(** C4 fails: slot 0 was dequeued, requested and cancelled; [dequeueBuffer]
    returns it a second time, with NO_ERROR, and [requestBuffer] on it
    returns BAD_VALUE. *)
Lemma requestBuffer_refused_on_second_dequeue :
  match run start cancelled with
  | Some p =>
      match dequeueBuffer p 64 64 RGBA 0 with
      | Done r p1 =>
          status r = NO_ERROR ∧ out_slot r = Some 0 ∧
          requestBuffer p1 0 = Done (BAD_VALUE, None) p1
      | _ => False
      end
  | None => False
  end.
Proof. evaluate. Qed.


Lemma requestBuffer_then_queueBuffer_witness :
  well_formed (after [connect_cpu] start) ∧
  dequeueBuffer (after [connect_cpu] start) 64 64 RGBA 0
  = Done (BuildReply NO_ERROR (Some 0) (Some Fence.NO_FENCE)) (after first_dequeue start) ∧
  buffers_ (core_ (after first_dequeue start)) !! Z.to_nat 0
  = Some (slot_of (after first_dequeue start) 0) ∧
  BufferHubSlot.mBufferProducer (slot_of (after first_dequeue start) 0) = Some buffer0 ∧
  initCheck (new_GraphicBuffer buffer0) = NO_ERROR ∧
  well_formed_input (input 64 64) ∧
  within (QueueBufferInput.crop (input 64 64)) 64 64 ∧
  ∃ p2 out p3,
    requestBuffer (after first_dequeue start) 0
    = Done (NO_ERROR, Some (new_GraphicBuffer buffer0)) p2 ∧
    queueBuffer p2 0 (input 64 64) (Some QueueBufferOutput.zero)
    = Done (NO_ERROR, Some out) p3.
Proof.
  assert (H1 : well_formed (after [connect_cpu] start)) by evaluate.
  assert (H2 : dequeueBuffer (after [connect_cpu] start) 64 64 RGBA 0
               = Done (BuildReply NO_ERROR (Some 0) (Some Fence.NO_FENCE))
                      (after first_dequeue start)) by evaluate.
  assert (H3 : buffers_ (core_ (after first_dequeue start)) !! Z.to_nat 0
               = Some (slot_of (after first_dequeue start) 0)) by evaluate.
  assert (H4 : BufferHubSlot.mBufferProducer (slot_of (after first_dequeue start) 0)
               = Some buffer0) by evaluate.
  assert (H5 : initCheck (new_GraphicBuffer buffer0) = NO_ERROR) by evaluate.
  assert (H6 : well_formed_input (input 64 64)) by evaluate.
  assert (H7 : within (QueueBufferInput.crop (input 64 64))
                 (BufferProducer.width buffer0) (BufferProducer.height buffer0))
    by evaluate.
  repeat (split; [assumption|]).
  refine (proj1 (requestBuffer_then_queueBuffer _ 64 64 RGBA 0 _ _ 0 _ buffer0
                   (input 64 64) QueueBufferOutput.zero H1 H2 _ eq_refl H3 H4 H5 H6 H7) _);
    evaluate.
Defined.

Lemma queueBuffer_crop_witness :
  requested (after first_request start) 0 (slot_of (after first_request start) 0) buffer0 ∧
  well_formed_input (input 64 64) ∧
  well_formed_input (input 65 64) ∧
  (∃ out p', queueBuffer (after first_request start) 0 (input 64 64)
               (Some QueueBufferOutput.zero) = Done (NO_ERROR, Some out) p') ∧
  queueBuffer (after first_request start) 0 (input 65 64) (Some QueueBufferOutput.zero)
  = Done (BAD_VALUE, Some QueueBufferOutput.zero) (after first_request start).
Proof.
  assert (H1 : requested (after first_request start) 0
                 (slot_of (after first_request start) 0) buffer0) by evaluate.
  assert (H2 : well_formed_input (input 64 64)) by evaluate.
  assert (H3 : well_formed_input (input 65 64)) by evaluate.
  repeat (split; [assumption|]). split.
  - apply (queueBuffer_crop _ _ _ _ (input 64 64) QueueBufferOutput.zero H1 H2).
    evaluate.
  - apply (queueBuffer_crop _ _ _ _ (input 65 64) QueueBufferOutput.zero H1 H3).
    vm_compute. intros (_ & _ & Hr & _). by apply Hr.
Defined.

Lemma queueBuffer_output_witness :
  queueBuffer (after first_request start) 0 (input 64 64) (Some QueueBufferOutput.zero)
  = Done (NO_ERROR, Some (QueueBufferOutput.Build 64 64 0 0 0))
         (after (first_request ++
                 [CallQueueBuffer 0 (input 64 64) (Some QueueBufferOutput.zero)]) start) ∧
  NO_ERROR = NO_ERROR ∧
  BufferHubSlot.mBufferState
    (slot_of (after (first_request ++
                     [CallQueueBuffer 0 (input 64 64) (Some QueueBufferOutput.zero)])
                    start) 0)
  = BufferState.Queued.
Proof.
  assert (H1 : queueBuffer (after first_request start) 0 (input 64 64)
                 (Some QueueBufferOutput.zero)
               = Done (NO_ERROR, Some (QueueBufferOutput.Build 64 64 0 0 0))
                   (after (first_request ++
                           [CallQueueBuffer 0 (input 64 64) (Some QueueBufferOutput.zero)])
                          start)) by evaluate.
  split; [exact H1|]. split; [reflexivity|].
  destruct (queueBuffer_output _ _ _ _ _ _ _ H1 eq_refl)
    as (s & buf & o & s' & _ & _ & _ & _ & _ & _ & _ & _ & _ & _ & Hs' & Hq).
  unfold slot_of. change (Z.to_nat 0) with 0%nat in Hs'. rewrite Hs'. exact Hq.
Defined.

Lemma setMaxDequeuedBufferCount_spec_witness :
  Z.of_nat kMaxQueueCapacity <= INT32_MAX ∧
  setMaxDequeuedBufferCount (after first_dequeue start) 0
  = (BAD_VALUE, after first_dequeue start) ∧
  setMaxDequeuedBufferCount (after first_dequeue start) 65
  = (BAD_VALUE, after first_dequeue start) ∧
  max_dequeued_buffer_count_ (snd (setMaxDequeuedBufferCount (after first_dequeue start) 3))
  = 3.
Proof.
  assert (H1 : Z.of_nat kMaxQueueCapacity <= INT32_MAX) by evaluate.
  split; [exact H1|]. split; [|split].
  - apply (setMaxDequeuedBufferCount_spec (after first_dequeue start) 0 H1). lia.
  - apply (setMaxDequeuedBufferCount_spec (after first_dequeue start) 65 H1).
    right; left. evaluate.
  - apply (setMaxDequeuedBufferCount_spec (after first_dequeue start) 3 H1).
    intros [H|[H|H]]; vm_compute in H; done.
Defined.

Lemma queueBuffer_validates_input_first_witness :
  (@None QueueBufferOutput.t = None ∨
   valid_scaling_mode (QueueBufferInput.scalingMode (input 64 64)) = false ∨
   QueueBufferInput.fence (input 64 64) = None) ∧
  connected_api_ (core_ start) = kNoConnectedApi ∧
  queueBuffer start 0 (input 64 64) None = Done (BAD_VALUE, None) start.
Proof.
  assert (H1 : @None QueueBufferOutput.t = None ∨
               valid_scaling_mode (QueueBufferInput.scalingMode (input 64 64)) = false ∨
               QueueBufferInput.fence (input 64 64) = None) by (left; reflexivity).
  split; [exact H1|]. split; [reflexivity|].
  exact (proj1 (queueBuffer_validates_input_first start 0 (input 64 64) None H1)).
Defined.

End Evaluation.

(** * Further properties of the producer *)

Section More.
Context {B : Type} `{HB : BufferHub B}.
Implicit Types (p : Producer B) (c : Core B).

(** ** The retry loop and the broker *)

(** One iteration of the loop, case by case. *)
Ltac iterate_loop H :=
  simpl in H;
  destruct (Dequeue _ _) as [?b [[[?slot ?buf] ?fd]|]];
  [ destruct (geometry_matches _ _ _ _) eqn:?Hgeo;
    [ | destruct (update_slot _ _ _) as [?c2|] eqn:?Hmark;
        [ destruct (DetachBuffer _ _) as [?c3|] eqn:?Hdetach;
          [ destruct (AllocateBuffer _ _ _ _ _ _) as [?ret ?c4| |] eqn:?Halloc;
            [ destruct (_ <? 0) eqn:?Hneg;
              [ | destruct (retry_loop _ _ _ _ _ _ _) as [?fs ?e] eqn:?Hrec ]
            | | ]
          | ]
        | ] ]
  | ];
  injection H as <- <-.

(** The loop asks the broker again only after a buffer that did not
    match. *)
Lemma retry_loop_asks_again n w h f u c cur fs e :
  retry_loop n w h f u c cur = (fs, e) →
  ∀ i x, (S i < length fs)%nat → fs !! i = Some x → mismatched w h f x = true.
Proof.
  revert c cur fs e. induction n as [|n IH]; intros c cur fs e H i x Hi Hx.
  { simpl in H. injection H as <- <-. simpl in Hi. lia. }
  iterate_loop H; simpl in Hi; try lia.
  destruct i as [|i]; simpl in Hx.
  - injection Hx as <-. simpl. by rewrite Hgeo.
  - eapply IH; [exact Hrec| |exact Hx]. lia.
Qed.

(** One call of [dequeueBuffer] asks the broker at most [kMaxQueueCapacity]
    times; it asks again only after an answer that was a buffer of another
    geometry than the requested one; and it does not ask at all when nobody
    is connected. *)
Theorem dequeueBuffer_asks_boundedly p w h f u fs o :
  dequeueBuffer_fetches p w h f u = (fs, o) →
  (length fs ≤ kMaxQueueCapacity)%nat ∧
  (∀ i x, (S i < length fs)%nat → fs !! i = Some x → mismatched w h f x = true) ∧
  (connected_api_ (core_ p) = kNoConnectedApi → fs = [] ∧ o = Done (failed NO_INIT) p).
Proof.
  intros H. split; [|split].
  - pose proof (dequeueBuffer_fetches_bound p w h f u) as Hb. by rewrite H in Hb.
  - unfold dequeueBuffer_fetches in H.
    destruct (connected_api_ (core_ p) =? kNoConnectedApi).
    { injection H as <- <-. intros i x Hi. simpl in Hi. lia. }
    destruct (lazy_allocation p w h f u) as [ret c1| |];
      try (injection H as <- <-; intros i x Hi; simpl in Hi; lia).
    destruct (ret <? 0).
    { injection H as <- <-. intros i x Hi. simpl in Hi. lia. }
    destruct (retry_loop _ _ _ _ _ _ _) as [fs' e] eqn:Hloop.
    injection H as <- _. by eapply retry_loop_asks_again.
  - intros Hc. unfold dequeueBuffer_fetches in H.
    rewrite Hc, Z.eqb_refl in H. by injection H as <- <-.
Qed.

(** A call of [dequeueBuffer] that succeeds after fewer than
    [kMaxQueueCapacity] answers of the broker returns the slot of the last
    answer, and the buffer of that answer has the requested width, height
    and format. *)
Theorem dequeueBuffer_returns_matching_buffer p w h f u fs r p' :
  dequeueBuffer_fetches p w h f u = (fs, Done r p') →
  0 <= status r →
  (length fs < kMaxQueueCapacity)%nat →
  ∃ slot buf,
    last fs = Some (Some (slot, buf)) ∧
    out_slot r = Some (to_int32 (Z.of_nat slot)) ∧
    BufferProducer.width buf = to_int32 w ∧
    BufferProducer.height buf = to_int32 h ∧
    BufferProducer.format buf = to_int32 f.
Proof.
  intros H Hok Hlen.
  destruct (dequeueBuffer_success _ _ _ _ _ _ _ _ H Hok)
    as (slot & buf & s & s' & Hlast & _ & Hgeo & _ & _ & _ & _ & _ & _ & -> & _).
  exists slot, buf. split; [done|]. split; [done|].
  destruct Hgeo as [Hgeo|[Hk _]]; [|lia].
  unfold geometry_matches in Hgeo.
  apply andb_true_iff in Hgeo as [Hgeo Hf]. apply andb_true_iff in Hgeo as [Hw Hh].
  apply Z.eqb_eq in Hw, Hh, Hf. by rewrite Hw, Hh, Hf.
Qed.

(** The states of the slots across a call of [dequeueBuffer] that succeeds. *)
Lemma dequeueBuffer_success_states p w h f u fs r p' :
  dequeueBuffer_fetches p w h f u = (fs, Done r p') →
  0 <= status r →
  ∃ slot,
    out_slot r = Some (to_int32 (Z.of_nat slot)) ∧
    (slot_states p !! slot = Some BufferState.Free ∨
     slot_states p !! slot = Some BufferState.Queued) ∧
    slot_states p' = <[slot := BufferState.Dequeued]> (slot_states p) ∧
    dequeued_slots p' = dequeued_slots p + 1 ∧
    length (buffers_ (core_ p')) = length (buffers_ (core_ p)) ∧
    max_dequeued_buffer_count_ p' = max_dequeued_buffer_count_ p ∧
    max_buffer_count_ p' = max_buffer_count_ p ∧
    connected_api_ (core_ p') = connected_api_ (core_ p).
Proof.
  intros H Hok.
  destruct (dequeueBuffer_success _ _ _ _ _ _ _ _ H Hok)
    as (_ & _ & _ & _ & _ & _ & _ & _ & _ & _ & _ & _ & _ & _
        & Hcnt & Hlen & Hmd & Hmb & _ & Hconn).
  unfold dequeueBuffer_fetches in H.
  destruct (connected_api_ (core_ p) =? kNoConnectedApi); [by simplify_eq/=|].
  destruct (lazy_allocation p w h f u) as [ret c1| |] eqn:Hlazy; [|done..].
  destruct (ret <? 0) eqn:Hret.
  { apply Z.ltb_lt in Hret. injection H as <- <- <-. simpl in Hok. lia. }
  destruct (retry_loop _ _ _ _ _ _ _) as [fs' e] eqn:Hloop.
  injection H as <- Hacc.
  apply lazy_allocation_carried in Hlazy as (Hc1 & _ & _).
  assert (Hfin : ∃ k c2, exit_core e = Some c2 ∧ accept_slot p c2 k = Done r p').
  { destruct e as [k ? c2|[[k ?]|] c2|c2|ret' c2|]; try done; try by eauto.
    - injection Hacc as <- <-. by simpl in Hok.
    - pose proof (retry_loop_exit _ _ _ _ _ _ _ _ _ Hloop) as [_ [-> _]].
      injection Hacc as <- <-. by simpl in Hok. }
  destruct Hfin as (k & c2 & Hc2 & Hacc').
  pose proof (retry_loop_carried _ _ _ _ _ _ _ _ _ _ Hloop Hc2) as Hc12.
  apply accept_slot_done in Hacc' as (s2 & Hs2 & Hst2 & -> & ->).
  assert (Hstates : BufferHubSlot.mBufferState <$> buffers_ c2
                    = BufferHubSlot.mBufferState <$> buffers_ (core_ p)).
  { apply list_eq. intros j. rewrite !list_lookup_fmap.
    destruct (buffers_ (core_ p) !! j) as [t|] eqn:Ht.
    - destruct (proj2 Hc1 _ _ Ht) as (t1 & Ht1 & Hst1 & _).
      destruct (proj2 Hc12 _ _ Ht1) as (t2 & Ht2 & Hst12 & _).
      rewrite Ht2. simpl. congruence.
    - assert (buffers_ c2 !! j = None) as ->; [|done].
      apply lookup_ge_None. rewrite (proj1 Hc12), (proj1 Hc1).
      by apply lookup_ge_None. }
  exists k. split; [done|]. split.
  { unfold slot_states. rewrite <- Hstates, list_lookup_fmap, Hs2. simpl.
    destruct (BufferHubSlot.mBufferState s2); auto. done. }
  split; [|done].
  unfold slot_states. simpl. by rewrite list_fmap_insert, Hstates.
Qed.

(** A call of [dequeueBuffer] that succeeds hands out a slot that was Free
    or Queued, never one that is dequeued already; the slot is Dequeued
    afterwards and every other slot has the state it had.  One slot more is
    dequeued; the table keeps its length; the two limits and the connection
    are as before. *)
Theorem dequeueBuffer_hands_out_one_slot p w h f u fs r p' :
  dequeueBuffer_fetches p w h f u = (fs, Done r p') →
  0 <= status r →
  ∃ slot,
    out_slot r = Some (to_int32 (Z.of_nat slot)) ∧
    (slot_states p !! slot = Some BufferState.Free ∨
     slot_states p !! slot = Some BufferState.Queued) ∧
    slot_states p' = <[slot := BufferState.Dequeued]> (slot_states p) ∧
    dequeued_slots p' = dequeued_slots p + 1 ∧
    length (buffers_ (core_ p')) = length (buffers_ (core_ p)) ∧
    max_dequeued_buffer_count_ p' = max_dequeued_buffer_count_ p ∧
    max_buffer_count_ p' = max_buffer_count_ p ∧
    connected_api_ (core_ p') = connected_api_ (core_ p).
Proof. apply dequeueBuffer_success_states. Qed.


(** The states of the slots across a call of [dequeueBuffer] that fails. *)
Lemma dequeueBuffer_failure_states p w h f u fs r p' :
  dequeueBuffer_fetches p w h f u = (fs, Done r p') →
  status r < 0 →
  (r = failed NO_INIT ∨ r = failed NO_MEMORY) ∧
  slot_states p' = slot_states p ∧
  BufferHubSlot.mFence <$> buffers_ (core_ p') = BufferHubSlot.mFence <$> buffers_ (core_ p) ∧
  dequeued_slots p' = dequeued_slots p ∧
  max_dequeued_buffer_count_ p' = max_dequeued_buffer_count_ p ∧
  max_buffer_count_ p' = max_buffer_count_ p.
Proof.
  intros H Hbad.
  destruct (dequeueBuffer_failure _ _ _ _ _ _ _ _ H Hbad)
    as (Hr & _ & Hc & Hmd & Hmb & _).
  split; [done|].
  assert (Hl : ∀ A (g : BufferHubSlot.t → A),
            (∀ s s', BufferHubSlot.mBufferState s' = BufferHubSlot.mBufferState s →
                     BufferHubSlot.mFence s' = BufferHubSlot.mFence s → g s' = g s) →
            g <$> buffers_ (core_ p') = g <$> buffers_ (core_ p)).
  { intros A g Hg. apply list_eq. intros j. rewrite !list_lookup_fmap.
    destruct (buffers_ (core_ p) !! j) as [t|] eqn:Ht.
    - destruct (proj2 Hc _ _ Ht) as (t' & Ht' & Hst & Hf & _).
      rewrite Ht'. simpl. f_equal. by apply Hg.
    - assert (buffers_ (core_ p') !! j = None) as ->; [|done].
      apply lookup_ge_None. rewrite (proj1 Hc). by apply lookup_ge_None. }
  split; [apply Hl; by intros|]. split; [apply Hl; by intros|].
  split; [|done]. unfold dequeued_slots. by rewrite (carried_dequeued_count _ _ _ Hc).
Qed.

(** A call of [dequeueBuffer] that fails returns NO_INIT or NO_MEMORY and
    writes neither [*out_slot] nor [*out_fence]; every slot keeps its state
    and its fence, as many slots are dequeued as before, and the two limits
    are unchanged. *)
Theorem dequeueBuffer_failure_keeps_slots p w h f u fs r p' :
  dequeueBuffer_fetches p w h f u = (fs, Done r p') →
  status r < 0 →
  (r = failed NO_INIT ∨ r = failed NO_MEMORY) ∧
  slot_states p' = slot_states p ∧
  BufferHubSlot.mFence <$> buffers_ (core_ p') = BufferHubSlot.mFence <$> buffers_ (core_ p) ∧
  dequeued_slots p' = dequeued_slots p ∧
  max_dequeued_buffer_count_ p' = max_dequeued_buffer_count_ p ∧
  max_buffer_count_ p' = max_buffer_count_ p.
Proof. apply dequeueBuffer_failure_states. Qed.

(** ** Errors of requestBuffer, queueBuffer and cancelBuffer *)

Lemma requestBuffer_error p slot r g p' :
  requestBuffer p slot = Done (r, g) p' →
  r ≠ NO_ERROR →
  p' = p ∧ g = None ∧ (r = NO_INIT ∨ r = BAD_VALUE).
Proof.
  unfold requestBuffer. intros H Hr.
  repeat case_match; simplify_eq/=; auto.
Qed.

Lemma queueBuffer_error p slot input output r out p' :
  queueBuffer p slot input output = Done (r, out) p' →
  r ≠ NO_ERROR →
  p' = p ∧ out = output ∧ (r = NO_INIT ∨ r = BAD_VALUE).
Proof.
  unfold queueBuffer. intros H Hr.
  repeat case_match; simplify_eq/=; auto.
Qed.

Lemma cancelBuffer_error p slot fence r p' :
  cancelBuffer p slot fence = Done r p' →
  r ≠ NO_ERROR →
  p' = p ∧ (r = NO_INIT ∨ r = BAD_VALUE).
Proof.
  unfold cancelBuffer. intros H Hr.
  repeat case_match; simplify_eq/=; auto.
Qed.

(** A call of [requestBuffer], [queueBuffer] or [cancelBuffer] that does
    not return NO_ERROR returns NO_INIT or BAD_VALUE, leaves the producer
    exactly as it was and writes nothing to [*buf] or [*output]; none of the
    three ever aborts through [LOG_ALWAYS_FATAL] except [requestBuffer] on a
    wrapper that fails its check. *)
Theorem validation_errors_change_nothing p slot input output fence :
  (∀ r g p', requestBuffer p slot = Done (r, g) p' → r ≠ NO_ERROR →
             p' = p ∧ g = None ∧ (r = NO_INIT ∨ r = BAD_VALUE)) ∧
  (∀ r out p', queueBuffer p slot input output = Done (r, out) p' → r ≠ NO_ERROR →
               p' = p ∧ out = output ∧ (r = NO_INIT ∨ r = BAD_VALUE)) ∧
  (∀ r p', cancelBuffer p slot fence = Done r p' → r ≠ NO_ERROR →
           p' = p ∧ (r = NO_INIT ∨ r = BAD_VALUE)) ∧
  queueBuffer p slot input output ≠ Fatal ∧
  cancelBuffer p slot fence ≠ Fatal.
Proof.
  split; [intros; by eapply requestBuffer_error|].
  split; [intros; by eapply queueBuffer_error|].
  split; [intros; by eapply cancelBuffer_error|].
  split.
  - unfold queueBuffer. repeat case_match; done.
  - unfold cancelBuffer. repeat case_match; done.
Qed.


(** ** Who owns a slot *)

(** On a slot that is not dequeued the three operations of the owner are
    refused. *)
Lemma not_dequeued_refused p slot s :
  addresses p slot s →
  BufferHubSlot.mBufferState s ≠ BufferState.Dequeued →
  requestBuffer p slot = Done (BAD_VALUE, None) p ∧
  (∀ fence, cancelBuffer p slot fence = Done BAD_VALUE p) ∧
  (∀ input o, well_formed_input input →
              queueBuffer p slot input (Some o) = Done (BAD_VALUE, Some o) p).
Proof.
  intros Ha Hst.
  assert (Hd : BufferState.isDequeued (BufferHubSlot.mBufferState s) = false)
    by (by destruct (BufferHubSlot.mBufferState s)).
  pose proof (connected_test _ _ _ Ha) as Hc.
  pose proof (slot_in_range _ _ _ Ha) as Hr.
  destruct Ha as (_ & _ & Hs).
  split; [|split].
  - unfold requestBuffer. by rewrite Hc, Hr, Hs, Hd.
  - intros fence. unfold cancelBuffer. by rewrite Hc, Hr, Hs, Hd.
  - intros input o (Hm & [fe Hf]). unfold queueBuffer.
    rewrite Hm, Hf. simpl. by rewrite Hc, Hr, Hs, Hd.
Qed.

(** A call of [requestBuffer] that succeeds found the slot dequeued, with a
    buffer and without a wrapper; the wrapper it returns has the width,
    height, format, usage, stride and handle of the buffer, one layer, and
    does not own the handle.  No slot changes its state.  A second
    [requestBuffer] on the slot is refused with BAD_VALUE and changes
    nothing. *)
Theorem requestBuffer_once p slot g p1 :
  requestBuffer p slot = Done (NO_ERROR, g) p1 →
  ∃ s buf,
    buffers_ (core_ p) !! Z.to_nat slot = Some s ∧
    BufferHubSlot.mBufferState s = BufferState.Dequeued ∧
    BufferHubSlot.mGraphicBuffer s = None ∧
    BufferHubSlot.mBufferProducer s = Some buf ∧
    g = Some (GraphicBuffer.Build (BufferProducer.width buf) (BufferProducer.height buf)
                (BufferProducer.format buf) 1 (BufferProducer.usage buf)
                (BufferProducer.stride buf) (BufferProducer.handle buf) false) ∧
    slot_states p1 = slot_states p ∧
    requestBuffer p1 slot = Done (BAD_VALUE, None) p1.
Proof.
  unfold requestBuffer at 1. intros H.
  destruct (connected_api_ (core_ p) =? kNoConnectedApi) eqn:Hc; [by simplify_eq/=|].
  destruct (slot_out_of_range p slot) eqn:Hr; [by simplify_eq/=|].
  destruct (buffers_ (core_ p) !! Z.to_nat slot) as [s|] eqn:Hs; [|done].
  destruct (BufferHubSlot.mBufferState s) eqn:Hst; simpl in H; try by simplify_eq/=.
  destruct (BufferHubSlot.mGraphicBuffer s) eqn:Hg; [by simplify_eq/=|].
  destruct (BufferHubSlot.mBufferProducer s) as [buf|] eqn:Hb; [|by simplify_eq/=].
  destruct (negb _); [done|]. injection H as <- <-.
  assert (Hi : (Z.to_nat slot < length (buffers_ (core_ p)))%nat)
    by (by eapply lookup_lt_Some).
  exists s, buf. repeat (split; [done|]). split.
  - unfold slot_states. simpl. rewrite list_fmap_insert. simpl.
    apply list_insert_id. by rewrite list_lookup_fmap, Hs.
  - unfold requestBuffer. simpl. rewrite Hc.
    replace (slot_out_of_range _ slot) with false by done.
    rewrite list_lookup_insert_eq by done. simpl. by rewrite Hst.
Qed.

Lemma out_of_range_false p slot :
  slot_out_of_range p slot = false → 0 <= slot < max_buffer_count_ p.
Proof.
  unfold slot_out_of_range. intros H. apply orb_false_iff in H as [H1 H2].
  apply Z.ltb_ge in H1. apply Z.leb_gt in H2. lia.
Qed.

(** What a successful [requestBuffer] found and what it left. *)
Lemma requestBuffer_success p slot g p' :
  requestBuffer p slot = Done (NO_ERROR, g) p' →
  ∃ s buf,
    addresses p slot s ∧
    BufferHubSlot.mBufferState s = BufferState.Dequeued ∧
    BufferHubSlot.mGraphicBuffer s = None ∧
    BufferHubSlot.mBufferProducer s = Some buf ∧
    g = Some (new_GraphicBuffer buf) ∧
    buffers_ (core_ p')
    = <[Z.to_nat slot :=
          BufferHubSlot.set_mRequestBufferCalled true
            (BufferHubSlot.set_mGraphicBuffer (Some (new_GraphicBuffer buf)) s)]>
        (buffers_ (core_ p)) ∧
    connected_api_ (core_ p') = connected_api_ (core_ p) ∧
    max_buffer_count_ p' = max_buffer_count_ p ∧
    max_dequeued_buffer_count_ p' = max_dequeued_buffer_count_ p.
Proof.
  unfold requestBuffer. intros H.
  destruct (connected_api_ (core_ p) =? kNoConnectedApi) eqn:Hc; [by simplify_eq/=|].
  destruct (slot_out_of_range p slot) eqn:Hr; [by simplify_eq/=|].
  destruct (buffers_ (core_ p) !! Z.to_nat slot) as [s|] eqn:Hs; [|done].
  destruct (BufferHubSlot.mBufferState s) eqn:Hst; simpl in H; try by simplify_eq/=.
  destruct (BufferHubSlot.mGraphicBuffer s) eqn:Hg; [by simplify_eq/=|].
  destruct (BufferHubSlot.mBufferProducer s) as [buf|] eqn:Hb; [|by simplify_eq/=].
  destruct (negb _); [done|]. injection H as <- <-.
  exists s, buf. simpl. split; [|done].
  split; [by apply Z.eqb_neq|]. split; [|done]. by apply out_of_range_false.
Qed.

(** What a successful [queueBuffer] found and what it left. *)
Lemma queueBuffer_success p slot input output out p' :
  queueBuffer p slot input output = Done (NO_ERROR, out) p' →
  ∃ s,
    addresses p slot s ∧
    BufferHubSlot.mBufferState s = BufferState.Dequeued ∧
    buffers_ (core_ p')
    = <[Z.to_nat slot := BufferHubSlot.set_mBufferState BufferState.Queued s]>
        (buffers_ (core_ p)) ∧
    connected_api_ (core_ p') = connected_api_ (core_ p) ∧
    max_buffer_count_ p' = max_buffer_count_ p ∧
    max_dequeued_buffer_count_ p' = max_dequeued_buffer_count_ p.
Proof.
  unfold queueBuffer. intros Hq.
  destruct output as [o0|]; [|by inversion Hq].
  destruct (valid_scaling_mode _); simpl in Hq; [|by inversion Hq].
  destruct (QueueBufferInput.fence input) as [fence|]; [|by inversion Hq].
  destruct (connected_api_ (core_ p) =? kNoConnectedApi) eqn:Hc; [by inversion Hq|].
  destruct (slot_out_of_range p slot) eqn:Hr; [by inversion Hq|].
  destruct (buffers_ (core_ p) !! Z.to_nat slot) as [s|] eqn:Hs; [|done].
  destruct (BufferHubSlot.mBufferState s) eqn:Hst; simpl in Hq;
    try by inversion Hq.
  destruct (negb (BufferHubSlot.mRequestBufferCalled s) || _); [by inversion Hq|].
  destruct (BufferHubSlot.mBufferProducer s) as [buf|] eqn:Hbuf; [|done].
  destruct (Rect.neq _ _); [by inversion Hq|].
  injection Hq as <- <-. exists s. simpl.
  split; [|done]. split; [by apply Z.eqb_neq|]. split; [|done].
  by apply out_of_range_false.
Qed.

(** What a successful [cancelBuffer] found and what it left. *)
Lemma cancelBuffer_success p slot fence p' :
  cancelBuffer p slot fence = Done NO_ERROR p' →
  ∃ s,
    addresses p slot s ∧
    BufferHubSlot.mBufferState s = BufferState.Dequeued ∧
    buffers_ (core_ p')
    = <[Z.to_nat slot := BufferHubSlot.set_mFence fence
                           (BufferHubSlot.set_mBufferState BufferState.Free s)]>
        (buffers_ (core_ p)) ∧
    connected_api_ (core_ p') = connected_api_ (core_ p) ∧
    max_buffer_count_ p' = max_buffer_count_ p ∧
    max_dequeued_buffer_count_ p' = max_dequeued_buffer_count_ p.
Proof.
  unfold cancelBuffer. intros Hq.
  destruct (connected_api_ (core_ p) =? kNoConnectedApi) eqn:Hc; [by inversion Hq|].
  destruct (slot_out_of_range p slot) eqn:Hr; [by inversion Hq|].
  destruct (buffers_ (core_ p) !! Z.to_nat slot) as [s|] eqn:Hs; [|done].
  destruct (BufferHubSlot.mBufferState s) eqn:Hst; simpl in Hq;
    try by inversion Hq.
  destruct fence as [fe|]; [|by inversion Hq].
  injection Hq as <-. exists s. simpl.
  split; [|done]. split; [by apply Z.eqb_neq|]. split; [|done].
  by apply out_of_range_false.
Qed.

(** Once [queueBuffer] or [cancelBuffer] has succeeded on a slot, the slot
    is not the producer's any more: [requestBuffer], [cancelBuffer] and a
    well formed [queueBuffer] on it all return BAD_VALUE and change nothing.
    In particular a buffer cannot be queued twice, nor cancelled after it
    was queued. *)
Theorem slot_given_up p slot p' :
  (∃ input output out, queueBuffer p slot input output = Done (NO_ERROR, out) p') ∨
  (∃ fence, cancelBuffer p slot fence = Done NO_ERROR p') →
  requestBuffer p' slot = Done (BAD_VALUE, None) p' ∧
  (∀ fence, cancelBuffer p' slot fence = Done BAD_VALUE p') ∧
  (∀ input o, well_formed_input input →
              queueBuffer p' slot input (Some o) = Done (BAD_VALUE, Some o) p').
Proof.
  intros H.
  assert (Hs' : ∃ s', addresses p' slot s' ∧
                      BufferHubSlot.mBufferState s' ≠ BufferState.Dequeued).
  { destruct H as [(input & output & out & H)|(fence & H)];
      [apply queueBuffer_success in H|apply cancelBuffer_success in H];
      destruct H as (s & (Hc & Hr & Hs) & _ & Hb & Hc' & Hm & _);
      (eexists; split;
       [split; [congruence|split; [lia|]];
        rewrite Hb; apply list_lookup_insert_eq; by eapply lookup_lt_Some
       |done]). }
  destruct Hs' as (s' & Ha & Hst). by apply (not_dequeued_refused p' slot s').
Qed.

(** On a well formed producer, the slot a successful [dequeueBuffer] returns
    can always be cancelled with a fence: [cancelBuffer] returns NO_ERROR,
    the slot is Free and as many slots are dequeued as before the
    [dequeueBuffer]. *)
Theorem dequeueBuffer_then_cancelBuffer p w h f u r p1 slot (fence : Fence.t) :
  well_formed p →
  dequeueBuffer p w h f u = Done r p1 →
  0 <= status r →
  out_slot r = Some slot →
  ∃ p2,
    cancelBuffer p1 slot (Some fence) = Done NO_ERROR p2 ∧
    slot_states p2 !! Z.to_nat slot = Some BufferState.Free ∧
    dequeued_slots p2 = dequeued_slots p.
Proof.
  intros (Hlen & Hmax & Hk) Hd Hok Hslot.
  apply dequeueBuffer_with_fetches in Hd as [fs Hd].
  destruct (dequeueBuffer_success _ _ _ _ _ _ _ _ Hd Hok)
    as (k & _ & s0 & s' & _ & _ & _ & Hs0 & _ & Hs' & Hst & _ & _ & -> & Hcnt
        & _ & _ & Hmax' & Hconn & Hconn').
  simpl in Hslot. injection Hslot as <-.
  assert (Hk' : (k < kMaxQueueCapacity)%nat).
  { rewrite <- Hlen. by eapply lookup_lt_Some. }
  rewrite to_int32_small by (unfold INT32_MAX in *; lia).
  assert (Hi : (k < length (buffers_ (core_ p1)))%nat) by (by eapply lookup_lt_Some).
  unfold cancelBuffer.
  replace (connected_api_ (core_ p1) =? kNoConnectedApi) with false
    by (symmetry; apply Z.eqb_neq; congruence).
  replace (slot_out_of_range p1 (Z.of_nat k)) with false.
  2: { symmetry. unfold slot_out_of_range. apply orb_false_iff.
       split; [apply Z.ltb_ge|apply Z.leb_gt]; lia. }
  rewrite Nat2Z.id, Hs', Hst. simpl. eexists. split; [reflexivity|]. split.
  - unfold slot_states. simpl. rewrite list_lookup_fmap.
    by rewrite list_lookup_insert_eq.
  - unfold dequeued_slots in *. simpl.
    pose proof (dequeued_count_insert_loss (buffers_ (core_ p1)) k s'
                  (BufferHubSlot.set_mFence (Some fence)
                     (BufferHubSlot.set_mBufferState BufferState.Free s')) Hs') as Hl.
    rewrite Hst in Hl. specialize (Hl eq_refl eq_refl). lia.
Qed.


(** ** connect and disconnect *)

(** [connect] returns NO_ERROR exactly when [output] is given, nobody is
    connected and the API is one of EGL, CPU, MEDIA and CAMERA, and BAD_VALUE
    otherwise, leaving the producer as it was.  After a successful
    [connect], the API is recorded and nothing else has changed;
    [disconnect] with another API is refused; [disconnect] with the same API
    gives back the very producer [connect] started with. *)
Theorem connect_then_disconnect p api (output_given : bool) :
  let accepted :=
    output_given = true ∧ connected_api_ (core_ p) = kNoConnectedApi ∧
    (api = NATIVE_WINDOW_API_EGL ∨ api = NATIVE_WINDOW_API_CPU ∨
     api = NATIVE_WINDOW_API_MEDIA ∨ api = NATIVE_WINDOW_API_CAMERA) in
  (¬ accepted → connect p api output_given = (BAD_VALUE, p)) ∧
  (accepted →
   ∃ p1,
     connect p api output_given = (NO_ERROR, p1) ∧
     connected_api_ (core_ p1) = api ∧
     buffers_ (core_ p1) = buffers_ (core_ p) ∧
     producer_ (core_ p1) = producer_ (core_ p) ∧
     max_dequeued_buffer_count_ p1 = max_dequeued_buffer_count_ p ∧
     (∀ api', api' ≠ api → disconnect p1 api' = (BAD_VALUE, p1)) ∧
     disconnect p1 api = (NO_ERROR, p)).
Proof.
  intros accepted. subst accepted. unfold connect, recognized_api.
  assert (Hapi : (api =? NATIVE_WINDOW_API_EGL) || (api =? NATIVE_WINDOW_API_CPU)
                 || (api =? NATIVE_WINDOW_API_MEDIA) || (api =? NATIVE_WINDOW_API_CAMERA)
                 = true ↔
                 (api = NATIVE_WINDOW_API_EGL ∨ api = NATIVE_WINDOW_API_CPU ∨
                  api = NATIVE_WINDOW_API_MEDIA ∨ api = NATIVE_WINDOW_API_CAMERA)).
  { rewrite !orb_true_iff, !Z.eqb_eq. tauto. }
  split.
  - intros Hn. destruct output_given; simpl; [|done].
    destruct (connected_api_ (core_ p) =? kNoConnectedApi) eqn:Hc; simpl; [|done].
    apply Z.eqb_eq in Hc.
    destruct (_ || _) eqn:Ha; [|done]. exfalso. apply Hn. by rewrite <- Hapi.
  - intros (-> & Hc & Ha). simpl. rewrite Hc, Z.eqb_refl. simpl.
    apply Hapi in Ha. rewrite Ha. eexists. split; [reflexivity|]. simpl.
    repeat (split; [done|]). unfold disconnect. simpl. split.
    + intros api' Hne. by rewrite (proj2 (Z.eqb_neq api' api) Hne).
    + rewrite Z.eqb_refl. simpl. f_equal.
      destruct p as [[bs ca b t g i] mb md]. simpl in *. by subst ca.
Qed.

(** [disconnect] returns NO_ERROR exactly when its argument is the recorded
    API.  It then records that nobody is connected and releases nothing: the
    table, the broker and the bound are as they were, so a slot that was
    dequeued is still dequeued when a producer connects again. *)
Theorem disconnect_keeps_slots p api :
  (api ≠ connected_api_ (core_ p) → disconnect p api = (BAD_VALUE, p)) ∧
  (api = connected_api_ (core_ p) →
   ∃ p1,
     disconnect p api = (NO_ERROR, p1) ∧
     connected_api_ (core_ p1) = kNoConnectedApi ∧
     buffers_ (core_ p1) = buffers_ (core_ p) ∧
     producer_ (core_ p1) = producer_ (core_ p) ∧
     max_dequeued_buffer_count_ p1 = max_dequeued_buffer_count_ p ∧
     ∀ api' p2, connect p1 api' true = (NO_ERROR, p2) →
                buffers_ (core_ p2) = buffers_ (core_ p) ∧
                dequeued_slots p2 = dequeued_slots p).
Proof.
  unfold disconnect. split.
  - intros Hne. by rewrite (proj2 (Z.eqb_neq _ _) Hne).
  - intros ->. rewrite Z.eqb_refl. simpl. eexists. split; [reflexivity|].
    simpl. repeat (split; [done|]).
    intros api' p2. unfold connect. simpl. rewrite Z.eqb_refl. simpl.
    destruct (recognized_api api'); [|done]. by intros [= <-].
Qed.

(** While nobody is connected, [requestBuffer], [dequeueBuffer] and
    [cancelBuffer] return NO_INIT whatever their arguments are (a slot out of
    range or a null fence makes no difference), and so does [queueBuffer]
    when its input is well formed; none of them changes anything, and
    [dequeueBuffer] does not ask the broker. *)
Theorem not_connected_no_init p :
  connected_api_ (core_ p) = kNoConnectedApi →
  (∀ slot, requestBuffer p slot = Done (NO_INIT, None) p) ∧
  (∀ w h f u, dequeueBuffer_fetches p w h f u = ([], Done (failed NO_INIT) p)) ∧
  (∀ slot fence, cancelBuffer p slot fence = Done NO_INIT p) ∧
  (∀ slot input o, well_formed_input input →
                   queueBuffer p slot input (Some o) = Done (NO_INIT, Some o) p).
Proof.
  intros Hc. split; [|split; [|split]].
  - intros slot. unfold requestBuffer. by rewrite Hc, Z.eqb_refl.
  - intros w h f u. unfold dequeueBuffer_fetches. by rewrite Hc, Z.eqb_refl.
  - intros slot fence. unfold cancelBuffer. by rewrite Hc, Z.eqb_refl.
  - intros slot input o (Hm & [fe Hf]). by apply (queueBuffer_not_connected _ _ _ _ fe).
Qed.

End More.

Section Entries.
Context {B : Type} `{HB : BufferHub B} `{HD : BufferHubDefaults B}.
Implicit Types (p : Producer B) (c : Core B).

(** ** The entry points that are no operation of the slot table *)

(** What [administer] may touch: the generation number and the timeout. *)
Lemma administer_frame p a r p' :
  administer p a = Done r p' →
  buffers_ (core_ p') = buffers_ (core_ p) ∧
  connected_api_ (core_ p') = connected_api_ (core_ p) ∧
  producer_ (core_ p') = producer_ (core_ p) ∧
  unique_id_ (core_ p') = unique_id_ (core_ p) ∧
  max_buffer_count_ p' = max_buffer_count_ p ∧
  max_dequeued_buffer_count_ p' = max_dequeued_buffer_count_ p.
Proof.
  destruct a; simpl; intros H;
    try (unfold query in H); try (unfold setAsyncMode in H);
    try (unfold setSidebandStream in H);
    repeat case_match; by simplify_eq/=.
Qed.

(** [setAsyncMode], [detachBuffer], [detachNextBuffer], [query],
    [setSidebandStream], [allocateBuffers], [allowAllocation],
    [setGenerationNumber], [setSharedBufferMode], [setAutoRefresh],
    [setDequeueTimeout], [getLastQueuedBuffer], [getFrameTimestamps] and
    [getUniqueId] leave the slot table, the connection, the broker, the
    unique id and the two limits as they are, and return NO_ERROR, BAD_VALUE
    or INVALID_OPERATION; [attachBuffer] always aborts, and it is the only
    one that does. *)
Theorem administer_leaves_slots p a :
  (administer p a = Fatal ↔ ∃ buffer, a = AdminAttachBuffer buffer) ∧
  administer p a ≠ Undefined ∧
  ∀ r p', administer p a = Done r p' →
    buffers_ (core_ p') = buffers_ (core_ p) ∧
    connected_api_ (core_ p') = connected_api_ (core_ p) ∧
    producer_ (core_ p') = producer_ (core_ p) ∧
    unique_id_ (core_ p') = unique_id_ (core_ p) ∧
    max_buffer_count_ p' = max_buffer_count_ p ∧
    max_dequeued_buffer_count_ p' = max_dequeued_buffer_count_ p ∧
    (r = NO_ERROR ∨ r = BAD_VALUE ∨ r = INVALID_OPERATION).
Proof.
  split; [|split].
  - split.
    + destruct a; simpl; intros H; try (by eauto);
        try (unfold query in H); try (unfold setAsyncMode in H);
        try (unfold setSidebandStream in H); repeat case_match; done.
    + by intros [buffer ->].
  - destruct a; simpl; try done;
      try (unfold query); try (unfold setAsyncMode);
      try (unfold setSidebandStream); repeat case_match; done.
  - intros r p' H.
    destruct (administer_frame _ _ _ _ H) as (? & ? & ? & ? & ? & ?).
    repeat (split; [done|]).
    destruct a; simpl in H;
      try (unfold query in H); try (unfold setAsyncMode in H);
      try (unfold setSidebandStream in H);
      repeat case_match; simplify_eq/=; auto.
Qed.

(** [query] never changes the producer.  It returns NO_ERROR exactly when
    [out_value] is given and the key is one of MIN_UNDEQUEUED_BUFFERS,
    BUFFER_AGE, WIDTH, HEIGHT, FORMAT, CONSUMER_RUNNING_BEHIND and
    CONSUMER_USAGE_BITS; the value is then the default width, height or
    format of the broker for the three geometry keys and 0 for the other
    four.  Every other call, the keys STICKY_TRANSFORM and DEFAULT_DATASPACE
    included, returns BAD_VALUE and writes no value.  No connection is
    needed. *)
Theorem query_answers p what (out_given : bool) :
  let known :=
    what = NATIVE_WINDOW_MIN_UNDEQUEUED_BUFFERS ∨ what = NATIVE_WINDOW_BUFFER_AGE ∨
    what = NATIVE_WINDOW_WIDTH ∨ what = NATIVE_WINDOW_HEIGHT ∨
    what = NATIVE_WINDOW_FORMAT ∨ what = NATIVE_WINDOW_CONSUMER_RUNNING_BEHIND ∨
    what = NATIVE_WINDOW_CONSUMER_USAGE_BITS in
  let value :=
    if what =? NATIVE_WINDOW_WIDTH then default_width (producer_ (core_ p))
    else if what =? NATIVE_WINDOW_HEIGHT then default_height (producer_ (core_ p))
    else if what =? NATIVE_WINDOW_FORMAT then default_format (producer_ (core_ p))
    else 0 in
  (out_given = true ∧ known → query p what out_given = (NO_ERROR, Some value, p)) ∧
  (¬ (out_given = true ∧ known) → query p what out_given = (BAD_VALUE, None, p)).
Proof.
  intros known value. subst known value. unfold query.
  unfold NATIVE_WINDOW_MIN_UNDEQUEUED_BUFFERS, NATIVE_WINDOW_BUFFER_AGE,
    NATIVE_WINDOW_WIDTH, NATIVE_WINDOW_HEIGHT, NATIVE_WINDOW_FORMAT,
    NATIVE_WINDOW_CONSUMER_RUNNING_BEHIND, NATIVE_WINDOW_CONSUMER_USAGE_BITS,
    NATIVE_WINDOW_STICKY_TRANSFORM, NATIVE_WINDOW_DEFAULT_DATASPACE.
  split.
  - intros [-> Hk]. simpl.
    repeat (case_match; try done); repeat match goal with H : (_ =? _) = _ |- _ => first [apply Z.eqb_eq in H|apply Z.eqb_neq in H] end; try lia.
  - intros Hn. destruct out_given; simpl; [|done].
    repeat (case_match; try done); repeat match goal with H : (_ =? _) = _ |- _ => first [apply Z.eqb_eq in H|apply Z.eqb_neq in H] end; exfalso; apply Hn; (split; [done|lia]).
Qed.


(** [setDequeueTimeout] always returns NO_ERROR and changes the timeout
    only.  It stores the timeout in whole milliseconds, the rest of the
    nanoseconds being cut off: a timeout from 0 up to what an [int] of
    milliseconds holds is stored as the largest number of milliseconds not
    above it, and every timeout under a millisecond, a negative one
    included, is stored as 0. *)
Theorem setDequeueTimeout_whole_milliseconds p (timeout : Z) :
  ∃ p',
    setDequeueTimeout p timeout = (NO_ERROR, p') ∧
    buffers_ (core_ p') = buffers_ (core_ p) ∧
    connected_api_ (core_ p') = connected_api_ (core_ p) ∧
    producer_ (core_ p') = producer_ (core_ p) ∧
    max_dequeued_buffer_count_ p' = max_dequeued_buffer_count_ p ∧
    (0 <= timeout < 2 ^ 31 * 1000000 →
     0 <= dequeue_timeout_ms_ (core_ p') ∧
     dequeue_timeout_ms_ (core_ p') * 1000000 <= timeout
       < (dequeue_timeout_ms_ (core_ p') + 1) * 1000000) ∧
    (- 1000000 < timeout < 1000000 → dequeue_timeout_ms_ (core_ p') = 0).
Proof.
  eexists. split; [reflexivity|]. simpl. repeat (split; [done|]).
  change (1000 * 1000) with 1000000. split.
  - intros Ht. rewrite Z.quot_div_nonneg by lia.
    assert (0 <= timeout / 1000000 < 2 ^ 31).
    { split; [apply Z.div_pos; lia|apply Z.div_lt_upper_bound; lia]. }
    rewrite to_int32_small by (unfold INT32_MAX; lia).
    pose proof (Z.div_mod timeout 1000000 ltac:(lia)) as Hdm.
    pose proof (Z.mod_pos_bound timeout 1000000 ltac:(lia)). lia.
  - intros Ht.
    assert (Hq : timeout ÷ 1000000 = 0) by (apply Z.quot_small_iff; lia).
    by rewrite Hq.
Qed.


(** ** The state machine of a slot *)

(** What one call does to the states of the slots: nothing, or one step of
    one slot. *)
Lemma perform_steps p call r p' :
  perform p call = Done r p' →
  max_buffer_count_ p' = max_buffer_count_ p ∧
  (slot_states p' = slot_states p ∨
   ∃ j st st',
     slot_states p !! j = Some st ∧
     slot_states p' = <[j := st']> (slot_states p) ∧
     ((st ≠ BufferState.Dequeued ∧ st' = BufferState.Dequeued ∧
       ∃ w h f u, call = CallDequeueBuffer w h f u ∧ 0 <= r) ∨
      (st = BufferState.Dequeued ∧
       (st' = BufferState.Queued ∨ st' = BufferState.Free)))).
Proof.
  destruct call as [api o|api|n|slot|w h f u|slot input output|slot fence];
    simpl; intros H.
  - unfold connect in H. repeat case_match; simplify_eq/=; auto.
  - unfold disconnect in H. repeat case_match; simplify_eq/=; auto.
  - unfold setMaxDequeuedBufferCount in H. repeat case_match; simplify_eq/=; auto.
  - destruct (requestBuffer p slot) as [[r0 g] p0| |] eqn:Hq; [|done..].
    injection H as <- <-.
    destruct (decide (r0 = NO_ERROR)) as [->|Hne].
    + apply requestBuffer_success in Hq
        as (s & buf & (_ & _ & Hs) & Hst & _ & _ & _ & Hb & _ & Hmb & _).
      split; [done|]. left. unfold slot_states. rewrite Hb, list_fmap_insert.
      apply list_insert_id. by rewrite list_lookup_fmap, Hs.
    + destruct (requestBuffer_error _ _ _ _ _ Hq Hne) as (-> & _). auto.
  - destruct (dequeueBuffer p w h f u) as [r0 p0| |] eqn:Hd; [|done..].
    injection H as <- <-.
    apply dequeueBuffer_with_fetches in Hd as [fs Hd].
    destruct (Z.le_gt_cases 0 (status r0)) as [Hok|Hbad].
    + destruct (dequeueBuffer_success_states _ _ _ _ _ _ _ _ Hd Hok)
        as (k & _ & Hk & Hst & _ & _ & _ & Hmb & _).
      split; [done|]. right.
      destruct Hk as [Hk|Hk]; eexists k, _, _;
        (split; [exact Hk|]); (split; [exact Hst|]); left;
        (split; [done|]); (split; [done|]); by exists w, h, f, u.
    + destruct (dequeueBuffer_failure_states _ _ _ _ _ _ _ _ Hd Hbad)
        as (_ & Hst & _ & _ & _ & Hmb). auto.
  - destruct (queueBuffer p slot input output) as [[r0 out] p0| |] eqn:Hq; [|done..].
    injection H as <- <-.
    destruct (decide (r0 = NO_ERROR)) as [->|Hne].
    + apply queueBuffer_success in Hq as (s & (_ & _ & Hs) & Hst & Hb & _ & Hmb & _).
      split; [done|]. right. exists (Z.to_nat slot), BufferState.Dequeued, BufferState.Queued.
      split; [unfold slot_states; by rewrite list_lookup_fmap, Hs, <- Hst|].
      split; [unfold slot_states; by rewrite Hb, list_fmap_insert|]. by auto.
    + destruct (queueBuffer_error _ _ _ _ _ _ _ Hq Hne) as (-> & _). auto.
  - destruct (decide (r = NO_ERROR)) as [->|Hne].
    + apply cancelBuffer_success in H as (s & (_ & _ & Hs) & Hst & Hb & _ & Hmb & _).
      split; [done|]. right. exists (Z.to_nat slot), BufferState.Dequeued, BufferState.Free.
      split; [unfold slot_states; by rewrite list_lookup_fmap, Hs, <- Hst|].
      split; [unfold slot_states; by rewrite Hb, list_fmap_insert|]. by auto.
    + destruct (cancelBuffer_error _ _ _ _ _ H Hne) as (-> & _). auto.
Qed.

Lemma enter_steps p e r p' :
  enter p e = Done r p' →
  max_buffer_count_ p' = max_buffer_count_ p ∧
  (slot_states p' = slot_states p ∨
   ∃ j st st',
     slot_states p !! j = Some st ∧
     slot_states p' = <[j := st']> (slot_states p) ∧
     ((st ≠ BufferState.Dequeued ∧ st' = BufferState.Dequeued ∧
       ∃ w h f u, e = EntryCall (CallDequeueBuffer w h f u) ∧ 0 <= r) ∨
      (st = BufferState.Dequeued ∧
       (st' = BufferState.Queued ∨ st' = BufferState.Free)))).
Proof.
  destruct e as [call|a]; simpl; intros H.
  - destruct (perform_steps _ _ _ _ H) as [Hm [Hs|(j & st & st' & ? & ? & Hc)]].
    + by auto.
    + split; [done|]. right. exists j, st, st'. repeat (split; [done|]).
      destruct Hc as [(? & ? & w & h & f & u & -> & ?)|?]; [left|by right].
      repeat (split; [done|]). by eauto 10.
  - apply administer_frame in H as (Hb & _ & _ & _ & Hm & _).
    split; [done|]. left. unfold slot_states. by rewrite Hb.
Qed.

Lemma enter_keeps_length p e r p' :
  enter p e = Done r p' →
  length (buffers_ (core_ p')) = length (buffers_ (core_ p)) ∧
  max_buffer_count_ p' = max_buffer_count_ p.
Proof.
  intros H. destruct (enter_steps _ _ _ _ H) as [Hm Hs]. split; [|done].
  assert (Hl : length (slot_states p') = length (slot_states p)).
  { destruct Hs as [->|(j & st & st' & _ & -> & _)]; [done|by rewrite length_insert]. }
  unfold slot_states in Hl. by rewrite !length_fmap in Hl.
Qed.

(** Whatever entry point is called, and whatever it returns, at most one
    slot changes its state, and a slot that does goes from Free or Queued to
    Dequeued, or from Dequeued to Queued or Free.  A slot becomes Dequeued
    only in a call of [dequeueBuffer] that succeeds.  The table keeps its
    length. *)
Theorem slots_step_legally p e r p' :
  enter p e = Done r p' →
  length (slot_states p') = length (slot_states p) ∧
  (∃ j, ∀ i, i ≠ j → slot_states p' !! i = slot_states p !! i) ∧
  (∀ i st st', slot_states p !! i = Some st → slot_states p' !! i = Some st' →
               legal_step st st') ∧
  (∀ i st, slot_states p !! i = Some st → st ≠ BufferState.Dequeued →
           slot_states p' !! i = Some BufferState.Dequeued →
           ∃ w h f u, e = EntryCall (CallDequeueBuffer w h f u) ∧ 0 <= r).
Proof.
  intros H.
  destruct (enter_steps _ _ _ _ H) as [_ [Hs|(j & st0 & st1 & Hj & Hs & Hc)]].
  - rewrite Hs. split; [done|]. split; [by exists 0%nat|]. split.
    + intros i st st' H1 H2. left. congruence.
    + intros i st H1 Hn H2. congruence.
  - rewrite Hs. split; [by rewrite length_insert|].
    split; [exists j; intros i Hi; by rewrite list_lookup_insert_ne|].
    assert (Hlt : (j < length (slot_states p))%nat) by (by eapply lookup_lt_Some).
    split.
    + intros i st st' H1 H2. destruct (decide (i = j)) as [->|Hne].
      * rewrite list_lookup_insert_eq in H2 by done.
        assert (st = st0) as -> by congruence. injection H2 as <-.
        destruct Hc as [(? & ? & _)|[? ?]]; [right; left|right; right]; done.
      * rewrite list_lookup_insert_ne in H2 by done. left. congruence.
    + intros i st H1 Hn H2. destruct (decide (i = j)) as [->|Hne].
      * rewrite list_lookup_insert_eq in H2 by done.
        assert (st = st0) as -> by congruence. injection H2 as ->.
        destruct Hc as [(_ & _ & Hd)|[? [?|?]]]; done.
      * rewrite list_lookup_insert_ne in H2 by done. congruence.
Qed.

(** The table has [kMaxQueueCapacity] slots and [max_buffer_count_] is that
    number before and after every sequence of entries: no entry point grows
    or shrinks the table or changes the range of the slots. *)
Theorem well_formed_kept p (es : list Entry) p' :
  run_entries p es = Some p' →
  well_formed p →
  well_formed p'.
Proof.
  revert p. induction es as [|e es IH]; intros p H Hwf.
  { simpl in H. by injection H as <-. }
  simpl in H. destruct (enter p e) as [r p1| |] eqn:He; [|done..].
  apply (IH p1 H).
  destruct Hwf as (Hlen & Hmax & Hk).
  pose proof (enter_keeps_length p e r p1 He) as [Hl Hm].
  split; [congruence|]. split; [congruence|done].
Qed.


(** ** The table is read within its bounds *)

(** On a well formed producer the range check on [slot] keeps every read of
    [buffers_[slot]] inside the table: [requestBuffer] never reads outside,
    [cancelBuffer] always returns, and [queueBuffer] can only go wrong by
    reading the buffer of a slot that is dequeued and requested but holds no
    buffer. *)
Theorem slot_reads_in_bounds p slot fence input output :
  well_formed p →
  requestBuffer p slot ≠ Undefined ∧
  (∃ r p', cancelBuffer p slot fence = Done r p') ∧
  (queueBuffer p slot input output = Undefined →
   ∃ s, buffers_ (core_ p) !! Z.to_nat slot = Some s ∧
        BufferHubSlot.mBufferState s = BufferState.Dequeued ∧
        BufferHubSlot.mRequestBufferCalled s = true ∧
        is_Some (BufferHubSlot.mGraphicBuffer s) ∧
        BufferHubSlot.mBufferProducer s = None).
Proof.
  intros (Hlen & Hmax & Hk).
  assert (Hin : slot_out_of_range p slot = false →
                is_Some (buffers_ (core_ p) !! Z.to_nat slot)).
  { intros Hr. apply out_of_range_false in Hr. apply lookup_lt_is_Some. lia. }
  split; [|split].
  - unfold requestBuffer.
    destruct (connected_api_ (core_ p) =? kNoConnectedApi); [done|].
    destruct (slot_out_of_range p slot) eqn:Hr; [done|].
    destruct (Hin eq_refl) as [s ->]. repeat case_match; done.
  - unfold cancelBuffer.
    destruct (connected_api_ (core_ p) =? kNoConnectedApi); [by eauto|].
    destruct (slot_out_of_range p slot) eqn:Hr; [by eauto|].
    destruct (Hin eq_refl) as [s ->]. repeat case_match; by eauto.
  - unfold queueBuffer.
    destruct output as [o|]; [|done].
    destruct (negb (valid_scaling_mode _)); [done|].
    destruct (QueueBufferInput.fence input); [|done].
    destruct (connected_api_ (core_ p) =? kNoConnectedApi); [done|].
    destruct (slot_out_of_range p slot) eqn:Hr; [done|].
    destruct (Hin eq_refl) as [s Hs]. rewrite Hs.
    destruct (BufferHubSlot.mBufferState s) eqn:Hst; simpl; try done.
    destruct (BufferHubSlot.mRequestBufferCalled s) eqn:Hc; simpl; [|done].
    destruct (BufferHubSlot.mGraphicBuffer s) eqn:Hg; simpl; [|done].
    destruct (BufferHubSlot.mBufferProducer s) eqn:Hb; [by case_match|].
    intros _. exists s. by eauto 10.
Qed.

(** ** The reallocation markers *)

(** Only [dequeueBuffer] touches the markers [mIsReallocating]: a sequence
    of entries without a call of [dequeueBuffer] leaves the marker of every
    slot as it was. *)
Theorem only_dequeueBuffer_marks p (es : list Entry) p' :
  Forall (λ e, ∀ w h f u, e ≠ EntryCall (CallDequeueBuffer w h f u)) es →
  run_entries p es = Some p' →
  markers p' = markers p.
Proof.
  revert p. induction es as [|e es IH]; intros p Hnd H.
  { simpl in H. by injection H as <-. }
  apply Forall_cons in Hnd as [He Hes]. simpl in H.
  destruct (enter p e) as [r p1| |] eqn:Hp; [|done..].
  rewrite (IH p1 Hes H). destruct e as [call|a]; simpl in Hp.
  - eapply perform_not_dequeue_markers; [|exact Hp].
    destruct call; try done. by destruct (He width height format usage).
  - apply administer_frame in Hp as (Hb & _). unfold markers. by rewrite Hb.
Qed.


(** ** dequeueBuffer on a broker that has nothing to give *)

(** On a connected queue: when the broker holds fewer buffers than
    [max_dequeued_buffer_count_] and cannot allocate one more,
    [dequeueBuffer] returns NO_MEMORY without asking for a buffer; when it
    holds enough buffers but none is available, [dequeueBuffer] asks once and
    returns NO_MEMORY.  In both cases the table is untouched and no slot is
    written to [*out_slot]. *)
Theorem dequeueBuffer_out_of_buffers p w h f u :
  connected_api_ (core_ p) ≠ kNoConnectedApi →
  kMaxQueueCapacity ≠ 0%nat →
  let b := producer_ (core_ p) in
  let grow := to_int32 (Z.of_nat (capacity b)) < max_dequeued_buffer_count_ p in
  (grow → snd (Allocate w h f u 1 b) = None →
   dequeueBuffer_fetches p w h f u
   = ([], Done (failed NO_MEMORY)
               (set_core_ (set_producer_ (fst (Allocate w h f u 1 b)) (core_ p)) p))) ∧
  (¬ grow → snd (Dequeue (dequeue_timeout_ms_ (core_ p)) b) = None →
   dequeueBuffer_fetches p w h f u
   = ([None], Done (failed NO_MEMORY)
                   (set_core_
                      (set_producer_ (fst (Dequeue (dequeue_timeout_ms_ (core_ p)) b))
                                     (core_ p)) p))).
Proof.
  intros Hc Hk b grow. subst b grow. apply Z.eqb_neq in Hc.
  unfold dequeueBuffer_fetches, lazy_allocation. rewrite Hc. split.
  - intros Hg Ha. apply Z.ltb_lt in Hg. rewrite Hg. unfold AllocateBuffer.
    destruct (Allocate w h f u 1 (producer_ (core_ p))) as [b' [x|]]; [done|].
    done.
  - intros Hg Hd. apply Z.nlt_ge, Z.ltb_ge in Hg. rewrite Hg. simpl.
    destruct kMaxQueueCapacity as [|n]; [done|]. simpl.
    destruct (Dequeue _ _) as [b' [x|]]; [done|]. done.
Qed.

End Entries.

(** * More operations on the first-in first-out broker *)

Section MoreEvaluation.
Import Scenario.

(** Closes a goal about concrete states by evaluation. *)
Ltac compute_it := vm_compute; repeat split; try done; eauto.

Lemma dequeueBuffer_asks_boundedly_witness :
  dequeueBuffer_fetches (after one_free_buffer start) 128 128 RGBA 0
  = ([Some (0%nat, buffer0); Some (0%nat, buffer1)],
     Done (BuildReply BUFFER_NEEDS_REALLOCATION (Some 0) (Some Fence.NO_FENCE))
          (after reallocated_slot start)) ∧
  (length [Some (0%nat, buffer0); Some (0%nat, buffer1)] ≤ 64)%nat.
Proof.
  assert (H1 : dequeueBuffer_fetches (after one_free_buffer start) 128 128 RGBA 0
    = ([Some (0%nat, buffer0); Some (0%nat, buffer1)],
       Done (BuildReply BUFFER_NEEDS_REALLOCATION (Some 0) (Some Fence.NO_FENCE))
            (after reallocated_slot start))) by compute_it.
  split; [exact H1|].
  exact (proj1 (dequeueBuffer_asks_boundedly _ _ _ _ _ _ _ H1)).
Defined.

Lemma dequeueBuffer_returns_matching_buffer_witness :
  dequeueBuffer_fetches (after one_free_buffer start) 128 128 RGBA 0
  = ([Some (0%nat, buffer0); Some (0%nat, buffer1)],
     Done (BuildReply BUFFER_NEEDS_REALLOCATION (Some 0) (Some Fence.NO_FENCE))
          (after reallocated_slot start)) ∧
  0 <= BUFFER_NEEDS_REALLOCATION ∧
  (2 < kMaxQueueCapacity)%nat ∧
  ∃ slot buf,
    last [Some (0%nat, buffer0); Some (0%nat, buffer1)] = Some (Some (slot, buf)) ∧
    BufferProducer.width buf = to_int32 128.
Proof.
  assert (H1 : dequeueBuffer_fetches (after one_free_buffer start) 128 128 RGBA 0
    = ([Some (0%nat, buffer0); Some (0%nat, buffer1)],
       Done (BuildReply BUFFER_NEEDS_REALLOCATION (Some 0) (Some Fence.NO_FENCE))
            (after reallocated_slot start))) by compute_it.
  assert (H2 : 0 <= BUFFER_NEEDS_REALLOCATION) by compute_it.
  assert (H3 : (2 < kMaxQueueCapacity)%nat) by (vm_compute; lia).
  repeat (split; [assumption|]).
  destruct (dequeueBuffer_returns_matching_buffer _ _ _ _ _ _ _ _ H1 H2 H3)
    as (slot & buf & Hl & _ & Hw & _).
  by exists slot, buf.
Defined.

Lemma dequeueBuffer_hands_out_one_slot_witness :
  dequeueBuffer_fetches (after one_free_buffer start) 128 128 RGBA 0
  = ([Some (0%nat, buffer0); Some (0%nat, buffer1)],
     Done (BuildReply BUFFER_NEEDS_REALLOCATION (Some 0) (Some Fence.NO_FENCE))
          (after reallocated_slot start)) ∧
  0 <= BUFFER_NEEDS_REALLOCATION ∧
  dequeued_slots (after reallocated_slot start)
  = dequeued_slots (after one_free_buffer start) + 1.
Proof.
  assert (H1 : dequeueBuffer_fetches (after one_free_buffer start) 128 128 RGBA 0
    = ([Some (0%nat, buffer0); Some (0%nat, buffer1)],
       Done (BuildReply BUFFER_NEEDS_REALLOCATION (Some 0) (Some Fence.NO_FENCE))
            (after reallocated_slot start))) by compute_it.
  assert (H2 : 0 <= BUFFER_NEEDS_REALLOCATION) by compute_it.
  repeat (split; [assumption|]).
  destruct (dequeueBuffer_hands_out_one_slot _ _ _ _ _ _ _ _ H1 H2)
    as (slot & _ & _ & _ & Hn & _). exact Hn.
Defined.

Lemma dequeueBuffer_failure_keeps_slots_witness :
  dequeueBuffer_fetches (after one_free_buffer tight) 128 128 RGBA 0
  = ([Some (0%nat, buffer0)],
     Done (failed NO_MEMORY) (after (one_free_buffer ++ [dequeue 128 128]) tight)) ∧
  status (failed NO_MEMORY) < 0 ∧
  slot_states (after (one_free_buffer ++ [dequeue 128 128]) tight)
  = slot_states (after one_free_buffer tight).
Proof.
  assert (H1 : dequeueBuffer_fetches (after one_free_buffer tight) 128 128 RGBA 0
    = ([Some (0%nat, buffer0)],
       Done (failed NO_MEMORY) (after (one_free_buffer ++ [dequeue 128 128]) tight)))
    by compute_it.
  assert (H2 : status (failed NO_MEMORY) < 0) by compute_it.
  repeat (split; [assumption|]).
  exact (proj1 (proj2 (dequeueBuffer_failure_keeps_slots _ _ _ _ _ _ _ _ H1 H2))).
Defined.

Lemma validation_errors_change_nothing_witness :
  requestBuffer (after first_request start) 0
  = Done (BAD_VALUE, None) (after first_request start) ∧
  BAD_VALUE ≠ NO_ERROR ∧
  after first_request start = after first_request start.
Proof.
  assert (H1 : requestBuffer (after first_request start) 0
               = Done (BAD_VALUE, None) (after first_request start)) by compute_it.
  assert (H2 : BAD_VALUE ≠ NO_ERROR) by done.
  repeat (split; [assumption|]).
  exact (proj1 (proj1 (validation_errors_change_nothing (after first_request start) 0
                         (input 64 64) None None) _ _ _ H1 H2)).
Defined.

Lemma requestBuffer_once_witness :
  requestBuffer (after first_dequeue start) 0
  = Done (NO_ERROR, Some (new_GraphicBuffer buffer0)) (after first_request start) ∧
  requestBuffer (after first_request start) 0
  = Done (BAD_VALUE, None) (after first_request start).
Proof.
  assert (H1 : requestBuffer (after first_dequeue start) 0
               = Done (NO_ERROR, Some (new_GraphicBuffer buffer0))
                      (after first_request start)) by compute_it.
  split; [exact H1|].
  destruct (requestBuffer_once _ _ _ _ H1) as (s & buf & _ & _ & _ & _ & _ & _ & H2).
  exact H2.
Defined.

Lemma slot_given_up_witness :
  ((∃ input output out,
      queueBuffer (after first_request start) 0 input output
      = Done (NO_ERROR, out) (after cancelled start)) ∨
   (∃ fence, cancelBuffer (after first_request start) 0 fence
             = Done NO_ERROR (after cancelled start))) ∧
  cancelBuffer (after cancelled start) 0 (Some fence) = Done BAD_VALUE (after cancelled start).
Proof.
  assert (H1 : (∃ input output out,
      queueBuffer (after first_request start) 0 input output
      = Done (NO_ERROR, out) (after cancelled start)) ∨
   (∃ fence, cancelBuffer (after first_request start) 0 fence
             = Done NO_ERROR (after cancelled start))).
  { right. exists (Some fence). compute_it. }
  split; [exact H1|].
  exact (proj1 (proj2 (slot_given_up _ _ _ H1)) (Some fence)).
Defined.

Lemma dequeueBuffer_then_cancelBuffer_witness :
  well_formed (after [connect_cpu] start) ∧
  dequeueBuffer (after [connect_cpu] start) 64 64 RGBA 0
  = Done (BuildReply NO_ERROR (Some 0) (Some Fence.NO_FENCE)) (after first_dequeue start) ∧
  0 <= NO_ERROR ∧
  ∃ p2, cancelBuffer (after first_dequeue start) 0 (Some fence) = Done NO_ERROR p2 ∧
        dequeued_slots p2 = dequeued_slots (after [connect_cpu] start).
Proof.
  assert (H1 : well_formed (after [connect_cpu] start)) by compute_it.
  assert (H2 : dequeueBuffer (after [connect_cpu] start) 64 64 RGBA 0
               = Done (BuildReply NO_ERROR (Some 0) (Some Fence.NO_FENCE))
                      (after first_dequeue start)) by compute_it.
  assert (H3 : 0 <= NO_ERROR) by compute_it.
  repeat (split; [assumption|]).
  destruct (dequeueBuffer_then_cancelBuffer _ 64 64 RGBA 0 _ _ 0 fence H1 H2 H3 eq_refl)
    as (p2 & Hc & _ & Hn).
  by exists p2.
Defined.

Lemma connect_then_disconnect_witness :
  connected_api_ (core_ start) = kNoConnectedApi ∧
  ∃ p1, connect start NATIVE_WINDOW_API_CPU true = (NO_ERROR, p1) ∧
        disconnect p1 NATIVE_WINDOW_API_CPU = (NO_ERROR, start).
Proof.
  assert (H1 : connected_api_ (core_ start) = kNoConnectedApi) by reflexivity.
  split; [exact H1|].
  destruct (proj2 (connect_then_disconnect start NATIVE_WINDOW_API_CPU true))
    as (p1 & Hc & _ & _ & _ & _ & _ & Hd).
  { split; [done|]. split; [exact H1|]. right. by left. }
  by exists p1.
Defined.

Lemma disconnect_keeps_slots_witness :
  NATIVE_WINDOW_API_CPU = connected_api_ (core_ (after first_dequeue start)) ∧
  ∃ p1, disconnect (after first_dequeue start) NATIVE_WINDOW_API_CPU = (NO_ERROR, p1) ∧
        buffers_ (core_ p1) = buffers_ (core_ (after first_dequeue start)).
Proof.
  assert (H1 : NATIVE_WINDOW_API_CPU
               = connected_api_ (core_ (after first_dequeue start))) by compute_it.
  split; [exact H1|].
  destruct (proj2 (disconnect_keeps_slots (after first_dequeue start)
                     NATIVE_WINDOW_API_CPU) H1) as (p1 & Hd & _ & Hb & _).
  by exists p1.
Defined.

Lemma not_connected_no_init_witness :
  connected_api_ (core_ start) = kNoConnectedApi ∧
  cancelBuffer start 99 None = Done NO_INIT start.
Proof.
  assert (H1 : connected_api_ (core_ start) = kNoConnectedApi) by reflexivity.
  split; [exact H1|].
  exact (proj1 (proj2 (proj2 (not_connected_no_init start H1))) 99 None).
Defined.

Lemma slots_step_legally_witness :
  enter (after [connect_cpu] start) (EntryCall (dequeue 64 64))
  = Done NO_ERROR (after first_dequeue start) ∧
  length (slot_states (after first_dequeue start))
  = length (slot_states (after [connect_cpu] start)).
Proof.
  assert (H1 : enter (after [connect_cpu] start) (EntryCall (dequeue 64 64))
               = Done NO_ERROR (after first_dequeue start)) by compute_it.
  split; [exact H1|].
  exact (proj1 (slots_step_legally _ _ _ _ H1)).
Defined.

Lemma well_formed_kept_witness :
  run_entries start
    ((EntryCall <$> one_frame) ++ [EntryAdmin (AdminSetDequeueTimeout 5000000)])
  = Some (snd (setDequeueTimeout (after one_frame start) 5000000)) ∧
  well_formed start ∧
  well_formed (snd (setDequeueTimeout (after one_frame start) 5000000)).
Proof.
  assert (H1 : run_entries start
    ((EntryCall <$> one_frame) ++ [EntryAdmin (AdminSetDequeueTimeout 5000000)])
    = Some (snd (setDequeueTimeout (after one_frame start) 5000000))) by compute_it.
  assert (H2 : well_formed start) by compute_it.
  repeat (split; [assumption|]).
  exact (well_formed_kept _ _ _ H1 H2).
Defined.

Lemma slot_reads_in_bounds_witness :
  well_formed start ∧ requestBuffer start 64 ≠ Undefined.
Proof.
  assert (H1 : well_formed start) by compute_it.
  split; [exact H1|].
  exact (proj1 (slot_reads_in_bounds start 64 None (input 64 64) None H1)).
Defined.

Lemma only_dequeueBuffer_marks_witness :
  Forall (λ e, ∀ w h f u, e ≠ EntryCall (CallDequeueBuffer w h f u))
         [EntryCall connect_cpu; EntryAdmin (AdminQuery NATIVE_WINDOW_WIDTH true)] ∧
  run_entries start
    [EntryCall connect_cpu; EntryAdmin (AdminQuery NATIVE_WINDOW_WIDTH true)]
  = Some (after [connect_cpu] start) ∧
  markers (after [connect_cpu] start) = markers start.
Proof.
  assert (H1 : Forall (λ e, ∀ w h f u, e ≠ EntryCall (CallDequeueBuffer w h f u))
    [EntryCall connect_cpu; EntryAdmin (AdminQuery NATIVE_WINDOW_WIDTH true)])
    by (repeat constructor; done).
  assert (H2 : run_entries start
    [EntryCall connect_cpu; EntryAdmin (AdminQuery NATIVE_WINDOW_WIDTH true)]
    = Some (after [connect_cpu] start)) by compute_it.
  repeat (split; [assumption|]).
  exact (only_dequeueBuffer_marks _ _ _ H1 H2).
Defined.

Lemma dequeueBuffer_out_of_buffers_witness :
  connected_api_ (core_ (after first_dequeue start)) ≠ kNoConnectedApi ∧
  kMaxQueueCapacity ≠ 0%nat ∧
  dequeueBuffer_fetches (after first_dequeue start) 64 64 RGBA 0
  = ([None], Done (failed NO_MEMORY) (after first_dequeue start)).
Proof.
  assert (H1 : connected_api_ (core_ (after first_dequeue start)) ≠ kNoConnectedApi)
    by compute_it.
  assert (H2 : @kMaxQueueCapacity _ hub64 ≠ 0%nat) by done.
  repeat (split; [assumption|]).
  rewrite (proj2 (dequeueBuffer_out_of_buffers (after first_dequeue start)
                    64 64 RGBA 0 H1 H2)); [compute_it|compute_it|compute_it].
Defined.

End MoreEvaluation.

(** * Reallocation across calls of dequeueBuffer *)

Section Reallocation.
Context {B : Type} `{HB : BufferHub B}.
Implicit Type p : Producer B.

(** The iteration in which the allocation fails ends the loop. *)
Lemma retry_loop_allocation_fails k n w h f u c1 cur c b slot buf fd s b' :
  reallocations k w h f u c1 = Some c →
  Dequeue (dequeue_timeout_ms_ c) (producer_ c) = (b, Some (slot, buf, fd)) →
  geometry_matches w h f buf = false →
  buffers_ c !! slot = Some s →
  Allocate w h f u 1 (Detach slot b) = (b', None) →
  ∃ fs,
    retry_loop (k + S n) w h f u c1 cur
    = (fs, ExitAllocFailed NO_MEMORY
             (set_buffers_ (<[slot := abandoned s]> (buffers_ c)) (set_producer_ b' c))) ∧
    length fs = S k ∧ last fs = Some (Some (slot, buf)).
Proof.
  revert c1 cur. induction k as [|k IH]; intros c1 cur Hk Hd Hgeo Hs Ha.
  - simpl in Hk. injection Hk as ->. simpl. rewrite Hd, Hgeo.
    unfold update_slot at 1. simpl. rewrite Hs.
    assert (Hi : (slot < length (buffers_ c))%nat) by (by eapply lookup_lt_Some).
    unfold DetachBuffer, update_slot. simpl.
    rewrite list_lookup_insert_eq by done.
    unfold AllocateBuffer. simpl. rewrite Ha. simpl.
    rewrite list_insert_insert_eq. eexists. split; [reflexivity|]. done.
  - simpl in Hk. simpl.
    destruct (Dequeue (dequeue_timeout_ms_ c1) (producer_ c1))
      as [b0 [[[slot0 buf0] fd0]|]]; [|done].
    destruct (geometry_matches w h f buf0) eqn:Hgeo0; [done|].
    destruct (update_slot _ _ _) as [c2|]; [|done].
    destruct (DetachBuffer _ _) as [c3|]; [|done].
    destruct (AllocateBuffer _ _ _ _ _ _) as [ret c4| |]; [|done..].
    destruct (ret <? 0); [done|].
    destruct (IH c4 (Some (slot0, buf0)) Hk Hd Hgeo Hs Ha) as (fs & -> & Hlen & Hlast).
    eexists. split; [reflexivity|]. split; [simpl; by rewrite Hlen|].
    rewrite last_cons, Hlast. done.
Qed.


(** C10: when, in some iteration of the retry loop of [dequeueBuffer], the
    broker hands out a buffer that does not match and then fails to allocate
    the replacement, the call returns NO_MEMORY, the error of the
    allocation, and writes no slot number.  Nothing is rolled back: the
    producer is left with the core of that iteration, in which the slot of
    the buffer keeps its state, has its marker [mIsReallocating] up and holds
    neither buffer nor wrapper, and with the broker as the detach and the
    failed allocation left it; the slots replaced in the iterations before
    stay replaced.  So the producer is not the one the call started with,
    if that slot held a buffer or was not marked. *)
Theorem dequeueBuffer_failed_allocation_not_rolled_back
    p w h f u ret c1 k c b slot buf fd s b' :
  connected_api_ (core_ p) ≠ kNoConnectedApi →
  lazy_allocation p w h f u = Done ret c1 →
  0 <= ret →
  (k < kMaxQueueCapacity)%nat →
  reallocations k w h f u c1 = Some c →
  Dequeue (dequeue_timeout_ms_ c) (producer_ c) = (b, Some (slot, buf, fd)) →
  geometry_matches w h f buf = false →
  buffers_ c !! slot = Some s →
  Allocate w h f u 1 (Detach slot b) = (b', None) →
  ∃ fs p',
    dequeueBuffer_fetches p w h f u = (fs, Done (failed NO_MEMORY) p') ∧
    dequeueBuffer p w h f u = Done (failed NO_MEMORY) p' ∧
    length fs = S k ∧
    last fs = Some (Some (slot, buf)) ∧
    p' = set_core_ (set_buffers_ (<[slot := abandoned s]> (buffers_ c))
                                 (set_producer_ b' c)) p ∧
    producer_ (core_ p') = b' ∧
    buffers_ (core_ p') !! slot = Some (abandoned s) ∧
    BufferHubSlot.mBufferState (abandoned s) = BufferHubSlot.mBufferState s ∧
    BufferHubSlot.mIsReallocating (abandoned s) = true ∧
    BufferHubSlot.mBufferProducer (abandoned s) = None ∧
    BufferHubSlot.mGraphicBuffer (abandoned s) = None ∧
    ∃ s0,
      buffers_ (core_ p) !! slot = Some s0 ∧
      BufferHubSlot.mBufferState s0 = BufferHubSlot.mBufferState s ∧
      (is_Some (BufferHubSlot.mBufferProducer s0) ∨
       BufferHubSlot.mIsReallocating s0 = false → p' ≠ p).
Proof.
  intros Hconn Hlazy Hret Hk Hc Hd Hgeo Hs Ha.
  destruct (retry_loop_allocation_fails k (kMaxQueueCapacity - S k) w h f u c1 None
              c b slot buf fd s b' Hc Hd Hgeo Hs Ha) as (fs & Hloop & Hlen & Hlast).
  replace (k + S (kMaxQueueCapacity - S k))%nat with kMaxQueueCapacity in Hloop by lia.
  assert (Hi : (slot < length (buffers_ c))%nat) by (by eapply lookup_lt_Some).
  assert (Hf : dequeueBuffer_fetches p w h f u
               = (fs, Done (failed NO_MEMORY)
                        (set_core_ (set_buffers_ (<[slot := abandoned s]> (buffers_ c))
                                                 (set_producer_ b' c)) p))).
  { unfold dequeueBuffer_fetches.
    apply Z.eqb_neq in Hconn. rewrite Hconn, Hlazy.
    apply Z.ltb_ge in Hret. rewrite Hret, Hloop. done. }
  exists fs, (set_core_ (set_buffers_ (<[slot := abandoned s]> (buffers_ c))
                                     (set_producer_ b' c)) p).
  split; [exact Hf|]. split; [unfold dequeueBuffer; by rewrite Hf|].
  split; [done|]. split; [done|]. split; [done|]. split; [done|].
  split; [simpl; by apply list_lookup_insert_eq|].
  split; [done|]. split; [done|]. split; [done|]. split; [done|].
  destruct (dequeueBuffer_failure _ _ _ _ _ _ _ _ Hf ltac:(done))
    as (_ & _ & Hcar & _).
  simpl in Hcar.
  assert (Hs' : <[slot := abandoned s]> (buffers_ c) !! slot = Some (abandoned s))
    by (by apply list_lookup_insert_eq).
  destruct (carried_length _ _ _ _ _ Hcar Hs') as [s0 Hs0].
  destruct (proj2 Hcar _ _ Hs0) as (s'' & Hs'' & Hst & _ & Hm).
  assert (s'' = abandoned s) as -> by congruence.
  exists s0. split; [done|]. split; [by rewrite <- Hst|].
  intros Hor Heq. apply (f_equal (λ q, buffers_ (core_ q) !! slot)) in Heq.
  simpl in Heq. rewrite Hs', Hs0 in Heq. injection Heq as <-.
  destruct Hor as [[x Hx]|Hx]; simpl in Hx; congruence.
Qed.

(** ** The marker of a slot across calls of dequeueBuffer *)

(** A call of [dequeueBuffer] raises the marker of no slot whose buffer it
    does not reallocate. *)
Lemma dequeueBuffer_marker p w h f u fs r p' j s :
  dequeueBuffer_fetches p w h f u = (fs, Done r p') →
  buffers_ (core_ p) !! j = Some s →
  ∃ s', buffers_ (core_ p') !! j = Some s' ∧
        (BufferHubSlot.mIsReallocating s' = true →
         BufferHubSlot.mIsReallocating s || reallocated w h f j fs = true).
Proof.
  intros H Hs.
  assert (Hcar : ∀ c : Core B, carried (λ i, reallocated w h f i fs) (buffers_ (core_ p)) (buffers_ c) →
            ∃ s', buffers_ c !! j = Some s' ∧
                  (BufferHubSlot.mIsReallocating s' = true →
                   BufferHubSlot.mIsReallocating s || reallocated w h f j fs = true)).
  { intros c Hc. destruct (proj2 Hc _ _ Hs) as (s' & Hs' & _ & _ & Hm).
    exists s'. split; [done|]. by rewrite <- Hm. }
  destruct (Z.le_gt_cases 0 (status r)) as [Hok|Hbad].
  - revert H. unfold dequeueBuffer_fetches.
    destruct (connected_api_ (core_ p) =? kNoConnectedApi).
    { intros [= <- <- <-]. by simpl in Hok. }
    destruct (lazy_allocation p w h f u) as [ret c1| |] eqn:Hlazy; [|done..].
    destruct (ret <? 0) eqn:Hret.
    { intros [= <- <- <-]. simpl in Hok. apply Z.ltb_lt in Hret. lia. }
    destruct (retry_loop _ _ _ _ _ _ _) as [fs' e] eqn:Hloop.
    intros [= <- Hacc].
    apply lazy_allocation_carried in Hlazy as (Hc1 & _ & _).
    assert (Hfin : ∃ slot c2, exit_core e = Some c2 ∧ accept_slot p c2 slot = Done r p').
    { destruct e as [slot buf c2|[[slot buf]|] c2|c2|ret' c2|]; try done.
      - by exists slot, c2.
      - by exists slot, c2.
      - injection Hacc as <- <-. by simpl in Hok.
      - apply retry_loop_exit in Hloop as [_ [-> _]].
        injection Hacc as <- <-. by simpl in Hok. }
    destruct Hfin as (slot & c2 & Hc2 & Hacc').
    pose proof (retry_loop_carried _ _ _ _ _ _ _ _ _ _ Hloop Hc2) as Hc12.
    assert (Hc : carried (λ i, reallocated w h f i fs') (buffers_ (core_ p)) (buffers_ c2)).
    { eapply carried_ext; [|exact (carried_trans _ _ _ _ _ Hc1 Hc12)]. done. }
    apply accept_slot_done in Hacc' as (s2 & Hs2 & _ & _ & ->). simpl.
    destruct (decide (slot = j)) as [->|Hne].
    + eexists. split; [apply list_lookup_insert_eq; by eapply lookup_lt_Some|].
      simpl. done.
    + rewrite list_lookup_insert_ne by done. by apply Hcar.
  - destruct (dequeueBuffer_failure _ _ _ _ _ _ _ _ H Hbad) as (_ & _ & Hc & _).
    by apply Hcar.
Qed.

(** The marker of a slot stays down along a sequence of calls in which no
    call of [dequeueBuffer] reallocates the buffer of the slot. *)
Lemma run_leaves_marker slot calls p p1 :
  leaves_buffer slot p calls →
  run p calls = Some p1 →
  markers p !! slot = Some false →
  markers p1 !! slot = Some false.
Proof.
  revert p. induction calls as [|call calls IH]; intros p Hl Hrun Hm.
  { by simplify_eq/=. }
  simpl in Hl, Hrun. destruct Hl as [Hcall Hrest].
  destruct (perform p call) as [r p2| |] eqn:Hp; [|done..].
  apply (IH p2 Hrest Hrun).
  assert (Hcases : not_dequeue call ∨ ∃ w h f u, call = CallDequeueBuffer w h f u).
  { destruct call; simpl; eauto 6. }
  destruct Hcases as [Hnd|(w & h & f & u & ->)].
  - by rewrite (perform_not_dequeue_markers _ _ _ _ Hnd Hp).
  - simpl in Hp.
    destruct (dequeueBuffer p w h f u) as [r0 p0| |] eqn:Hdq; [|done..].
    injection Hp as <- <-.
    apply dequeueBuffer_with_fetches in Hdq as [fs Hdq].
    rewrite Hdq in Hcall. simpl in Hcall.
    unfold markers in *. rewrite list_lookup_fmap in Hm |- *.
    destruct (buffers_ (core_ p) !! slot) as [s|] eqn:Hs; [|done].
    injection Hm as Hm.
    destruct (dequeueBuffer_marker _ _ _ _ _ _ _ _ _ _ Hdq Hs) as (s' & -> & Himp).
    simpl. f_equal. destruct (BufferHubSlot.mIsReallocating s'); [|done].
    specialize (Himp eq_refl). rewrite Hm, Hcall in Himp. done.
Qed.

(** C7: a call of [dequeueBuffer] that succeeds returns the slot of the last
    answer of the broker together with [Fence::NO_FENCE]; it leaves the
    marker [mIsReallocating] of that slot down; and its status is
    BUFFER_NEEDS_REALLOCATION when the marker was up or the call reallocated
    the buffer of the slot it returns, and NO_ERROR otherwise.  So a call
    that reallocated the slot it returns reports the flag; and a later call
    of [dequeueBuffer] that returns this slot does not report it unless the
    buffer of the slot was reallocated again, by that call or by a call of
    [dequeueBuffer] in between: whatever operations are called in between,
    further calls of [dequeueBuffer] among them, the status is NO_ERROR. *)
Theorem dequeueBuffer_reports_reallocation_once p w h f u fs r p' :
  dequeueBuffer_fetches p w h f u = (fs, Done r p') →
  0 <= status r →
  ∃ slot buf s s',
    last fs = Some (Some (slot, buf)) ∧
    out_slot r = Some (to_int32 (Z.of_nat slot)) ∧
    out_fence r = Some Fence.NO_FENCE ∧
    buffers_ (core_ p) !! slot = Some s ∧
    buffers_ (core_ p') !! slot = Some s' ∧
    BufferHubSlot.mIsReallocating s' = false ∧
    status r = (if BufferHubSlot.mIsReallocating s || reallocated w h f slot fs
                then BUFFER_NEEDS_REALLOCATION else NO_ERROR) ∧
    (reallocated w h f slot fs = true → status r = BUFFER_NEEDS_REALLOCATION) ∧
    ∀ calls p1 w2 h2 f2 u2 fs2 r2 p2 buf2,
      leaves_buffer slot p' calls →
      run p' calls = Some p1 →
      dequeueBuffer_fetches p1 w2 h2 f2 u2 = (fs2, Done r2 p2) →
      0 <= status r2 →
      last fs2 = Some (Some (slot, buf2)) →
      reallocated w2 h2 f2 slot fs2 = false →
      status r2 = NO_ERROR.
Proof.
  intros H Hok.
  destruct (dequeueBuffer_success _ _ _ _ _ _ _ _ H Hok)
    as (slot & buf & s & s' & Hlast & _ & _ & Hs & _ & Hs' & _ & Hm' & _ & -> & _).
  exists slot, buf, s, s'. simpl.
  repeat (split; [done|]). split.
  { intros ->. by rewrite orb_true_r. }
  intros calls p1 w2 h2 f2 u2 fs2 r2 p2 buf2 Hnd Hrun H2 Hok2 Hlast2 Hno.
  destruct (dequeueBuffer_success _ _ _ _ _ _ _ _ H2 Hok2)
    as (slot2 & buf2' & s1 & _ & Hl & _ & _ & Hs1 & _ & _ & _ & _ & _ & -> & _).
  rewrite Hlast2 in Hl. injection Hl as <- <-. simpl.
  assert (Hmk : markers p' !! slot = Some false).
  { unfold markers. by rewrite list_lookup_fmap, Hs', <- Hm'. }
  pose proof (run_leaves_marker _ _ _ _ Hnd Hrun Hmk) as Hmk1.
  unfold markers in Hmk1. rewrite list_lookup_fmap, Hs1 in Hmk1. simpl in Hmk1.
  injection Hmk1 as Hmk1. by rewrite Hmk1, Hno.
Qed.

End Reallocation.

Section ReallocationEvaluation.
Import Scenario.

Ltac reckon := vm_compute; repeat split; try done; eauto.

Lemma dequeueBuffer_reports_reallocation_once_witness :
  dequeueBuffer_fetches (after one_free_buffer start) 128 128 RGBA 0
  = ([Some (0%nat, buffer0); Some (0%nat, buffer1)],
     Done (BuildReply BUFFER_NEEDS_REALLOCATION (Some 0) (Some Fence.NO_FENCE))
          (after reallocated_slot start)) ∧
  0 <= BUFFER_NEEDS_REALLOCATION ∧
  BufferHubSlot.mIsReallocating (slot_of (after reallocated_slot start) 0) = false ∧
  leaves_buffer 0 (after reallocated_slot start) second_buffer ∧
  dequeueBuffer (after (reallocated_slot ++ [CallSetMaxDequeuedBufferCount 2]) start)
                128 128 RGBA 0
  = Done (BuildReply NO_ERROR (Some 1) (Some Fence.NO_FENCE))
         (after (reallocated_slot ++ [CallSetMaxDequeuedBufferCount 2; dequeue 128 128])
                start) ∧
  dequeueBuffer_fetches (after (reallocated_slot ++ second_buffer) start) 128 128 RGBA 0
  = ([Some (0%nat, buffer1)],
     Done (BuildReply NO_ERROR (Some 0) (Some Fence.NO_FENCE))
          (after (reallocated_slot ++ second_buffer ++ [dequeue 128 128]) start)).
Proof.
  assert (H1 : dequeueBuffer_fetches (after one_free_buffer start) 128 128 RGBA 0
    = ([Some (0%nat, buffer0); Some (0%nat, buffer1)],
       Done (BuildReply BUFFER_NEEDS_REALLOCATION (Some 0) (Some Fence.NO_FENCE))
            (after reallocated_slot start))) by reckon.
  assert (H2 : 0 <= BUFFER_NEEDS_REALLOCATION) by reckon.
  split; [exact H1|]. split; [exact H2|].
  destruct (dequeueBuffer_reports_reallocation_once _ _ _ _ _ _ _ _ H1 H2)
    as (slot & buf & s & s' & Hl & _ & _ & _ & Hs' & Hm & _ & _ & Hnext).
  injection Hl as <- <-. split.
  { unfold slot_of. rewrite Hs'. exact Hm. }
  assert (Hleaves : leaves_buffer 0 (after reallocated_slot start) second_buffer)
    by reckon.
  split; [exact Hleaves|]. split; [reckon|].
  assert (H3 : ∃ r2,
    dequeueBuffer_fetches (after (reallocated_slot ++ second_buffer) start) 128 128 RGBA 0
    = ([Some (0%nat, buffer1)],
       Done r2 (after (reallocated_slot ++ second_buffer ++ [dequeue 128 128]) start)) ∧
    0 <= status r2 ∧ out_slot r2 = Some 0 ∧ out_fence r2 = Some Fence.NO_FENCE).
  { eexists. split; [vm_compute; reflexivity|]. reckon. }
  destruct H3 as ([st sl fe] & H3 & H4 & Hsl & Hfe).
  simpl in Hsl, Hfe. subst sl fe.
  assert (H5 : status (BuildReply st (Some 0) (Some Fence.NO_FENCE)) = NO_ERROR).
  { apply (Hnext second_buffer (after (reallocated_slot ++ second_buffer) start)
                 128 128 RGBA 0 _ _ _ buffer1 Hleaves
                 ltac:(reckon) H3 H4 eq_refl).
    reckon. }
  simpl in H5. subst st. exact H3.
Defined.

Lemma dequeueBuffer_failed_allocation_not_rolled_back_witness :
  ∃ p',
    dequeueBuffer (after two_free_buffers narrow) 128 128 RGBA 0
    = Done (failed NO_MEMORY) p' ∧
    BufferHubSlot.mBufferProducer (slot_of p' 0)
    = Some (BufferProducer.Build 2 128 128 RGBA 0 128) ∧
    BufferHubSlot.mIsReallocating (slot_of p' 1) = true ∧
    BufferHubSlot.mBufferProducer (slot_of p' 1) = None ∧
    BufferHubSlot.mBufferState (slot_of p' 1) = BufferState.Free ∧
    Fifo.capacity (producer_ (core_ p')) = 1%nat.
Proof.
  edestruct (dequeueBuffer_failed_allocation_not_rolled_back
               (after two_free_buffers narrow) 128 128 RGBA 0 NO_ERROR
               (core_ (after two_free_buffers narrow)) 1%nat)
    as (fs & p' & _ & Hd & _ & _ & Hp' & _);
    [ vm_compute; done
    | vm_compute; reflexivity
    | done
    | vm_compute; lia
    | vm_compute; reflexivity
    | vm_compute; reflexivity
    | vm_compute; reflexivity
    | vm_compute; reflexivity
    | vm_compute; reflexivity
    | ].
  exists p'. split; [exact Hd|]. subst p'. reckon.
Defined.

End ReallocationEvaluation.

(** * The producer on a broker that keeps its contract *)

(** ** Counting the buffers of the broker *)

Lemma occupied_le_length (l : list (option BufferProducer.t)) :
  (occupied l ≤ length l)%nat.
Proof. induction l as [|[x|] l IH]; simpl; lia. Qed.

Lemma mismatching_le_occupied w h f (l : list (option BufferProducer.t)) :
  (mismatching w h f l ≤ occupied l)%nat.
Proof.
  induction l as [|[x|] l IH]; simpl; [lia| |lia].
  destruct (geometry_matches w h f x); lia.
Qed.

Lemma occupied_insert_None (l : list (option BufferProducer.t)) i buf :
  l !! i = Some (Some buf) → S (occupied (<[i := None]> l)) = occupied l.
Proof.
  revert i. induction l as [|x l IH]; intros [|i] H; simplify_eq/=; [done|].
  specialize (IH i H). destruct x; lia.
Qed.

Lemma occupied_insert_Some (l : list (option BufferProducer.t)) i buf :
  l !! i = Some None → occupied (<[i := Some buf]> l) = S (occupied l).
Proof.
  revert i. induction l as [|x l IH]; intros [|i] H; simplify_eq/=; [done|].
  specialize (IH i H). destruct x; lia.
Qed.

Lemma mismatching_insert_None w h f (l : list (option BufferProducer.t)) i buf :
  l !! i = Some (Some buf) →
  geometry_matches w h f buf = false →
  S (mismatching w h f (<[i := None]> l)) = mismatching w h f l.
Proof.
  revert i. induction l as [|x l IH]; intros [|i] H Hg; simplify_eq/=.
  - by rewrite Hg.
  - specialize (IH i H Hg). destruct x as [x|]; [|lia].
    destruct (geometry_matches w h f x); lia.
Qed.

Lemma mismatching_insert_Some w h f (l : list (option BufferProducer.t)) i buf :
  l !! i = Some None →
  geometry_matches w h f buf = true →
  mismatching w h f (<[i := Some buf]> l) = mismatching w h f l.
Proof.
  revert i. induction l as [|x l IH]; intros [|i] H Hg; simplify_eq/=.
  - by rewrite Hg.
  - specialize (IH i H Hg). destruct x as [x|]; [|lia].
    destruct (geometry_matches w h f x); lia.
Qed.

(** When every slot holds a buffer and none of the buffers mismatches,
    each slot holds a matching buffer. *)
Lemma occupied_full (l : list (option BufferProducer.t)) j x :
  occupied l = length l → l !! j = Some x → is_Some x.
Proof.
  revert j. induction l as [|y l IH]; intros [|j] Hfull H; simplify_eq/=.
  - destruct x; [done|]. pose proof (occupied_le_length l). lia.
  - destruct y; [|pose proof (occupied_le_length l); lia].
    apply (IH j); [lia|done].
Qed.

Lemma mismatching_none w h f (l : list (option BufferProducer.t)) j buf :
  mismatching w h f l = 0%nat → l !! j = Some (Some buf) →
  geometry_matches w h f buf = true.
Proof.
  revert j. induction l as [|y l IH]; intros [|j] Hnone H; simplify_eq/=.
  - by destruct (geometry_matches w h f buf).
  - apply (IH j); [|done]. destruct y as [y|]; [|done].
    by destruct (geometry_matches w h f y).
Qed.

(** No more slots are dequeued than hold a buffer, when each dequeued slot
    holds one. *)
Lemma dequeued_count_le_occupied (l : list BufferHubSlot.t) :
  (∀ j s, l !! j = Some s →
     BufferHubSlot.mBufferState s = BufferState.Dequeued →
     is_Some (BufferHubSlot.mBufferProducer s)) →
  (dequeued_count l ≤ occupied (BufferHubSlot.mBufferProducer <$> l))%nat.
Proof.
  induction l as [|s l IH]; intros H; [simpl; lia|].
  assert (IH' := IH (λ j, H (S j))).
  rewrite fmap_cons. cbn [dequeued_count occupied].
  destruct (BufferState.isDequeued (BufferHubSlot.mBufferState s)) eqn:Hd.
  - destruct (H 0%nat s eq_refl) as [x Hx]; [by destruct (BufferHubSlot.mBufferState s)|].
    rewrite Hx. lia.
  - destruct (BufferHubSlot.mBufferProducer s); lia.
Qed.

Lemma geometry_matches_fields w h f buf :
  geometry_matches w h f buf = true →
  BufferProducer.width buf = to_int32 w ∧
  BufferProducer.height buf = to_int32 h ∧
  BufferProducer.format buf = to_int32 f.
Proof.
  unfold geometry_matches. rewrite !andb_true_iff, !Z.eqb_eq. by intros [[-> ->] ->].
Qed.

Section ContractProperties.
Context {B : Type} `{HB : BufferHub B} `{HV : BufferHubView B}.
Implicit Type p : Producer B.
Implicit Type c : Core B.

(** ** The table and the broker across the steps of the core *)

Lemma coherent_lookup c j s :
  coherent c → buffers_ c !! j = Some s →
  held (producer_ c) !! j = Some (BufferHubSlot.mBufferProducer s).
Proof.
  intros (_ & _ & <-) Hs. by rewrite list_lookup_fmap, Hs.
Qed.

Lemma coherent_in_table c j x :
  coherent c → held (producer_ c) !! j = Some x →
  ∃ s, buffers_ c !! j = Some s ∧ BufferHubSlot.mBufferProducer s = x.
Proof.
  intros (_ & _ & <-). rewrite list_lookup_fmap.
  destruct (buffers_ c !! j) as [s|]; [|done]. intros [= <-]. by exists s.
Qed.

Lemma not_offered (b b' : B) j :
  (available b' j = true → available b j = true) →
  available b j = false → available b' j = false.
Proof. destruct (available b' j); [|done]. intros H. rewrite H; done. Qed.

(** The producer goes on owning what it dequeued when no slot becomes
    dequeued and each dequeued slot keeps a buffer that is not offered. *)
Lemma owned_transfer c c' :
  (∀ j s', buffers_ c' !! j = Some s' →
     BufferHubSlot.mBufferState s' = BufferState.Dequeued →
     ∃ s, buffers_ c !! j = Some s ∧
          BufferHubSlot.mBufferState s = BufferState.Dequeued) →
  (∀ j s buf, buffers_ c !! j = Some s →
     BufferHubSlot.mBufferState s = BufferState.Dequeued →
     held (producer_ c) !! j = Some (Some buf) →
     available (producer_ c) j = false →
     (∃ buf', held (producer_ c') !! j = Some (Some buf')) ∧
     available (producer_ c') j = false) →
  owned c → owned c'.
Proof.
  intros Hback Hkeep Ho j s' Hs' Hd.
  destruct (Hback j s' Hs' Hd) as (s & Hs & Hds).
  destruct (Ho j s Hs Hds) as [[buf Hbuf] Hav]. by eapply Hkeep.
Qed.

(** A slot of the table that is changed keeping its state. *)
Lemma insert_state_back (l : list BufferHubSlot.t) i s t j s' :
  l !! i = Some s →
  (BufferHubSlot.mBufferState t = BufferState.Dequeued →
   BufferHubSlot.mBufferState s = BufferState.Dequeued) →
  <[i := t]> l !! j = Some s' →
  BufferHubSlot.mBufferState s' = BufferState.Dequeued →
  ∃ s0, l !! j = Some s0 ∧ BufferHubSlot.mBufferState s0 = BufferState.Dequeued.
Proof.
  intros Hs Ht Hj Hd. destruct (decide (i = j)) as [<-|Hne].
  - rewrite list_lookup_insert_eq in Hj by (by eapply lookup_lt_Some).
    injection Hj as <-. exists s. by auto.
  - rewrite list_lookup_insert_ne in Hj by done. by exists s'.
Qed.

Lemma fmap_insert_same (l : list BufferHubSlot.t) i s t :
  l !! i = Some s →
  BufferHubSlot.mBufferProducer t = BufferHubSlot.mBufferProducer s →
  BufferHubSlot.mBufferProducer <$> <[i := t]> l = BufferHubSlot.mBufferProducer <$> l.
Proof.
  intros Hs Ht. rewrite list_fmap_insert. apply list_insert_id.
  by rewrite list_lookup_fmap, Hs, Ht.
Qed.

(** The table with one slot changed, buffer and state of the slot kept, on
    the same broker. *)
Lemma insert_coherent c i s t :
  buffers_ c !! i = Some s →
  BufferHubSlot.mBufferProducer t = BufferHubSlot.mBufferProducer s →
  coherent c → coherent (set_buffers_ (<[i := t]> (buffers_ c)) c).
Proof.
  intros Hs Ht (Hsound & Hlen & Hfmap). split; [done|]. simpl.
  split; [by rewrite length_insert|]. by rewrite (fmap_insert_same _ _ s).
Qed.

Lemma insert_owned c i s t :
  buffers_ c !! i = Some s →
  (BufferHubSlot.mBufferState t = BufferState.Dequeued →
   BufferHubSlot.mBufferState s = BufferState.Dequeued) →
  owned c → owned (set_buffers_ (<[i := t]> (buffers_ c)) c).
Proof.
  intros Hs Ht. apply owned_transfer.
  - intros j s' Hj Hd. by eapply insert_state_back.
  - intros j s0 buf _ _ Hb Ha. simpl. by eauto.
Qed.

(** What a successful [queueBuffer] and a successful [cancelBuffer] leave:
    the slot is queued, or free with its fence, and the buffer was posted, or
    returned to the broker. *)
Lemma queueBuffer_posts p slot input output out p' :
  queueBuffer p slot input output = Done (NO_ERROR, out) p' →
  ∃ s buf fd ts,
    buffers_ (core_ p) !! Z.to_nat slot = Some s ∧
    BufferHubSlot.mBufferState s = BufferState.Dequeued ∧
    p' = set_core_
           (set_buffers_
              (<[Z.to_nat slot := BufferHubSlot.set_mBufferState BufferState.Queued s]>
                 (buffers_ (core_ p)))
              (set_producer_ (Post buf fd ts (producer_ (core_ p))) (core_ p))) p.
Proof.
  unfold queueBuffer. intros Hq.
  destruct output as [o0|]; [|by inversion Hq].
  destruct (valid_scaling_mode _); simpl in Hq; [|by inversion Hq].
  destruct (QueueBufferInput.fence input) as [fence|]; [|by inversion Hq].
  destruct (connected_api_ (core_ p) =? kNoConnectedApi) eqn:Hc; [by inversion Hq|].
  destruct (slot_out_of_range p slot) eqn:Hr; [by inversion Hq|].
  destruct (buffers_ (core_ p) !! Z.to_nat slot) as [s|] eqn:Hs; [|done].
  destruct (BufferHubSlot.mBufferState s) eqn:Hst; simpl in Hq;
    try by inversion Hq.
  destruct (negb (BufferHubSlot.mRequestBufferCalled s) || _); [by inversion Hq|].
  destruct (BufferHubSlot.mBufferProducer s) as [buf|] eqn:Hbuf; [|done].
  destruct (Rect.neq _ _); [by inversion Hq|].
  injection Hq as <- <-. eexists s, buf, _, _. by rewrite Hst.
Qed.

Lemma cancelBuffer_enqueues p slot fence p' :
  cancelBuffer p slot fence = Done NO_ERROR p' →
  ∃ s,
    buffers_ (core_ p) !! Z.to_nat slot = Some s ∧
    BufferHubSlot.mBufferState s = BufferState.Dequeued ∧
    p' = set_core_
           (set_buffers_
              (<[Z.to_nat slot := BufferHubSlot.set_mFence fence
                                    (BufferHubSlot.set_mBufferState BufferState.Free s)]>
                 (buffers_ (core_ p)))
              (set_producer_
                 (Enqueue (BufferHubSlot.mBufferProducer s) (Z.to_nat slot)
                          (producer_ (core_ p)))
                 (core_ p))) p.
Proof.
  unfold cancelBuffer. intros Hq.
  destruct (connected_api_ (core_ p) =? kNoConnectedApi) eqn:Hc; [by inversion Hq|].
  destruct (slot_out_of_range p slot) eqn:Hr; [by inversion Hq|].
  destruct (buffers_ (core_ p) !! Z.to_nat slot) as [s|] eqn:Hs; [|done].
  destruct (BufferHubSlot.mBufferState s) eqn:Hst; simpl in Hq;
    try by inversion Hq.
  destruct fence as [fe|]; [|by inversion Hq].
  injection Hq as <-. exists s. by rewrite Hst.
Qed.

(** A dequeued slot of the changed table was dequeued before. *)
Ltac state_back :=
  eapply insert_state_back; [eassumption| |eassumption|eassumption]; simpl; by auto.

Section Lawful.
Hypothesis Hlaw : lawful.

(** What [Dequeue] tells in a coherent state. *)
Lemma fetch_coherent c b r :
  coherent c →
  Dequeue (dequeue_timeout_ms_ c) (producer_ c) = (b, r) →
  coherent (set_producer_ b c) ∧
  held b = held (producer_ c) ∧
  (owned c → owned (set_producer_ b c)) ∧
  ∀ slot buf fd, r = Some (slot, buf, fd) →
    held b !! slot = Some (Some buf) ∧
    available b slot = false ∧
    ∃ s, buffers_ c !! slot = Some s ∧
         BufferHubSlot.mBufferProducer s = Some buf ∧
         (owned c → BufferHubSlot.mBufferState s ≠ BufferState.Dequeued).
Proof.
  intros Hc Hd. pose proof Hc as (Hsound & Hlen & Hfmap).
  destruct (law_Dequeue Hlaw _ _ _ _ Hsound Hd) as (Hsound' & Hheld & Hav & Hr).
  split; [|split; [done|split]].
  - split; [done|]. simpl. split; [done|]. by rewrite Hheld.
  - apply owned_transfer; [by eauto|]. simpl.
    intros j s buf _ _ Hb Ha. rewrite Hheld. split; [by eauto|].
    by apply (not_offered (producer_ c)); [apply Hav|].
  - intros slot buf fd ->. destruct (Hr slot buf fd eq_refl) as (Hb & Ha & Ha').
    rewrite Hheld. split; [done|]. split; [done|].
    destruct (coherent_in_table c slot _ Hc Hb) as (s & Hs & Hsb).
    exists s. split; [done|]. split; [done|].
    intros Ho Hst. destruct (Ho slot s Hs Hst) as [_ Hno]. congruence.
Qed.

(** What [DetachBuffer] does to a slot that is not dequeued. *)
Lemma DetachBuffer_coherent slot c s :
  coherent c →
  buffers_ c !! slot = Some s →
  ∃ c', DetachBuffer slot c = Some c' ∧
        coherent c' ∧
        held (producer_ c') = <[slot := None]> (held (producer_ c)) ∧
        (owned c → BufferHubSlot.mBufferState s ≠ BufferState.Dequeued → owned c').
Proof.
  intros (Hsound & Hlen & Hfmap) Hs. unfold DetachBuffer, update_slot. simpl.
  rewrite Hs. eexists. split; [reflexivity|].
  destruct (law_Detach Hlaw slot _ Hsound) as (Hsound' & Hheld & Hav).
  split; [|split; [done|]].
  - split; [done|]. simpl. split; [by rewrite length_insert|].
    by rewrite list_fmap_insert, Hfmap, Hheld.
  - intros Ho Hst. revert Ho. apply owned_transfer; simpl.
    + intros j s' Hj Hd. by state_back.
    + intros j s0 buf Hj Hd Hb Ha.
      assert (slot ≠ j) by (intros ->; congruence).
      rewrite Hheld, list_lookup_insert_ne by done. split; [by eauto|].
      by apply (not_offered (producer_ c)); [apply Hav|].
Qed.

(** [AllocateBuffer] in a coherent state: it fails and changes no slot, or
    puts a matching buffer into a vacant slot. *)
Lemma AllocateBuffer_coherent w h f u n c :
  coherent c →
  ∃ ret c', AllocateBuffer w h f u n c = Done ret c' ∧
    coherent c' ∧ (owned c → owned c') ∧
    ((ret = NO_MEMORY ∧ held (producer_ c') = held (producer_ c)) ∨
     (ret = NO_ERROR ∧ ∃ slot buf,
        held (producer_ c) !! slot = Some None ∧
        held (producer_ c') = <[slot := Some buf]> (held (producer_ c)) ∧
        geometry_matches w h f buf = true)).
Proof.
  intros Hc. pose proof Hc as (Hsound & Hlen & Hfmap). unfold AllocateBuffer.
  destruct (Allocate w h f u n (producer_ c)) as [b [[slot buf]|]] eqn:Ha.
  - destruct (law_Allocate Hlaw _ _ _ _ _ _ _ _ Hsound Ha)
      as (Hsound' & Hvac & Hheld & Hgeo & Hav).
    destruct (coherent_in_table c slot _ Hc Hvac) as (s & Hs & Hsb).
    unfold update_slot. simpl. rewrite Hs.
    eexists _, _. split; [reflexivity|]. split; [|split].
    + split; [done|]. simpl. split; [by rewrite length_insert|].
      by rewrite list_fmap_insert, Hfmap, Hheld.
    + apply owned_transfer; simpl.
      * intros j s' Hj Hd. by state_back.
      * intros j s0 buf0 Hj Hd Hb Hno.
        assert (slot ≠ j) by (intros ->; congruence).
        rewrite Hheld, list_lookup_insert_ne by done. split; [by eauto|].
        apply (not_offered (producer_ c)); [|done]. by apply Hav.
    + right. split; [done|]. by exists slot, buf.
  - destruct (law_Allocate Hlaw _ _ _ _ _ _ _ _ Hsound Ha) as (Hsound' & Hheld & Hav).
    eexists _, _. split; [reflexivity|]. split; [|split].
    + split; [done|]. simpl. split; [done|]. by rewrite Hheld.
    + apply owned_transfer; simpl; [by eauto|].
      intros j s0 buf0 Hj Hd Hb Hno. rewrite Hheld. split; [by eauto|].
      apply (not_offered (producer_ c)); [|done]. by apply Hav.
    + left. by split.
Qed.


(** ** The retry loop *)

(** One iteration that replaces a buffer which does not match: a buffer
    leaves the broker, and a matching one enters it unless the allocation
    fails. *)
Lemma reallocation_coherent w h f u c b slot buf fd s :
  coherent c →
  Dequeue (dequeue_timeout_ms_ c) (producer_ c) = (b, Some (slot, buf, fd)) →
  geometry_matches w h f buf = false →
  buffers_ c !! slot = Some s →
  ∃ c2 c3 ret c4,
    update_slot slot (BufferHubSlot.set_mIsReallocating true) (set_producer_ b c)
    = Some c2 ∧
    DetachBuffer slot c2 = Some c3 ∧
    AllocateBuffer w h f u 1 c3 = Done ret c4 ∧
    coherent c4 ∧ (owned c → owned c4) ∧
    ((ret = NO_MEMORY ∧
      S (occupied (held (producer_ c4))) = occupied (held (producer_ c))) ∨
     (ret = NO_ERROR ∧
      occupied (held (producer_ c4)) = occupied (held (producer_ c)) ∧
      S (mismatching w h f (held (producer_ c4)))
      = mismatching w h f (held (producer_ c)))).
Proof.
  intros Hc Hd Hgeo Hs.
  destruct (fetch_coherent c b _ Hc Hd) as (Hc1 & Hheld1 & Ho1 & Hr).
  destruct (Hr slot buf fd eq_refl) as (Hb & Hav & s0 & Hs0 & Hsb & Hnd).
  assert (s0 = s) as -> by congruence.
  assert (Hi : (slot < length (buffers_ c))%nat) by (by eapply lookup_lt_Some).
  unfold update_slot at 1. simpl. rewrite Hs. eexists. 
  set (c2 := set_buffers_ _ _).
  assert (Hc2 : coherent c2).
  { by apply (insert_coherent (set_producer_ b c) slot s). }
  assert (Ho2 : owned c → owned c2).
  { intros Ho. by apply (insert_owned (set_producer_ b c) slot s); [..|apply Ho1]. }
  assert (Hs2 : buffers_ c2 !! slot = Some (BufferHubSlot.set_mIsReallocating true s)).
  { simpl. by apply list_lookup_insert_eq. }
  destruct (DetachBuffer_coherent slot c2 _ Hc2 Hs2) as (c3 & Hdet & Hc3 & Hheld3 & Ho3).
  destruct (AllocateBuffer_coherent w h f u 1 c3 Hc3) as (ret & c4 & Hal & Hc4 & Ho4 & Hret).
  exists c3, ret, c4. repeat (split; [done|]).
  change (producer_ c2) with b in Hheld3.
  assert (Hocc : S (occupied (held (producer_ c3))) = occupied (held (producer_ c))).
  { rewrite Hheld3, <- Hheld1. by eapply occupied_insert_None. }
  assert (Hmis : S (mismatching w h f (held (producer_ c3)))
                 = mismatching w h f (held (producer_ c))).
  { rewrite Hheld3, <- Hheld1. by eapply mismatching_insert_None. }
  split.
  { intros Ho. apply Ho4, Ho3; [by apply Ho2|]. simpl. by apply Hnd. }
  destruct Hret as [[-> Hheld4]|(-> & slot' & buf' & Hvac & Hheld4 & Hgeo')].
  - left. split; [done|]. by rewrite Hheld4.
  - right. split; [done|]. rewrite Hheld4.
    rewrite (occupied_insert_Some _ _ _ Hvac), (mismatching_insert_Some _ _ _ _ _ _ Hvac Hgeo').
    by split.
Qed.

(** How the loop leaves a coherent state.  Every iteration that does not
    leave the loop takes a mismatching buffer from the broker and gives it a
    matching one: the loop is exhausted only if the broker had as many
    mismatching buffers as there were iterations. *)
Lemma retry_loop_coherent n w h f u c cur fs e :
  coherent c →
  retry_loop n w h f u c cur = (fs, e) →
  match e with
  | ExitBreak slot buf c' =>
      coherent c' ∧ (owned c → owned c') ∧
      occupied (held (producer_ c')) = occupied (held (producer_ c)) ∧
      ∃ s, buffers_ c' !! slot = Some s ∧
           BufferHubSlot.mBufferProducer s = Some buf ∧
           geometry_matches w h f buf = true ∧
           available (producer_ c') slot = false ∧
           (owned c → BufferHubSlot.mBufferState s ≠ BufferState.Dequeued)
  | ExitExhausted l c' =>
      coherent c' ∧ (owned c → owned c') ∧
      occupied (held (producer_ c')) = occupied (held (producer_ c)) ∧
      (mismatching w h f (held (producer_ c')) + n)%nat
      = mismatching w h f (held (producer_ c)) ∧
      (l = cur ∨
       ∃ slot buf s, l = Some (slot, buf) ∧ buffers_ c' !! slot = Some s ∧
                     (owned c → BufferHubSlot.mBufferState s ≠ BufferState.Dequeued))
  | ExitNoMemory c' =>
      coherent c' ∧ (owned c → owned c') ∧
      occupied (held (producer_ c')) = occupied (held (producer_ c))
  | ExitAllocFailed ret c' =>
      coherent c' ∧ (owned c → owned c') ∧
      S (occupied (held (producer_ c'))) = occupied (held (producer_ c))
  | ExitUndefined => False
  end.
Proof.
  revert c cur fs e. induction n as [|n IH]; intros c cur fs e Hc H.
  { simpl in H. injection H as <- <-.
    split; [done|]. split; [done|]. split; [done|]. split; [lia|by left]. }
  pose proof H as Hwhole. simpl in H.
  destruct (Dequeue (dequeue_timeout_ms_ c) (producer_ c)) as [b r] eqn:Hd.
  destruct (fetch_coherent c b r Hc Hd) as (Hc1 & Hheld1 & Ho1 & Hr).
  destruct r as [[[slot buf] fd]|]; cycle 1.
  { injection H as <- <-. simpl. by rewrite Hheld1. }
  destruct (Hr slot buf fd eq_refl) as (Hb & Hav & s & Hs & Hsb & Hnd).
  destruct (geometry_matches w h f buf) eqn:Hgeo.
  { injection H as <- <-. simpl. rewrite Hheld1. repeat (split; [done|]).
    by exists s. }
  destruct (reallocation_coherent w h f u c b slot buf fd s Hc Hd Hgeo Hs)
    as (c2 & c3 & ret & c4 & Hmark & Hdet & Hal & Hc4 & Ho4 & Hret).
  rewrite Hmark, Hdet, Hal in H.
  destruct Hret as [[-> Hocc]|(-> & Hocc & Hmis)].
  { injection H as <- <-. by simpl. }
  change (NO_ERROR <? 0) with false in H.
  destruct (retry_loop n w h f u c4 (Some (slot, buf))) as [fs' e'] eqn:Hrec.
  injection H as <- <-. apply (IH _ _ _ _ Hc4) in Hrec.
  destruct e' as [slot' buf' c'|l c'|c'|ret' c'|]; [..|done].
  - destruct Hrec as (Hc' & Ho' & Hocc' & s' & Hs' & Hsb' & Hgeo' & Hav' & Hnd').
    split; [done|]. split; [by auto|]. split; [congruence|].
    exists s'. repeat (split; [done|]). by auto.
  - destruct Hrec as (Hc' & Ho' & Hocc' & Hmis' & Hl).
    split; [done|]. split; [by auto|]. split; [congruence|]. split; [lia|].
    right. destruct Hl as [->|(slot' & buf' & s' & -> & Hs' & Hnd')].
    + pose proof (retry_loop_carried _ _ _ _ _ _ _ _ _ _ Hwhole eq_refl) as Hcar.
      destruct (proj2 Hcar _ _ Hs) as (s' & Hs' & Hst & _).
      exists slot, buf, s'. split; [done|]. split; [done|]. rewrite Hst. done.
    + exists slot', buf', s'. split; [done|]. split; [done|]. by auto.
  - destruct Hrec as (Hc' & Ho' & Hocc'). split; [done|]. split; [by auto|]. congruence.
  - destruct Hrec as (Hc' & Ho' & Hocc'). split; [done|]. split; [by auto|]. congruence.
Qed.


(** ** dequeueBuffer *)

(** Accepting a slot of the table changes neither its buffer nor the
    broker. *)
Lemma accept_slot_coherent p c slot s :
  coherent c →
  buffers_ c !! slot = Some s →
  accept_slot p c slot ≠ Undefined ∧
  (BufferHubSlot.mBufferState s ≠ BufferState.Dequeued →
   ∃ r p', accept_slot p c slot = Done r p') ∧
  ∀ r p', accept_slot p c slot = Done r p' →
    coherent (core_ p') ∧
    0 <= status r ∧
    out_slot r = Some (to_int32 (Z.of_nat slot)) ∧
    BufferHubSlot.mBufferState s ≠ BufferState.Dequeued ∧
    producer_ (core_ p') = producer_ c ∧
    max_dequeued_buffer_count_ p' = max_dequeued_buffer_count_ p ∧
    ∃ s', buffers_ (core_ p') = <[slot := s']> (buffers_ c) ∧
          buffers_ (core_ p') !! slot = Some s' ∧
          BufferHubSlot.mBufferProducer s' = BufferHubSlot.mBufferProducer s.
Proof.
  intros Hc Hs. split.
  { unfold accept_slot. rewrite Hs. by repeat case_match. }
  split.
  { intros Hst. unfold accept_slot. rewrite Hs.
    destruct (BufferHubSlot.mBufferState s); [|done|]; simpl;
      destruct (BufferHubSlot.mIsReallocating _); by eauto. }
  intros r p' Hacc.
  apply accept_slot_done in Hacc as (s2 & Hs2 & Hst & -> & ->).
  assert (s2 = s) as -> by congruence. simpl.
  split; [by apply (insert_coherent c slot s)|].
  split; [by destruct (BufferHubSlot.mIsReallocating s)|].
  repeat (split; [done|]). eexists. split; [done|].
  split; [apply list_lookup_insert_eq; by eapply lookup_lt_Some|done].
Qed.

(** The lazy allocation keeps the table and the broker coherent. *)
Lemma lazy_allocation_coherent p w h f u :
  coherent (core_ p) →
  ∃ ret c1,
    lazy_allocation p w h f u = Done ret c1 ∧
    coherent c1 ∧ (owned (core_ p) → owned c1) ∧
    ((ret = NO_MEMORY ∧ held (producer_ c1) = held (producer_ (core_ p))) ∨
     (ret = NO_ERROR ∧
      (held (producer_ c1) = held (producer_ (core_ p)) ∨
       (to_int32 (Z.of_nat (capacity (producer_ (core_ p))))
        < max_dequeued_buffer_count_ p ∧
        occupied (held (producer_ c1)) = S (occupied (held (producer_ (core_ p)))))))).
Proof.
  intros Hc. unfold lazy_allocation.
  destruct (_ <? _) eqn:Hgate.
  - destruct (AllocateBuffer_coherent w h f u 1 _ Hc)
      as (ret & c1 & -> & Hc1 & Ho1 & Hret).
    exists ret, c1. repeat (split; [done|]).
    destruct Hret as [[-> Hh]|(-> & slot & buf & Hvac & Hh & _)]; [by left|].
    right. split; [done|]. right. apply Z.ltb_lt in Hgate. split; [done|].
    rewrite Hh. by apply occupied_insert_Some.
  - exists NO_ERROR, (core_ p). repeat (split; [done|]). right. by auto.
Qed.


(** ** The bound on the dequeued slots *)

(** In a settled state no more slots are dequeued than the broker has
    buffers, and it has no more than the bound allows. *)
Lemma settled_within_bound p :
  settled p →
  dequeued_slots p <= Z.of_nat (capacity (producer_ (core_ p)))
  ∧ Z.of_nat (capacity (producer_ (core_ p))) <= max_dequeued_buffer_count_ p.
Proof.
  intros (Hc & Ho & Hcap & _). split; [|done].
  unfold dequeued_slots. rewrite (law_capacity Hlaw).
  pose proof Hc as (_ & _ & Hfmap). rewrite <- Hfmap.
  apply inj_le, dequeued_count_le_occupied. intros j s Hs Hd.
  destruct (Ho j s Hs Hd) as [[buf Hbuf] _].
  rewrite (coherent_lookup _ _ _ Hc Hs) in Hbuf. injection Hbuf as ->. done.
Qed.

(** [dequeueBuffer] keeps the state settled: the lazy allocation adds a
    buffer only while the broker has fewer than the bound allows, the loop
    replaces buffers one for one, and the slot handed out is one the broker
    offered. *)
Lemma dequeueBuffer_settled p w h f u r p' :
  settled p → dequeueBuffer p w h f u = Done r p' → settled p'.
Proof.
  intros (Hc & Ho & Hcap & Hmax & Hint) Hd.
  apply dequeueBuffer_with_fetches in Hd as [fs Hd].
  revert Hd. unfold dequeueBuffer_fetches.
  destruct (connected_api_ (core_ p) =? kNoConnectedApi).
  { intros [= <- <- <-]. done. }
  rewrite (law_capacity Hlaw) in Hcap.
  destruct (lazy_allocation_coherent p w h f u Hc) as (ret & c1 & -> & Hc1 & Ho1 & Hret).
  specialize (Ho1 Ho).
  assert (Hcap1 : Z.of_nat (occupied (held (producer_ c1))) <= max_dequeued_buffer_count_ p).
  { pose proof (occupied_le_length (held (producer_ (core_ p)))) as Hle.
    pose proof Hc as (_ & Hlen & Hfmap).
    rewrite <- Hfmap, length_fmap, Hlen, Hfmap in Hle.
    destruct Hret as [[_ ->]|[_ [->|[Hgate ->]]]]; [done..|].
    rewrite (law_capacity Hlaw), to_int32_small in Hgate; [lia|].
    unfold INT32_MAX in *. lia. }
  assert (Hleave : ∀ c2 : Core B,
    coherent c2 → owned c2 →
    (occupied (held (producer_ c2)) ≤ occupied (held (producer_ c1)))%nat →
    settled (set_core_ c2 p)).
  { intros c2 Hc2 Ho2 Hle. repeat (split; [done|]). simpl.
    rewrite (law_capacity Hlaw). split; [lia|done]. }
  destruct (ret <? 0).
  { intros [= <- <- <-]. by apply Hleave. }
  destruct (retry_loop _ _ _ _ _ _ _) as [fs' e] eqn:Hloop. intros [= <- Hacc].
  pose proof (retry_loop_coherent _ _ _ _ _ _ _ _ _ Hc1 Hloop) as Hcoh.
  destruct e as [slot buf c2|l c2|c2|ret' c2|]; [| | | |done].
  - destruct Hcoh as (Hc2 & Ho2 & Hocc & s & Hs & Hsb & _ & Hav & _).
    specialize (Ho2 Ho1).
    destruct (accept_slot_coherent p c2 slot s Hc2 Hs) as (_ & _ & Hdone).
    destruct (Hdone r p' Hacc) as (Hc' & _ & _ & Hst & Hprod & Hm & s' & Hb' & Hs' & Hsb').
    split; [done|]. split.
    + intros j t Ht Hdq. rewrite Hprod. rewrite Hb' in Ht.
      destruct (decide (slot = j)) as [<-|Hne].
      * split; [|done]. exists buf. rewrite (coherent_lookup _ _ _ Hc2 Hs). by rewrite Hsb.
      * rewrite list_lookup_insert_ne in Ht by done. by apply (Ho2 j t).
    + rewrite Hprod, Hm, (law_capacity Hlaw). split; [lia|done].
  - destruct Hcoh as (_ & _ & _ & Hmis & _).
    pose proof (mismatching_le_occupied w h f (held (producer_ c1))). lia.
  - injection Hacc as <- <-. destruct Hcoh as (Hc2 & Ho2 & Hocc).
    apply Hleave; [done|by auto|lia].
  - injection Hacc as <- <-. destruct Hcoh as (Hc2 & Ho2 & Hocc).
    apply Hleave; [done|by auto|lia].
Qed.

(** Every call keeps the state settled, [setMaxDequeuedBufferCount] when
    the new bound covers the buffers of the broker. *)
Lemma perform_settled p call r p' :
  settled p →
  perform p call = Done r p' →
  match call with
  | CallSetMaxDequeuedBufferCount n =>
      r = NO_ERROR →
      Z.of_nat (capacity (producer_ (core_ p))) <= n < Z.of_nat kMaxQueueCapacity
  | _ => True
  end →
  settled p'.
Proof.
  intros Hset. pose proof Hset as (Hc & Ho & Hcap & Hmax & Hint).
  destruct call as [api o|api|n|slot|w h f u|slot input output|slot fence];
    simpl; intros H Hcall.
  - unfold connect in H. repeat case_match; by simplify_eq/=.
  - unfold disconnect in H. repeat case_match; by simplify_eq/=.
  - unfold setMaxDequeuedBufferCount in H. repeat case_match; simplify_eq/=; try done.
    specialize (Hcall eq_refl). repeat (split; [done|]). simpl. lia.
  - unfold requestBuffer in H. repeat case_match; simplify_eq/=; try done.
    split; [|split; [|done]]; simpl.
    + by eapply insert_coherent.
    + by eapply insert_owned.
  - destruct (dequeueBuffer p w h f u) as [r0 p0| |] eqn:Hd; [|done..].
    injection H as <- <-. by eapply dequeueBuffer_settled.
  - destruct (queueBuffer p slot input output) as [[r0 out] p0| |] eqn:Hq; [|done..].
    injection H as <- <-.
    destruct (decide (r0 = NO_ERROR)) as [->|Herr]; cycle 1.
    { by destruct (queueBuffer_error _ _ _ _ _ _ _ Hq Herr) as [-> _]. }
    apply queueBuffer_posts in Hq as (s & buf & fd & ts & Hs & Hdq & ->).
    pose proof Hc as (Hsound & Hlen & Hfmap).
    destruct (law_Post Hlaw buf fd ts _ Hsound) as (Hsound' & Hheld & Hav).
    split; [|split]; simpl.
    + split; [done|]. simpl. split; [by rewrite length_insert|].
      rewrite Hheld, <- Hfmap. by eapply fmap_insert_same.
    + intros j sj Hsj Hdj. simpl in *.
      eapply insert_state_back in Hsj as (sk & Hsk & Hdk); [|exact Hs| |exact Hdj].
      * destruct (Ho j sk Hsk Hdk) as [Hb Hno]. rewrite Hheld. split; [done|].
        by apply (not_offered (producer_ (core_ p))); [apply Hav|].
      * done.
    + rewrite (law_capacity Hlaw), Hheld, <- (law_capacity Hlaw). done.
  - destruct (decide (r = NO_ERROR)) as [->|Herr]; cycle 1.
    { by destruct (cancelBuffer_error _ _ _ _ _ H Herr) as [-> _]. }
    apply cancelBuffer_enqueues in H as (s & Hs & Hdq & ->).
    pose proof Hc as (Hsound & Hlen & Hfmap).
    destruct (Ho _ s Hs Hdq) as [[buf Hbuf] Hno].
    destruct (law_Enqueue Hlaw (BufferHubSlot.mBufferProducer s) _ _ buf
                Hsound Hbuf Hno) as (Hsound' & Hheld & Hav).
    split; [|split]; simpl.
    + split; [done|]. simpl. split; [by rewrite length_insert|].
      rewrite Hheld, <- Hfmap. by eapply fmap_insert_same.
    + intros j sj Hsj Hdj. simpl in *.
      destruct (decide (Z.to_nat slot = j)) as [<-|Hne].
      * rewrite list_lookup_insert_eq in Hsj by (by eapply lookup_lt_Some).
        injection Hsj as <-. done.
      * rewrite list_lookup_insert_ne in Hsj by done.
        destruct (Ho j sj Hsj Hdj) as [Hb Hno']. rewrite Hheld. split; [done|].
        apply (not_offered (producer_ (core_ p))); [|done]. by apply Hav.
    + rewrite (law_capacity Hlaw), Hheld, <- (law_capacity Hlaw). done.
Qed.


End Lawful.
End ContractProperties.

(** * The first-in first-out broker keeps the contract *)

Lemma existsb_eqb_elem_of (j : nat) (l : list nat) :
  existsb (Nat.eqb j) l = true ↔ j ∈ l.
Proof.
  induction l as [|x l IH]; simpl.
  - split; [done|]. by intros ?%elem_of_nil.
  - rewrite orb_true_iff, IH, elem_of_cons, Nat.eqb_eq. done.
Qed.

Lemma nodupb_NoDup (l : list nat) : nodupb l = true ↔ NoDup l.
Proof.
  induction l as [|x l IH]; simpl.
  - split; [constructor|done].
  - rewrite andb_true_iff, negb_true_iff, IH, NoDup_cons.
    rewrite <- not_true_iff_false, existsb_eqb_elem_of. done.
Qed.

Lemma fifo_available (b : Fifo.t) (j : nat) :
  available b j = true ↔ j ∈ Fifo.available b.
Proof. apply existsb_eqb_elem_of. Qed.

Lemma fifo_not_available (b : Fifo.t) (j : nat) :
  available b j = false ↔ j ∉ Fifo.available b.
Proof. rewrite <- fifo_available. by destruct (available b j). Qed.

Lemma fifo_sound (b : Fifo.t) :
  sound b ↔
  NoDup (Fifo.available b) ∧
  ∀ slot, slot ∈ Fifo.available b → ∃ buf, Fifo.slots b !! slot = Some (Some buf).
Proof.
  change (sound b) with
    (nodupb (Fifo.available b) && forallb (holds_buffer b) (Fifo.available b) = true).
  rewrite andb_true_iff, nodupb_NoDup, forallb_forall.
  split; intros [Hnd Hall]; (split; [done|]); intros slot Hin.
  - apply list_elem_of_In, Hall in Hin. unfold holds_buffer in Hin.
    destruct (Fifo.slots b !! slot) as [[buf|]|]; [by exists buf|done..].
  - apply list_elem_of_In, Hall in Hin as [buf Hbuf]. unfold holds_buffer.
    by rewrite Hbuf.
Qed.

Lemma count_buffers_occupied (l : list (option BufferProducer.t)) :
  Fifo.count_buffers l = occupied l.
Proof. induction l as [|[x|] l IH]; simpl; congruence. Qed.

Lemma first_vacant_Some (l : list (option BufferProducer.t)) slot :
  Fifo.first_vacant l = Some slot → l !! slot = Some None.
Proof.
  revert slot. induction l as [|[x|] l IH]; intros slot H; simpl in H; [done| |].
  - destruct (Fifo.first_vacant l) as [k|]; [|done]. injection H as <-.
    by apply IH.
  - by injection H as <-.
Qed.

(** The first-in first-out broker keeps the contract, whatever the number
    of its slots. *)
Lemma fifo_lawful (cap : nat) : @lawful Fifo.t (Fifo.hub cap) fifo_view.
Proof.
  split.
  - intros b. apply count_buffers_occupied.
  - intros t b b' r Hsound. apply fifo_sound in Hsound as [Hnd Hall].
    change (Dequeue t b) with (Fifo.Dequeue t b). unfold Fifo.Dequeue.
    destruct (Fifo.available b) as [|slot rest] eqn:Hav.
    { intros [= <- <-]. split; [apply fifo_sound; by rewrite Hav|]. done. }
    apply NoDup_cons in Hnd as [Hnot Hnd].
    destruct (Hall slot ltac:(left)) as [buf Hbuf]. rewrite Hbuf.
    intros [= <- <-]. split; [|split; [done|split]].
    + apply fifo_sound. simpl. split; [done|]. intros k Hk. apply Hall. by right.
    + intros j. rewrite !fifo_available, Hav. simpl. by right.
    + intros slot' buf' fd [= <- <- <-]. split; [done|].
      rewrite fifo_available, fifo_not_available, Hav. simpl. split; [by left|done].
  - intros w h f u n b b' r Hsound. pose proof Hsound as Hs.
    apply fifo_sound in Hs as [Hnd Hall].
    change (Allocate w h f u n b) with (Fifo.Allocate w h f u n b).
    unfold Fifo.Allocate.
    destruct (Fifo.first_vacant (Fifo.slots b)) as [slot|] eqn:Hvac; cycle 1.
    { by intros [= <- <-]. }
    destruct (_ <? _); [by intros [= <- <-]|].
    apply first_vacant_Some in Hvac.
    assert (Hnew : slot ∉ Fifo.available b).
    { intros Hin. destruct (Hall slot Hin) as [buf Hbuf]. congruence. }
    intros [= <- <-]. split; [|split; [done|split; [done|split]]].
    + apply fifo_sound. simpl. split.
      * apply NoDup_app. split; [done|]. split; [|apply NoDup_singleton].
        intros k Hk ->%list_elem_of_singleton. done.
      * intros k [Hk| ->%list_elem_of_singleton]%elem_of_app.
        -- destruct (Hall k Hk) as [buf Hbuf]. exists buf.
           rewrite list_lookup_insert_ne; [done|]. intros ->. congruence.
        -- eexists. apply list_lookup_insert_eq. by eapply lookup_lt_Some.
    + unfold geometry_matches. simpl. by rewrite !Z.eqb_refl.
    + intros j Hne. rewrite !fifo_available. simpl.
      intros [Hk| ->%list_elem_of_singleton]%elem_of_app; done.
  - intros slot b Hsound. apply fifo_sound in Hsound as [Hnd Hall].
    change (Detach slot b) with (Fifo.Detach slot b). unfold Fifo.Detach.
    split; [|split; [done|]].
    + apply fifo_sound. simpl. split; [by apply NoDup_filter|].
      intros k [Hne Hk]%list_elem_of_filter.
      destruct (Hall k Hk) as [buf Hbuf]. exists buf.
      by rewrite list_lookup_insert_ne.
    + intros j. rewrite !fifo_available. simpl.
      by intros [_ Hk]%list_elem_of_filter.
  - intros o slot b buf Hsound Hheld Hno.
    apply fifo_sound in Hsound as [Hnd Hall]. apply fifo_not_available in Hno.
    change (Enqueue o slot b) with (Fifo.Enqueue o slot b). unfold Fifo.Enqueue.
    split; [|split; [done|]].
    + apply fifo_sound. simpl. split.
      * apply NoDup_app. split; [done|]. split; [|apply NoDup_singleton].
        intros k Hk ->%list_elem_of_singleton. done.
      * intros k [Hk| ->%list_elem_of_singleton]%elem_of_app; [by apply Hall|].
        by exists buf.
    + intros j Hne. rewrite !fifo_available. simpl.
      intros [Hk| ->%list_elem_of_singleton]%elem_of_app; done.
  - intros buf fd ts b Hsound. done.
Qed.

Section ContractEvaluation.
Import Scenario.

Ltac settle := vm_compute; repeat split; try done; eauto.

Lemma start_settled : settled start.
Proof.
  split; [settle|]. split; [|settle].
  intros j s Hj Hd.
  change (buffers_ (core_ start)) with (replicate 64 BufferHubSlot.empty) in Hj.
  apply lookup_replicate in Hj as [-> _]. done.
Qed.



(** The bound must stay below [kMaxQueueCapacity] for this: with the bound
    at [kMaxQueueCapacity], a call that exhausts its retries hands out a
    slot that the broker goes on offering; when the broker offers it to a
    later call, which fails to replace its buffer, the slot is dequeued and
    has no buffer.  Here the bound is then set to 63, the number of buffers
    of the broker, and all 63 are dequeued: 64 slots are dequeued under a
    bound of 63, though no bound was ever below the number of buffers. *)
Example bound_at_capacity_exceeded :
  capacity (producer_ (core_ (after all_slots_free roomy))) = 64%nat ∧
  status (reply_of (dequeueBuffer (after all_slots_free roomy) 128 128 RGBA 0))
  = BUFFER_NEEDS_REALLOCATION ∧
  status (reply_of (dequeueBuffer (after (all_slots_free ++ [dequeue 128 128]) roomy)
                                  256 256 RGBA 0))
  = NO_MEMORY ∧
  capacity (producer_ (core_ (after (all_slots_free ++ [dequeue 128 128; dequeue 256 256])
                                    roomy))) = 63%nat ∧
  match run roomy bound_at_capacity with
  | Some p =>
      capacity (producer_ (core_ p)) = 63%nat ∧
      max_dequeued_buffer_count_ p = 63 ∧
      dequeued_slots p = 64
  | None => False
  end.
Proof. settle. Qed.

End ContractEvaluation.
